(** * The promise package (promise.go), embedded

    Promises live in a heap indexed by addresses: handlers can return
    pointers to promises, and the two closures that [resolve] builds write
    to the promise that built them.  Every function of the package is a
    function from a world to an outcome.

    A user's handler is a function over a user state [U], which stands for
    the variables its closure captures; a fulfillment handler returns a
    value or calls New and returns the new promise.  User handlers do not
    panic and do not call the package in another way.  The two closures of
    [resolve] are constructors of the handler types, since they are stored
    in the handler lists of another promise.

    An executor is the list of calls of resolve and reject it makes and the
    way it ends.  Its goroutine is started by New and runs in one piece:
    resolve and reject hold the mutex of the promise for as long as they
    run, and only the first of them that finds the promise pending does
    anything.  It runs at a point where the scheduler is asked and says so
    (the world carries the scheduler's decisions as an oracle), or, at the
    latest, when Await has to wait for it.

    resolve waits for a promise whose goroutine can call resolve in its
    turn, so the recursion is bounded by a fuel; running out of it is an
    outcome of its own. *)

From stdpp Require Import prelude strings.

Open Scope string_scope.
Open Scope list_scope.
Open Scope Z_scope.

(** ** Values, errors and executors *)

Definition addr := nat.

(** The text carried by a value built with errors.New. *)
Record errorString := { s : string }.

(** A value of dynamic type (interface{}): nil, an int, a string, an error
    value, or a pointer to a promise. *)
Inductive value :=
| VNil
| VInt (n : Z)
| VString (text : string)
| VError (e : errorString)
| VPromise (p : addr).

(** The interface type error: nil or an error value. *)
Definition go_error := option errorString.

Definition errors_New (text : string) : go_error := Some {| s := text |}.

Definition Error (e : errorString) : string := s e.

(** What an executor does with the two callables it is given: the calls it
    makes, in order, and how it ends.  [panics r] ends in a panic for which
    recover() yields [r], the value given to panic (recover() yields nil
    only when there is no panic: a panic with a nil value reaches it as a
    runtime error since Go 1.21); [hangs] never ends. *)
Inductive executor_call :=
| call_resolve (v : value)
| call_reject (e : go_error).

Inductive ending :=
| returns
| panics (r : value)
| hangs.

Record Executor := { calls : list executor_call; finish : ending }.

(** The three states (const pending = iota; fulfilled; rejected). *)
Inductive promise_state := pending | fulfilled | rejected.

Definition is_pending (st : promise_state) : bool :=
  match st with pending => true | _ => false end.

Section Model.

Variable U : Type.

(** What a user's fulfillment handler returns: a value, or New(e). *)
Inductive returned :=
| ret_value (v : value)
| ret_New (e : Executor).

(** A fulfillment handler is a user's function or the first closure built
    in [resolve] (promise.result = result; return nil), which captures the
    promise being resolved. *)
Inductive then_handler :=
| user_then (f : value -> U -> returned * U)
| flatten_then (outer : addr).

(** A rejection handler is a user's function or the second closure built in
    [resolve], which captures the promise being resolved and, by reference,
    the locals doneCounter and isRejected. *)
Inductive catch_handler :=
| user_catch (f : go_error -> U -> go_error * U)
| flatten_catch (outer : addr).

(** The struct.  [mutex] is true while the lock is held, [wg] is the
    counter of the WaitGroup.  The last two fields are not fields of the
    struct: they are the locals doneCounter and isRejected of the
    promise's call of [resolve], kept with the promise because the
    closures read and write them after they were built. *)
Record Promise := {
  state : promise_state;
  executor : Executor;
  then_ : list then_handler;
  catch : list catch_handler;
  result : value;
  error : go_error;
  mutex : bool;
  wg : Z;
  doneCounter : Z;
  isRejected : bool
}.

Definition set_state (x : promise_state) (pr : Promise) : Promise :=
  {| state := x; executor := executor pr; then_ := then_ pr; catch := catch pr;
     result := result pr; error := error pr; mutex := mutex pr; wg := wg pr;
     doneCounter := doneCounter pr; isRejected := isRejected pr |}.

Definition set_then (x : list then_handler) (pr : Promise) : Promise :=
  {| state := state pr; executor := executor pr; then_ := x; catch := catch pr;
     result := result pr; error := error pr; mutex := mutex pr; wg := wg pr;
     doneCounter := doneCounter pr; isRejected := isRejected pr |}.

Definition set_catch (x : list catch_handler) (pr : Promise) : Promise :=
  {| state := state pr; executor := executor pr; then_ := then_ pr; catch := x;
     result := result pr; error := error pr; mutex := mutex pr; wg := wg pr;
     doneCounter := doneCounter pr; isRejected := isRejected pr |}.

Definition set_result (x : value) (pr : Promise) : Promise :=
  {| state := state pr; executor := executor pr; then_ := then_ pr; catch := catch pr;
     result := x; error := error pr; mutex := mutex pr; wg := wg pr;
     doneCounter := doneCounter pr; isRejected := isRejected pr |}.

Definition set_error (x : go_error) (pr : Promise) : Promise :=
  {| state := state pr; executor := executor pr; then_ := then_ pr; catch := catch pr;
     result := result pr; error := x; mutex := mutex pr; wg := wg pr;
     doneCounter := doneCounter pr; isRejected := isRejected pr |}.

Definition set_mutex (x : bool) (pr : Promise) : Promise :=
  {| state := state pr; executor := executor pr; then_ := then_ pr; catch := catch pr;
     result := result pr; error := error pr; mutex := x; wg := wg pr;
     doneCounter := doneCounter pr; isRejected := isRejected pr |}.

Definition set_wg (x : Z) (pr : Promise) : Promise :=
  {| state := state pr; executor := executor pr; then_ := then_ pr; catch := catch pr;
     result := result pr; error := error pr; mutex := mutex pr; wg := x;
     doneCounter := doneCounter pr; isRejected := isRejected pr |}.

Definition set_doneCounter (x : Z) (pr : Promise) : Promise :=
  {| state := state pr; executor := executor pr; then_ := then_ pr; catch := catch pr;
     result := result pr; error := error pr; mutex := mutex pr; wg := wg pr;
     doneCounter := x; isRejected := isRejected pr |}.

Definition set_isRejected (x : bool) (pr : Promise) : Promise :=
  {| state := state pr; executor := executor pr; then_ := then_ pr; catch := catch pr;
     result := result pr; error := error pr; mutex := mutex pr; wg := wg pr;
     doneCounter := doneCounter pr; isRejected := x |}.

(** ** Worlds and outcomes *)

(** [heap]: the promises allocated so far.  [ready]: the promises whose
    goroutine was started by New and has not run yet.  [user]: the state
    the user's handlers act on.  [oracle]: the scheduler's decisions, one
    per point at which it may let a ready goroutine run first. *)
Record World := {
  heap : list Promise;
  ready : list addr;
  user : U;
  oracle : list bool
}.

Definition set_heap (h : list Promise) (w : World) : World :=
  {| heap := h; ready := ready w; user := user w; oracle := oracle w |}.

Definition set_ready (r : list addr) (w : World) : World :=
  {| heap := heap w; ready := r; user := user w; oracle := oracle w |}.

Definition set_user (u : U) (w : World) : World :=
  {| heap := heap w; ready := ready w; user := u; oracle := oracle w |}.

Definition set_oracle (o : list bool) (w : World) : World :=
  {| heap := heap w; ready := ready w; user := user w; oracle := o |}.

(** A call returns ([Done]), blocks for ever in the world it reached
    ([Blocks]), or panics with nothing to recover it ([Crash]).
    [OutOfFuel] is the model's own: the recursion bound was too small. *)
Inductive outcome (A : Type) :=
| Done (a : A) (w : World)
| Blocks (w : World)
| Crash (msg : string)
| OutOfFuel.

Arguments Done {A} a w.
Arguments Blocks {A} w.
Arguments Crash {A} msg.
Arguments OutOfFuel {A}.

Definition M (A : Type) := World -> outcome A.

Definition ret {A} (a : A) : M A := fun w => Done a w.

Definition bind {A B} (m : M A) (k : A -> M B) : M B :=
  fun w =>
    match m w with
    | Done a w' => k a w'
    | Blocks w' => Blocks w'
    | Crash msg => Crash msg
    | OutOfFuel => OutOfFuel
    end.

Notation "x <- m ;; k" := (bind m (fun x => k))
  (at level 100, m at next level, right associativity).
Notation "m ;;; k" := (bind m (fun _ => k))
  (at level 100, right associativity).

Definition nil_dereference : string :=
  "invalid memory address or nil pointer dereference".
Definition negative_counter : string := "sync: negative WaitGroup counter".
Definition not_a_string : string := "interface conversion: interface {} is not string".

(** Reading and writing through a pointer. *)
Definition deref (p : addr) : M Promise :=
  fun w =>
    match heap w !! p with
    | Some pr => Done pr w
    | None => Crash nil_dereference
    end.

Definition modify (p : addr) (f : Promise -> Promise) : M unit :=
  fun w =>
    match heap w !! p with
    | Some pr => Done tt (set_heap (<[p := f pr]> (heap w)) w)
    | None => Crash nil_dereference
    end.

(** promise.mutex.Lock().  A goroutine runs in one piece, so a lock that
    is held when Lock is called is held by a call that waits, directly or
    not, for the caller: the caller blocks for ever. *)
Definition Lock (p : addr) : M unit :=
  fun w =>
    match heap w !! p with
    | Some pr => if mutex pr then Blocks w
                 else Done tt (set_heap (<[p := set_mutex true pr]> (heap w)) w)
    | None => Crash nil_dereference
    end.

Definition Unlock (p : addr) : M unit := modify p (set_mutex false).

(** promise.wg.Add(delta) *)
Definition wg_Add (p : addr) (delta : Z) : M unit :=
  pr <- deref p ;;
  if wg pr + delta <? 0 then (fun _ => Crash negative_counter)
  else modify p (set_wg (wg pr + delta)).

(** promise.wg.Done() *)
Definition wg_Done (p : addr) : M unit := wg_Add p (-1).

(** A loop whose body is only promise.wg.Done(). *)
Fixpoint wg_Done_times (n : nat) (p : addr) : M unit :=
  match n with
  | O => ret tt
  | S k => wg_Done p ;;; wg_Done_times k p
  end.

(** ** New *)

Definition new_promise (e : Executor) : Promise :=
  {| state := pending; executor := e; then_ := []; catch := [];
     result := VNil; error := None; mutex := false; wg := 0;
     doneCounter := 0; isRejected := false |}.

(** New allocates the promise and starts its goroutine, which is then
    ready to run. *)
Definition New (e : Executor) : M addr :=
  fun w =>
    let a := length (heap w) in
    Done a (set_ready (ready w ++ [a]) (set_heap (heap w ++ [new_promise e]) w)).

(** ** Calling handlers *)

(** Calling a fulfillment handler.  The first closure of [resolve] is
    promise.result = result; return nil. *)
Definition invoke_then (h : then_handler) (data : value) : M value :=
  match h with
  | user_then f =>
      fun w =>
        let '(r, u) := f data (user w) in
        match r with
        | ret_value v => Done v (set_user u w)
        | ret_New e => (a <- New e ;; ret (VPromise a)) (set_user u w)
        end
  | flatten_then outer =>
      modify outer (set_result data) ;;; ret VNil
  end.

(** The loop over promise.catch in the second closure of [resolve]:
    chainError = value(chainError); promise.wg.Done(). *)
Fixpoint chain_loop (call : catch_handler -> go_error -> M go_error)
    (p : addr) (hs : list catch_handler) (chainError : go_error) : M go_error :=
  match hs with
  | [] => ret chainError
  | h :: rest =>
      e <- call h chainError ;;
      wg_Done p ;;;
      chain_loop call p rest e
  end.

(** Calling a rejection handler.  The second closure of [resolve] sets
    isRejected, releases the units of the fulfillment handlers of its
    promise that were not done (len(promise.then)-doneCounter of them) and
    runs the rejection handlers of its promise, which can be closures of
    the same kind: hence the fuel. *)
Fixpoint invoke_catch (fuel : nat) (h : catch_handler) (err : go_error) : M go_error :=
  match h with
  | user_catch f =>
      fun w => let '(e, u) := f err (user w) in Done e (set_user u w)
  | flatten_catch outer =>
      match fuel with
      | O => fun _ => OutOfFuel
      | S n =>
          modify outer (set_isRejected true) ;;;
          pr <- deref outer ;;
          wg_Done_times (Z.to_nat (Z.of_nat (length (then_ pr)) - doneCounter pr)) outer ;;;
          pr <- deref outer ;;
          chain_loop (invoke_catch n) outer (catch pr) err
      end
  end.

(** ** reject *)

(** The loop over promise.catch in [reject]:
    promise.error = value(promise.error); promise.wg.Done(). *)
Fixpoint reject_loop (fuel : nat) (p : addr) (hs : list catch_handler) : M unit :=
  match hs with
  | [] => ret tt
  | h :: rest =>
      pr <- deref p ;;
      e <- invoke_catch fuel h (error pr) ;;
      modify p (set_error e) ;;;
      wg_Done p ;;;
      reject_loop fuel p rest
  end.

(** The deferred promise.mutex.Unlock() is the Unlock at the end of each
    way out, here and in [resolve], [Then] and [Catch]. *)
Definition reject (fuel : nat) (p : addr) (err : go_error) : M unit :=
  Lock p ;;;
  pr <- deref p ;;
  if negb (is_pending (state pr)) then Unlock p
  else
    wg_Done_times (length (then_ pr)) p ;;;
    modify p (set_error err) ;;;
    pr <- deref p ;;
    reject_loop fuel p (catch pr) ;;;
    modify p (set_state rejected) ;;;
    Unlock p.

(** ** handlePanic: [r] is what recover() returned *)

Definition handlePanic (fuel : nat) (p : addr) (r : value) : M unit :=
  match r with
  | VNil => ret tt
  | VString text => reject fuel p (errors_New text)
  | _ => fun _ => Crash not_a_string
  end.

(** ** Then and Catch *)

Definition Then (p : addr) (fulfillment : then_handler) : M addr :=
  Lock p ;;;
  pr <- deref p ;;
  match state pr with
  | pending =>
      wg_Add p 1 ;;;
      pr <- deref p ;;
      modify p (set_then (then_ pr ++ [fulfillment]))
  | fulfilled =>
      v <- invoke_then fulfillment (result pr) ;;
      modify p (set_result v)
  | rejected => ret tt
  end ;;;
  Unlock p ;;;
  ret p.

Definition Catch (fuel : nat) (p : addr) (rejection : catch_handler) : M addr :=
  Lock p ;;;
  pr <- deref p ;;
  match state pr with
  | pending =>
      wg_Add p 1 ;;;
      pr <- deref p ;;
      modify p (set_catch (catch pr ++ [rejection]))
  | rejected =>
      e <- invoke_catch fuel rejection (error pr) ;;
      modify p (set_error e)
  | fulfilled => ret tt
  end ;;;
  Unlock p ;;;
  ret p.

(** ** Goroutines, Await and resolve *)

Definition is_ready (p : addr) (w : World) : bool :=
  existsb (Nat.eqb p) (ready w).

Definition unready (p : addr) : M unit :=
  fun w => Done tt (set_ready (List.filter (fun a => negb (Nat.eqb p a)) (ready w)) w).

(** Another goroutine runs while the caller goes on: if it blocks, the
    caller continues from the world it left; if it panics, the program
    ends. *)
Definition in_background (m : M unit) : M unit :=
  fun w =>
    match m w with
    | Done _ w' => Done tt w'
    | Blocks w' => Done tt w'
    | Crash msg => Crash msg
    | OutOfFuel => OutOfFuel
    end.

Definition block {A} : M A := fun w => Blocks w.

Section Knot.

(** The body of the goroutine of a promise, for the recursive calls. *)
Variable run_goroutine : addr -> M unit.
Variable fuel : nat.

(** A point at which the scheduler may already have run the goroutine of
    [q]: it takes the next decision of the oracle. *)
Definition yield (q : addr) : M unit :=
  fun w =>
    match oracle w with
    | true :: o =>
        if is_ready q w then in_background (run_goroutine q) (set_oracle o w)
        else Done tt (set_oracle o w)
    | false :: o => Done tt (set_oracle o w)
    | [] => Done tt w
    end.

(** promise.wg.Wait(): returns at once when the counter is zero.
    Otherwise the caller waits; the goroutine of the promise runs if it
    has not yet, and the caller goes on once the counter is zero. *)
Definition Await_in (p : addr) : M unit :=
  pr <- deref p ;;
  if wg pr =? 0 then ret tt
  else
    fun w =>
      if is_ready p w then
        (in_background (run_goroutine p) ;;;
         pr <- deref p ;;
         if wg pr =? 0 then ret tt else block) w
      else Blocks w.

(** The block run when the value a handler returned is a promise:
    isRejected := false; thenPromise.Then(...).Catch(...).Await();
    it returns isRejected.  The scheduler may run the goroutine of
    thenPromise before Then takes the lock and before Catch does. *)
Definition flatten (p thenPromise : addr) : M bool :=
  modify p (set_isRejected false) ;;;
  yield thenPromise ;;;
  q <- Then thenPromise (flatten_then p) ;;
  yield q ;;;
  q <- Catch fuel q (flatten_catch p) ;;
  Await_in q ;;;
  pr <- deref p ;;
  ret (isRejected pr).

(** The loop over promise.then in [resolve].  It returns true when it
    stopped at [if isRejected { return }]. *)
Fixpoint resolve_loop (p : addr) (hs : list then_handler) : M bool :=
  match hs with
  | [] => ret false
  | h :: rest =>
      pr <- deref p ;;
      v <- invoke_then h (result pr) ;;
      modify p (set_result v) ;;;
      pr <- deref p ;;
      stop <- match result pr with
              | VPromise thenPromise => flatten p thenPromise
              | _ => ret false
              end ;;
      if (stop : bool) then ret true
      else
        wg_Done p ;;;
        pr <- deref p ;;
        modify p (set_doneCounter (doneCounter pr + 1)) ;;;
        resolve_loop p rest
  end.

Definition resolve_in (p : addr) (resolution : value) : M unit :=
  Lock p ;;;
  pr <- deref p ;;
  if negb (is_pending (state pr)) then Unlock p
  else
    modify p (set_state fulfilled) ;;;
    modify p (set_result resolution) ;;;
    modify p (set_doneCounter 0) ;;;
    pr <- deref p ;;
    stop <- resolve_loop p (then_ pr) ;;
    if (stop : bool) then Unlock p
    else
      pr <- deref p ;;
      wg_Done_times (length (catch pr)) p ;;;
      Unlock p.

Definition run_call (p : addr) (c : executor_call) : M unit :=
  match c with
  | call_resolve v => resolve_in p v
  | call_reject e => reject fuel p e
  end.

Fixpoint run_calls (p : addr) (cs : list executor_call) : M unit :=
  match cs with
  | [] => ret tt
  | c :: rest => run_call p c ;;; run_calls p rest
  end.

(** go func() { defer promise.handlePanic();
                promise.executor(promise.resolve, promise.reject) }() *)
Definition goroutine (p : addr) : M unit :=
  unready p ;;;
  pr <- deref p ;;
  run_calls p (calls (executor pr)) ;;;
  match finish (executor pr) with
  | returns => handlePanic fuel p VNil
  | panics r => handlePanic fuel p r
  | hangs => block
  end.

End Knot.

Fixpoint run_goroutine (fuel : nat) (p : addr) : M unit :=
  match fuel with
  | O => fun _ => OutOfFuel
  | S n => goroutine (run_goroutine n) n p
  end.

Definition resolve (fuel : nat) : addr -> value -> M unit :=
  resolve_in (run_goroutine fuel) fuel.

Definition Await (fuel : nat) : addr -> M unit :=
  Await_in (run_goroutine fuel).

Fixpoint AwaitAll (fuel : nat) (promises : list addr) : M unit :=
  match promises with
  | [] => ret tt
  | p :: rest => Await fuel p ;;; AwaitAll fuel rest
  end.

End Model.

Arguments user_then {U} f.
Arguments flatten_then {U} outer.
Arguments user_catch {U} f.
Arguments flatten_catch {U} outer.
Arguments state {U} _.
Arguments executor {U} _.
Arguments then_ {U} _.
Arguments catch {U} _.
Arguments result {U} _.
Arguments error {U} _.
Arguments mutex {U} _.
Arguments wg {U} _.
Arguments doneCounter {U} _.
Arguments isRejected {U} _.
Arguments set_state {U} x pr.
Arguments set_then {U} x pr.
Arguments set_catch {U} x pr.
Arguments set_result {U} x pr.
Arguments set_error {U} x pr.
Arguments set_mutex {U} x pr.
Arguments set_wg {U} x pr.
Arguments set_doneCounter {U} x pr.
Arguments set_isRejected {U} x pr.
Arguments heap {U} _.
Arguments ready {U} _.
Arguments user {U} _.
Arguments oracle {U} _.
Arguments set_heap {U} h w.
Arguments set_ready {U} r w.
Arguments set_user {U} u w.
Arguments set_oracle {U} o w.
Arguments Done {U A} a w.
Arguments Blocks {U A} w.
Arguments Crash {U A} msg.
Arguments OutOfFuel {U A}.
Arguments ret {U A} a _.
Arguments bind {U A B} m k _.
Arguments deref {U} p _.
Arguments modify {U} p f _.
Arguments Lock {U} p _.
Arguments Unlock {U} p _.
Arguments wg_Add {U} p delta _.
Arguments wg_Done {U} p _.
Arguments wg_Done_times {U} n p _.
Arguments new_promise {U} e.
Arguments New {U} e _.
Arguments invoke_then {U} h data _.
Arguments chain_loop {U} call p hs chainError _.
Arguments invoke_catch {U} fuel h err _.
Arguments reject_loop {U} fuel p hs _.
Arguments reject {U} fuel p err _.
Arguments handlePanic {U} fuel p r _.
Arguments Then {U} p fulfillment _.
Arguments Catch {U} fuel p rejection _.
Arguments is_ready {U} p w.
Arguments unready {U} p _.
Arguments in_background {U} m _.
Arguments block {U A} _.
Arguments yield {U} run_goroutine q _.
Arguments Await_in {U} run_goroutine p _.
Arguments flatten {U} run_goroutine fuel p thenPromise _.
Arguments resolve_loop {U} run_goroutine fuel p hs _.
Arguments resolve_in {U} run_goroutine fuel p resolution _.
Arguments run_call {U} run_goroutine fuel p c _.
Arguments run_calls {U} run_goroutine fuel p cs _.
Arguments goroutine {U} run_goroutine fuel p _.
Arguments run_goroutine {U} fuel p _.
Arguments resolve {U} fuel p resolution _.
Arguments Await {U} fuel p _.
Arguments AwaitAll {U} fuel promises _.

Notation "x <- m ;; k" := (bind m (fun x => k))
  (at level 100, m at next level, right associativity).
Notation "m ;;; k" := (bind m (fun _ => k))
  (at level 100, right associativity).

(** ** Worlds seen from one promise *)

(** The world in which the promise at [p] is [pr]. *)
Definition put {U} (p : addr) (pr : Promise U) (w : World U) : World U :=
  set_heap (<[p := pr]> (heap w)) w.

(** ** Handler chains *)

(** A chain of handlers threads an accumulator and the user state through
    the handlers, first to last. *)
Definition pipeline {U A} (fs : list (A -> U -> A * U)) (a : A) (u : U) : A * U :=
  fold_left (fun acc f => f acc.1 acc.2) fs (a, u).

(** A user's fulfillment handler that returns the value [g] computes. *)
Definition plain_then {U} (g : value -> U -> value * U) : then_handler U :=
  user_then (fun data u => let '(v, u') := g data u in (ret_value v, u')).

Definition is_promise (v : value) : bool :=
  match v with VPromise _ => true | _ => false end.

(** No handler of the chain returns a promise when the chain runs from
    [v] and [u]. *)
Fixpoint stays_plain {U} (gs : list (value -> U -> value * U)) (v : value) (u : U)
    : bool :=
  match gs with
  | [] => true
  | g :: rest =>
      negb (is_promise (g v u).1) && stays_plain rest (g v u).1 (g v u).2
  end.


(** ** Observing the calls of rejection handlers *)

(** The handler number [i] of a chain, computing [g], writes down its
    number and the error it was called with. *)
Definition observed (i : nat) (g : go_error -> go_error)
    : go_error -> list (nat * go_error) -> go_error * list (nat * go_error) :=
  fun e u => (g e, u ++ [(i, e)]).

Fixpoint observe_from (i : nat) (gs : list (go_error -> go_error))
    : list (go_error -> list (nat * go_error) -> go_error * list (nat * go_error)) :=
  match gs with
  | [] => []
  | g :: rest => observed i g :: observe_from (S i) rest
  end.

(** What the handlers write down when each is called once, in order,
    the first with [e] and each next one with what the one before it
    returned. *)
Fixpoint calls_from (i : nat) (gs : list (go_error -> go_error)) (e : go_error)
    : list (nat * go_error) :=
  match gs with
  | [] => []
  | g :: rest => (i, e) :: calls_from (S i) rest (g e)
  end.

(** ** Example programs *)

(** The user state of the examples: the arguments the handlers were
    called with, in the order of the calls; an error is written down as
    its text. *)
Definition trace := list value.

Definition example_promise (e : Executor) (ts : list (then_handler trace))
    (cs : list (catch_handler trace)) : Promise trace :=
  {| state := pending; executor := e; then_ := ts; catch := cs;
     result := VNil; error := None; mutex := false;
     wg := Z.of_nat (length ts + length cs);
     doneCounter := 0; isRejected := false |}.

Definition example_world (pr : Promise trace) (o : list bool) : World trace :=
  {| heap := [pr]; ready := [0%nat]; user := []; oracle := o |}.

Definition does (c : executor_call) : Executor :=
  {| calls := [c]; finish := returns |}.

(** func(data) { return New(e) } *)
Definition returns_New (e : Executor) : value -> trace -> returned * trace :=
  fun data u => (ret_New e, u ++ [data]).

(** func(data) { return data } *)
Definition passes_on : value -> trace -> value * trace :=
  fun data u => (data, u ++ [data]).

Definition returns_data : value -> trace -> returned * trace :=
  fun data u => (ret_value data, u ++ [data]).

(** func(data) { return data.(int) + k } *)
Definition add_int (k : Z) : value -> trace -> value * trace :=
  fun data u =>
    (match data with VInt n => VInt (n + k) | _ => VNil end, u ++ [data]).

Definition text_of (e : go_error) : value :=
  match e with Some err => VString (Error err) | None => VNil end.

(** func(err) { return e' } *)
Definition returns_error (e' : go_error) : go_error -> trace -> go_error * trace :=
  fun e u => (e', u ++ [text_of e]).

(** ** Relations between the world before and after a call *)

(** Every promise is still there, in the same state. *)
Definition keeps {U} (w w' : World U) : Prop :=
  forall x prx, heap w !! x = Some prx ->
    exists prx', heap w' !! x = Some prx' /\ state prx' = state prx.

(** Every promise is still there, in the same state unless it was
    pending. *)
Definition settles {U} (w w' : World U) : Prop :=
  forall x prx, heap w !! x = Some prx ->
    exists prx', heap w' !! x = Some prx'
                 /\ (state prx' = state prx \/ state prx = pending).

(** The world a call leaves, when it returns and when it blocks, is
    related to the world [w] it started from. *)
Definition leaves {U A} (R : World U -> World U -> Prop) (o : outcome U A)
    (w : World U) : Prop :=
  match o with
  | Done _ w' => R w w'
  | Blocks w' => R w w'
  | Crash _ => True
  | OutOfFuel => True
  end.

(** ** Callers *)

(** What a caller registers on a promise: promise.Then(h) or
    promise.Catch(h). *)
Inductive registration (U : Type) :=
| reg_Then (h : then_handler U)
| reg_Catch (h : catch_handler U).

Arguments reg_Then {U} h.
Arguments reg_Catch {U} h.

Definition register {U} (fuel : nat) (p : addr) (r : registration U) : M U addr :=
  match r with
  | reg_Then h => Then p h
  | reg_Catch h => Catch fuel p h
  end.

(** promise.Then(..).Catch(..). ... in the caller's goroutine: every call
    is made on the same promise, since Then and Catch return it, and the
    scheduler may run the goroutine of the promise before each of them. *)
Fixpoint register_all {U} (fuel : nat) (p : addr) (rs : list (registration U))
    : M U unit :=
  match rs with
  | [] => ret tt
  | r :: rest =>
      yield (run_goroutine fuel) p ;;;
      register fuel p r ;;;
      register_all fuel p rest
  end.

(** promise := New(e); promise.Then(..). ... ; promise.Await() *)
Definition New_register_Await {U} (fuel : nat) (e : Executor)
    (rs : list (registration U)) : M U addr :=
  p <- New e ;;
  register_all fuel p rs ;;;
  Await fuel p ;;;
  ret p.

(** The registrations of a user: a fulfillment handler that returns a
    value, or a rejection handler. *)
Inductive user_registration (U : Type) :=
| on_value (g : value -> U -> value * U)
| on_error (f : go_error -> U -> go_error * U).

Arguments on_value {U} g.
Arguments on_error {U} f.

Definition registration_of {U} (r : user_registration U) : registration U :=
  match r with
  | on_value g => reg_Then (plain_then g)
  | on_error f => reg_Catch (user_catch f)
  end.

Fixpoint value_handlers {U} (rs : list (user_registration U))
    : list (value -> U -> value * U) :=
  match rs with
  | [] => []
  | on_value g :: rest => g :: value_handlers rest
  | on_error _ :: rest => value_handlers rest
  end.

Fixpoint error_handlers {U} (rs : list (user_registration U))
    : list (go_error -> U -> go_error * U) :=
  match rs with
  | [] => []
  | on_value _ :: rest => error_handlers rest
  | on_error f :: rest => f :: error_handlers rest
  end.

(** The WaitGroup counter of a pending promise is the number of its
    registered handlers. *)
Definition counts_handlers {U} (pr : Promise U) : bool :=
  match state pr with
  | pending => wg pr =? Z.of_nat (length (then_ pr) + length (catch pr))
  | _ => true
  end.

Definition counted {U} (w : World U) : bool := forallb counts_handlers (heap w).

(** The promise [p] is pending and unlocked, its goroutine has not run,
    and the handlers [gs] and [fs] of the user are registered on it. *)
Definition waiting {U} (p : addr) (ex : Executor)
    (gs : list (value -> U -> value * U))
    (fs : list (go_error -> U -> go_error * U)) (u : U) (w : World U) : Prop :=
  exists pr, heap w !! p = Some pr /\ state pr = pending /\ mutex pr = false
    /\ executor pr = ex
    /\ then_ pr = map plain_then gs /\ catch pr = map user_catch fs
    /\ wg pr = Z.of_nat (length gs + length fs)
    /\ is_ready p w = true /\ user w = u.

(** The goroutine of [p] has run and left it fulfilled with [r], with no
    handler owed. *)
Definition fulfilled_with {U} (p : addr) (r : value) (u : U) (w : World U) : Prop :=
  exists pr, heap w !! p = Some pr /\ state pr = fulfilled /\ mutex pr = false
    /\ wg pr = 0 /\ result pr = r /\ is_ready p w = false /\ user w = u.

(** The goroutine of [p] has run and left it rejected with [e], with no
    handler owed. *)
Definition rejected_with {U} (p : addr) (e : go_error) (u : U) (w : World U) : Prop :=
  exists pr, heap w !! p = Some pr /\ state pr = rejected /\ mutex pr = false
    /\ wg pr = 0 /\ error pr = e /\ is_ready p w = false /\ user w = u.

(** func(data) { return p } for a promise [p] already made. *)
Definition returns_promise (p : addr) : value -> trace -> value * trace :=
  fun data u => (VPromise p, u ++ [data]).

(** A handler that returns no pointer to a promise, whatever it is given. *)
Definition never_promise {U} (g : value -> U -> value * U) : Prop :=
  forall v u, is_promise (g v u).1 = false.

(** An executor that calls resolve or reject and returns. *)
Definition settles_and_returns (ex : Executor) : Prop :=
  exists c cs, ex = {| calls := c :: cs; finish := returns |}.

(** The promise [p] is pending with at least one handler of the user
    registered, and its goroutine has yet to run an executor that
    settles it. *)
Definition owed {U} (p : addr) (w : World U) : Prop :=
  exists ex gs fs,
    waiting p ex gs fs (user w) w /\ settles_and_returns ex
    /\ Forall never_promise gs /\ (length gs + length fs)%nat <> 0%nat.

(** The goroutine of [p] has run; [p] is settled and unlocked, and no
    handler is owed. *)
Definition quiet {U} (p : addr) (w : World U) : Prop :=
  exists pr, heap w !! p = Some pr /\ state pr <> pending /\ mutex pr = false
    /\ wg pr = 0 /\ is_ready p w = false.

(** Two promises as New leaves them, each with one handler registered:
    the first is to be resolved with 1, the second rejected. *)
Definition two_promises : World trace :=
  {| heap := [example_promise (does (call_resolve (VInt 1)))
                [plain_then (add_int 1)] [];
              example_promise (does (call_reject (errors_New "very serious error")))
                [] [user_catch (returns_error None)]];
     ready := [0%nat; 1%nat]; user := []; oracle := [] |}.

(** What the flattening block leaves in the promise a handler returned
    when that promise is resolved: the value has gone to the outer promise
    and the result is nil. *)
Definition emptied {U} (q : addr) (w : World U) : Prop :=
  exists qr, heap w !! q = Some qr /\ state qr = fulfilled /\ result qr = VNil
    /\ error qr = None /\ mutex qr = false /\ wg qr = 0.

(** What it leaves when that promise is rejected: the error of the nested
    promise is what the rejection handlers of the outer promise made of
    it. *)
Definition charged {U} (q : addr) (e : go_error) (w : World U) : Prop :=
  exists qr, heap w !! q = Some qr /\ state qr = rejected /\ result qr = VNil
    /\ error qr = e /\ mutex qr = false /\ wg qr = 0.

(** An executor that never calls resolve or reject and does not panic. *)
Definition idle (ex : Executor) : bool :=
  match calls ex, finish ex with
  | [], returns | [], hangs => true
  | _, _ => false
  end.

(** An executor whose goroutine ends in reject(e): it calls reject(e)
    and returns, or it panics with a string before any call, and
    handlePanic makes an error of the string. *)
Definition rejects_with (ex : Executor) (e : go_error) : Prop :=
  (exists cs, ex = {| calls := call_reject e :: cs; finish := returns |})
  \/ (exists text, ex = {| calls := []; finish := panics (VString text) |}
                   /\ e = errors_New text).
(** * Facts *)

Section Basics.

Context {U : Type}.
Implicit Types (w : World U) (pr : Promise U) (p q : addr).

Lemma bind_Done {A B} (m : M U A) (k : A -> M U B) w a w' :
  m w = Done a w' -> bind m k w = k a w'.
Proof. intros H. unfold bind. now rewrite H. Qed.

Lemma step_deref {B} p pr (k : Promise U -> M U B) w :
  heap w !! p = Some pr -> bind (deref p) k w = k pr w.
Proof. intros H. unfold bind, deref. now rewrite H. Qed.

Lemma step_modify {B} p pr f (k : unit -> M U B) w :
  heap w !! p = Some pr -> bind (modify p f) k w = k tt (put p (f pr) w).
Proof. intros H. unfold bind, modify. now rewrite H. Qed.

Lemma step_Lock {B} p pr (k : unit -> M U B) w :
  heap w !! p = Some pr -> mutex pr = false ->
  bind (Lock p) k w = k tt (put p (set_mutex true pr) w).
Proof. intros H Hm. unfold bind, Lock. now rewrite H, Hm. Qed.

Lemma step_Unlock {B} p pr (k : unit -> M U B) w :
  heap w !! p = Some pr -> bind (Unlock p) k w = k tt (put p (set_mutex false pr) w).
Proof. apply step_modify. Qed.

Lemma Unlock_Some p pr w :
  heap w !! p = Some pr -> Unlock p w = Done tt (put p (set_mutex false pr) w).
Proof. intros H. unfold Unlock, modify. now rewrite H. Qed.

Lemma modify_Some p pr f w :
  heap w !! p = Some pr -> modify p f w = Done tt (put p (f pr) w).
Proof. intros H. unfold modify. now rewrite H. Qed.

Lemma step_wg_Add {B} p pr delta (k : unit -> M U B) w :
  heap w !! p = Some pr -> 0 <= wg pr + delta ->
  bind (wg_Add p delta) k w = k tt (put p (set_wg (wg pr + delta) pr) w).
Proof.
  intros H Hd. unfold wg_Add.
  unfold bind at 1. rewrite (step_deref _ _ _ _ H).
  destruct (Z.ltb_spec (wg pr + delta) 0) as [Hlt | _]; [lia |].
  now rewrite (modify_Some _ _ _ _ H).
Qed.

Lemma bind_assoc {A B C} (m : M U A) (k1 : A -> M U B) (k2 : B -> M U C) w :
  bind (bind m k1) k2 w = bind m (fun x => bind (k1 x) k2) w.
Proof. unfold bind. now destruct (m w). Qed.

Lemma bind_cong {A B} (m m' : M U A) (k : A -> M U B) w w' :
  m w = m' w' -> bind m k w = bind m' k w'.
Proof. intros H. unfold bind. now rewrite H. Qed.

Lemma Done_ex {A} (m : outcome U A) (a : A) (P : World U -> Prop) :
  match m with Done a' w' => a' = a /\ P w' | _ => False end ->
  exists w', m = Done a w' /\ P w'.
Proof. destruct m as [a' w' | | |]; try tauto. intros [-> H]. now exists w'. Qed.

Lemma step_ret {A B} (a : A) (k : A -> M U B) w : bind (ret a) k w = k a w.
Proof. reflexivity. Qed.

Lemma lookup_put p pr pr0 w :
  heap w !! p = Some pr0 -> heap (put p pr w) !! p = Some pr.
Proof.
  intros H. unfold put. cbn. apply list_lookup_insert_eq.
  eapply lookup_lt_Some, H.
Qed.

Lemma lookup_put_ne p q pr w : p <> q -> heap (put p pr w) !! q = heap w !! q.
Proof. intros H. unfold put. cbn. now apply list_lookup_insert_ne. Qed.

Lemma put_put p pr pr' w : put p pr' (put p pr w) = put p pr' w.
Proof. unfold put, set_heap. cbn. now rewrite list_insert_insert_eq. Qed.

Lemma put_id p pr w : heap w !! p = Some pr -> put p pr w = w.
Proof.
  intros H. destruct w as [h rd u o]. unfold put, set_heap. cbn in *.
  f_equal. now apply list_insert_id.
Qed.

Lemma set_mutex_idle pr x :
  mutex pr = false -> set_mutex false (set_mutex x pr) = pr.
Proof. destruct pr; cbn; intros ->; reflexivity. Qed.

End Basics.

Ltac lk :=
  cbn [heap set_user set_ready set_oracle];
  first [ eassumption
        | eapply lookup_put; lk
        | reflexivity ].

Ltac len :=
  repeat first [ rewrite length_insert | rewrite length_app ]; cbn [length];
  first [ lia | eapply lookup_lt_Some; eassumption ].

Ltac lkh :=
  cbn [heap ready user oracle put set_heap set_user set_ready set_oracle];
  repeat first [ rewrite list_lookup_insert_eq by len
               | rewrite list_lookup_insert_ne by lia
               | rewrite lookup_app_l by len ];
  first [ eassumption | reflexivity ].

(** To show that a call returns in a world with a property, run the call
    first and look at the world afterwards. *)
Ltac run_first :=
  match goal with
  | |- ex (fun w' => _ = Done ?a w' /\ @?P w') =>
      let Q := fresh "Q" in
      pose (Q := P); apply (Done_ex _ a Q)
  end.

Ltac norm := cbv beta; rewrite ?bind_assoc; cbv beta; rewrite ?put_put.

Section Settled.

Context {U : Type}.
Implicit Types (w : World U) (pr : Promise U) (p q : addr).

Lemma resolve_in_settled rg fuel p pr v w :
  heap w !! p = Some pr -> mutex pr = false -> state pr <> pending ->
  resolve_in rg fuel p v w = Done tt w.
Proof.
  intros H Hm Hs. unfold resolve_in.
  erewrite step_Lock by lk. erewrite step_deref by lk.
  cbn [state set_mutex].
  destruct (state pr) eqn:E; [congruence | |];
    cbn [is_pending negb]; erewrite Unlock_Some by lk; norm;
    rewrite set_mutex_idle by assumption; now rewrite put_id.
Qed.

Lemma reject_settled fuel p pr e w :
  heap w !! p = Some pr -> mutex pr = false -> state pr <> pending ->
  reject fuel p e w = Done tt w.
Proof.
  intros H Hm Hs. unfold reject.
  erewrite step_Lock by lk. erewrite step_deref by lk.
  cbn [state set_mutex].
  destruct (state pr) eqn:E; [congruence | |];
    cbn [is_pending negb]; erewrite Unlock_Some by lk; norm;
    rewrite set_mutex_idle by assumption; now rewrite put_id.
Qed.

End Settled.

Ltac fld :=
  cbn [state executor then_ catch result error mutex wg doneCounter isRejected
       set_state set_then set_catch set_result set_error set_mutex set_wg
       set_doneCounter set_isRejected length].

Lemma Promise_ext {U} (a b : Promise U) :
  state a = state b -> executor a = executor b -> then_ a = then_ b ->
  catch a = catch b -> result a = result b -> error a = error b ->
  mutex a = mutex b -> wg a = wg b -> doneCounter a = doneCounter b ->
  isRejected a = isRejected b -> a = b.
Proof. destruct a, b; cbn; intros; subst; reflexivity. Qed.

Ltac rec_eq :=
  apply Promise_ext; fld;
  first [ reflexivity | lia | congruence ].

Section Loops.

Context {U : Type}.
Implicit Types (w : World U) (pr : Promise U) (p q : addr).

Lemma put_eq p pr pr' w w' :
  pr = pr' -> heap w = heap w' -> ready w = ready w' -> user w = user w' ->
  oracle w = oracle w' -> put p pr w = put p pr' w'.
Proof.
  intros -> Hh Hr Hu Ho. unfold put, set_heap.
  now rewrite Hh, Hr, Hu, Ho.
Qed.

Lemma put_over p pr pr' u w :
  put p pr' (set_user u (put p pr w)) = put p pr' (set_user u w).
Proof. unfold put, set_heap, set_user. cbn. now rewrite list_insert_insert_eq. Qed.

Lemma set_user_id w : set_user (user w) w = w.
Proof. now destruct w. Qed.

Lemma wg_Done_times_spec n p pr w :
  heap w !! p = Some pr -> Z.of_nat n <= wg pr ->
  wg_Done_times n p w = Done tt (put p (set_wg (wg pr - Z.of_nat n) pr) w).
Proof.
  revert pr w. induction n as [| n IH]; intros pr w H Hn.
  - cbn [wg_Done_times]. unfold ret. f_equal.
    replace (set_wg (wg pr - Z.of_nat 0) pr) with pr.
    + symmetry. now apply put_id.
    + rec_eq.
  - cbn [wg_Done_times]. unfold wg_Done.
    rewrite (step_wg_Add _ pr) by (lk || lia).
    rewrite (IH (set_wg (wg pr + -1) pr)) by (lk || (fld; lia)).
    norm. f_equal. apply put_eq; try reflexivity.
    rec_eq.
Qed.

Lemma step_user_catch {B} fuel f e (k : go_error -> M U B) w :
  bind (invoke_catch fuel (user_catch f) e) k w
  = k (f e (user w)).1 (set_user (f e (user w)).2 w).
Proof.
  unfold bind. destruct fuel; cbn [invoke_catch]; now destruct (f e (user w)).
Qed.

Lemma pipeline_cons {A} (f : A -> U -> A * U) fs a u :
  pipeline (f :: fs) a u = pipeline fs (f a u).1 (f a u).2.
Proof. unfold pipeline. cbn [fold_left fst snd]. now destruct (f a u). Qed.

Lemma reject_loop_user fuel p fs : forall pr w,
  heap w !! p = Some pr -> Z.of_nat (length fs) <= wg pr ->
  reject_loop fuel p (map user_catch fs) w
  = Done tt (put p (set_wg (wg pr - Z.of_nat (length fs))
                      (set_error (pipeline fs (error pr) (user w)).1 pr))
               (set_user (pipeline fs (error pr) (user w)).2 w)).
Proof.
  induction fs as [| f fs IH]; intros pr w H Hn.
  - cbn [map reject_loop length]. unfold pipeline, ret.
    cbn [fold_left fst snd]. f_equal. rewrite set_user_id.
    replace (set_wg _ _) with pr by rec_eq.
    symmetry. now apply put_id.
  - cbn [map reject_loop length].
    erewrite step_deref by lk.
    rewrite step_user_catch, pipeline_cons.
    set (e1 := (f (error pr) (user w)).1).
    set (u1 := (f (error pr) (user w)).2).
    erewrite step_modify by lk.
    unfold wg_Done. cbn [length] in Hn.
    rewrite (step_wg_Add _ (set_error e1 pr)) by (lk || (fld; lia)).
    norm.
    rewrite (IH (set_wg (wg (set_error e1 pr) + -1) (set_error e1 pr)))
      by (lk || (fld; lia)).
    f_equal. cbn [error set_wg set_error user set_user put set_heap].
    rewrite put_over.
    apply put_eq; try reflexivity.
    rec_eq.
Qed.

Lemma reject_user fuel p pr fs e w :
  heap w !! p = Some pr -> mutex pr = false -> state pr = pending ->
  catch pr = map user_catch fs ->
  Z.of_nat (length (then_ pr)) + Z.of_nat (length fs) <= wg pr ->
  reject fuel p e w
  = Done tt
      (put p (set_state rejected
                (set_wg (wg pr - Z.of_nat (length (then_ pr)) - Z.of_nat (length fs))
                   (set_error (pipeline fs e (user w)).1 pr)))
         (set_user (pipeline fs e (user w)).2 w)).
Proof.
  intros H Hm Hs Hc Hn. unfold reject.
  erewrite step_Lock by lk. erewrite step_deref by lk.
  cbn [state set_mutex]. rewrite Hs. cbn [is_pending negb].
  unfold bind at 1.
  rewrite (wg_Done_times_spec _ _ (set_mutex true pr))
    by (lk || (fld; lia)).
  norm. erewrite step_modify by lk. norm.
  erewrite step_deref by lk.
  cbn [catch set_error set_wg set_mutex]. rewrite Hc.
  unfold bind at 1.
  match goal with
  | |- context [reject_loop _ _ _ (put _ ?r _)] =>
      rewrite (reject_loop_user _ _ _ r) by (lk || (fld; lia))
  end.
  cbn [error user put set_heap]. rewrite put_over.
  erewrite step_modify by lk. norm.
  erewrite Unlock_Some by lk. norm.
  f_equal. apply put_eq; try reflexivity.
  cbn [then_ wg]. rec_eq.
Qed.

Lemma step_plain_then {B} g data (k : value -> M U B) w :
  bind (invoke_then (plain_then g) data) k w
  = k (g data (user w)).1 (set_user (g data (user w)).2 w).
Proof.
  unfold bind, plain_then. cbn [invoke_then]. now destruct (g data (user w)).
Qed.

Lemma resolve_loop_plain rg fuel p gs rest : forall pr w,
  heap w !! p = Some pr ->
  stays_plain gs (result pr) (user w) = true ->
  Z.of_nat (length gs) <= wg pr ->
  resolve_loop rg fuel p (map plain_then gs ++ rest) w
  = resolve_loop rg fuel p rest
      (put p (set_doneCounter (doneCounter pr + Z.of_nat (length gs))
                (set_wg (wg pr - Z.of_nat (length gs))
                   (set_result (pipeline gs (result pr) (user w)).1 pr)))
         (set_user (pipeline gs (result pr) (user w)).2 w)).
Proof.
  induction gs as [| g gs IH]; intros pr w H Hplain Hn.
  - cbn [map app length]. unfold pipeline.
    cbn [fold_left fst snd]. rewrite set_user_id.
    replace (set_doneCounter _ _) with pr by rec_eq.
    now rewrite put_id.
  - cbn [map app resolve_loop length]. cbn [length] in Hn.
    erewrite step_deref by lk.
    rewrite step_plain_then, pipeline_cons.
    cbn [stays_plain] in Hplain. apply andb_true_iff in Hplain.
    destruct Hplain as [Hv Hplain]. apply negb_true_iff in Hv.
    set (v1 := (g (result pr) (user w)).1) in *.
    set (u1 := (g (result pr) (user w)).2) in *.
    erewrite step_modify by lk.
    erewrite step_deref by lk.
    cbn [result set_result].
    assert (Hstop : forall o (k : bool -> M U o) w',
      bind (match v1 with
            | VPromise thenPromise => flatten rg fuel p thenPromise
            | _ => ret false
            end) k w' = k false w').
    { intros o k w'. destruct v1; try reflexivity. discriminate Hv. }
    rewrite Hstop. clear Hstop.
    unfold wg_Done.
    rewrite (step_wg_Add _ (set_result v1 pr)) by (lk || (fld; lia)).
    norm. erewrite step_deref by lk.
    unfold bind at 1. erewrite modify_Some by lk. norm.
    cbn [doneCounter wg set_wg set_result].
    match goal with
    | |- resolve_loop _ _ _ _ (put _ ?r _) = _ =>
        rewrite (IH r) by
          (lk || (fld; lia) || (fld; exact Hplain))
    end.
    f_equal. cbn [result user put set_heap set_doneCounter set_wg set_result].
    rewrite put_over. apply put_eq; try reflexivity.
    rec_eq.
Qed.

Lemma resolve_in_plain rg fuel p pr gs v w :
  heap w !! p = Some pr -> mutex pr = false -> state pr = pending ->
  then_ pr = map plain_then gs ->
  stays_plain gs v (user w) = true ->
  Z.of_nat (length gs) + Z.of_nat (length (catch pr)) <= wg pr ->
  resolve_in rg fuel p v w
  = Done tt
      (put p (set_doneCounter (Z.of_nat (length gs))
                (set_wg (wg pr - Z.of_nat (length gs) - Z.of_nat (length (catch pr)))
                   (set_result (pipeline gs v (user w)).1
                      (set_state fulfilled pr))))
         (set_user (pipeline gs v (user w)).2 w)).
Proof.
  intros H Hm Hs Ht Hplain Hn. unfold resolve_in.
  erewrite step_Lock by lk. erewrite step_deref by lk.
  cbn [state set_mutex]. rewrite Hs. cbn [is_pending negb].
  erewrite step_modify by lk. norm.
  erewrite step_modify by lk. norm.
  erewrite step_modify by lk. norm.
  erewrite step_deref by lk.
  cbn [then_ set_doneCounter set_result set_state set_mutex]. rewrite Ht.
  unfold bind at 1.
  rewrite <- (app_nil_r (map plain_then gs)).
  match goal with
  | |- context [resolve_loop _ _ _ _ (put _ ?r _)] =>
      rewrite (resolve_loop_plain _ _ _ _ _ r) by (lk || assumption || (fld; lia))
  end.
  cbn [resolve_loop ret].
  cbn [result user put set_heap]. rewrite put_over.
  erewrite step_deref by lk.
  unfold bind at 1.
  match goal with
  | |- context [wg_Done_times _ _ (put _ ?r _)] =>
      rewrite (wg_Done_times_spec _ _ r) by (lk || (fld; lia))
  end.
  norm. erewrite Unlock_Some by lk. norm.
  f_equal. apply put_eq; try reflexivity.
  cbn [catch wg doneCounter]. rec_eq.
Qed.

End Loops.

Section Dispatch.

Context {U : Type}.
Implicit Types (w : World U) (pr : Promise U) (p q : addr).

Lemma Then_pending p pr h w :
  heap w !! p = Some pr -> mutex pr = false -> state pr = pending ->
  0 <= wg pr ->
  Then p h w
  = Done p (put p (set_then (then_ pr ++ [h]) (set_wg (wg pr + 1) pr)) w).
Proof.
  intros H Hm Hs Hn. unfold Then.
  erewrite step_Lock by lk. erewrite step_deref by lk.
  fld. rewrite Hs. rewrite !bind_assoc.
  rewrite (step_wg_Add _ (set_mutex true pr)) by (lk || (fld; lia)).
  norm. erewrite step_deref by lk.
  erewrite step_modify by lk. norm.
  erewrite step_Unlock by lk. norm.
  unfold ret. f_equal. apply put_eq; try reflexivity.
  fld. rec_eq.
Qed.

Lemma Then_rejected p pr h w :
  heap w !! p = Some pr -> mutex pr = false -> state pr = rejected ->
  Then p h w = Done p w.
Proof.
  intros H Hm Hs. unfold Then.
  erewrite step_Lock by lk. erewrite step_deref by lk.
  fld. rewrite Hs. rewrite step_ret.
  erewrite step_Unlock by lk. norm.
  unfold ret. f_equal.
  rewrite set_mutex_idle by assumption. now apply put_id.
Qed.

Lemma step_user_then_value {B} f data v u (k : value -> M U B) w :
  f data (user w) = (ret_value v, u) ->
  bind (invoke_then (user_then f) data) k w = k v (set_user u w).
Proof. intros Hf. unfold bind. cbn [invoke_then]. now rewrite Hf. Qed.

Lemma step_user_then_New {B} f data e u (k : value -> M U B) w :
  f data (user w) = (ret_New e, u) ->
  bind (invoke_then (user_then f) data) k w
  = k (VPromise (length (heap w)))
      (set_ready (ready w ++ [length (heap w)])
         (set_heap (heap w ++ [new_promise e]) (set_user u w))).
Proof. intros Hf. unfold bind. cbn [invoke_then]. now rewrite Hf. Qed.

Lemma Then_fulfilled_value p pr f v u w :
  heap w !! p = Some pr -> mutex pr = false -> state pr = fulfilled ->
  f (result pr) (user w) = (ret_value v, u) ->
  Then p (user_then f) w = Done p (put p (set_result v pr) (set_user u w)).
Proof.
  intros H Hm Hs Hf. unfold Then.
  erewrite step_Lock by lk. erewrite step_deref by lk.
  fld. rewrite Hs. norm.
  erewrite step_user_then_value by exact Hf.
  erewrite step_modify by lk.
  erewrite step_Unlock by lk.
  unfold ret. f_equal. rewrite put_put, put_over.
  apply put_eq; try reflexivity. rec_eq.
Qed.

Lemma Then_fulfilled_New p pr f e u w :
  heap w !! p = Some pr -> mutex pr = false -> state pr = fulfilled ->
  f (result pr) (user w) = (ret_New e, u) ->
  Then p (user_then f) w
  = Done p {| heap := <[p := set_result (VPromise (length (heap w))) pr]> (heap w)
                      ++ [new_promise e];
              ready := ready w ++ [length (heap w)];
              user := u;
              oracle := oracle w |}.
Proof.
  intros H Hm Hs Hf. unfold Then.
  pose proof (lookup_lt_Some _ _ _ H) as Hlt.
  erewrite step_Lock by lk. erewrite step_deref by lk.
  fld. rewrite Hs. norm.
  erewrite step_user_then_New by exact Hf.
  erewrite step_modify by lkh.
  erewrite step_Unlock by lkh.
  unfold ret. f_equal. unfold put, set_heap, set_ready, set_user.
  cbn [heap ready user oracle].
  rewrite length_insert, !list_insert_insert_eq.
  rewrite insert_app_l by len.
  rewrite !list_insert_insert_eq. do 3 f_equal. rec_eq.
Qed.

Lemma Catch_pending fuel p pr h w :
  heap w !! p = Some pr -> mutex pr = false -> state pr = pending ->
  0 <= wg pr ->
  Catch fuel p h w
  = Done p (put p (set_catch (catch pr ++ [h]) (set_wg (wg pr + 1) pr)) w).
Proof.
  intros H Hm Hs Hn. unfold Catch.
  erewrite step_Lock by lk. erewrite step_deref by lk.
  fld. rewrite Hs. rewrite !bind_assoc.
  rewrite (step_wg_Add _ (set_mutex true pr)) by (lk || (fld; lia)).
  norm. erewrite step_deref by lk.
  erewrite step_modify by lk. norm.
  erewrite step_Unlock by lk. norm.
  unfold ret. f_equal. apply put_eq; try reflexivity.
  fld. rec_eq.
Qed.

Lemma Catch_fulfilled fuel p pr h w :
  heap w !! p = Some pr -> mutex pr = false -> state pr = fulfilled ->
  Catch fuel p h w = Done p w.
Proof.
  intros H Hm Hs. unfold Catch.
  erewrite step_Lock by lk. erewrite step_deref by lk.
  fld. rewrite Hs. rewrite step_ret.
  erewrite step_Unlock by lk. norm.
  unfold ret. f_equal.
  rewrite set_mutex_idle by assumption. now apply put_id.
Qed.

Lemma Catch_rejected_user fuel p pr f w :
  heap w !! p = Some pr -> mutex pr = false -> state pr = rejected ->
  Catch fuel p (user_catch f) w
  = Done p (put p (set_error (f (error pr) (user w)).1 pr)
              (set_user (f (error pr) (user w)).2 w)).
Proof.
  intros H Hm Hs. unfold Catch.
  erewrite step_Lock by lk. erewrite step_deref by lk.
  fld. rewrite Hs. norm. rewrite step_user_catch.
  erewrite step_modify by lk.
  erewrite step_Unlock by lk.
  unfold ret. f_equal. rewrite put_put, put_over.
  apply put_eq; try reflexivity. rec_eq.
Qed.

End Dispatch.


Ltac neq := first [ assumption | apply not_eq_sym; assumption | lia ].

Ltac lk2 :=
  cbn [heap set_user set_ready set_oracle];
  first [ eassumption
        | eapply lookup_put; lk2
        | rewrite lookup_put_ne by neq; lk2
        | reflexivity ].

Lemma World_ext {U} (w w' : World U) :
  heap w = heap w' -> ready w = ready w' -> user w = user w' ->
  oracle w = oracle w' -> w = w'.
Proof. destruct w, w'; cbn; intros; subst; reflexivity. Qed.

Lemma insert_skip {A} (l : list A) (i j : nat) (a b c : A) :
  i <> j -> <[i := a]> (<[j := b]> (<[i := c]> l)) = <[i := a]> (<[j := b]> l).
Proof.
  intros Hne. rewrite (list_insert_insert_ne _ j i) by (now apply not_eq_sym).
  now rewrite list_insert_insert_eq.
Qed.

Lemma insert1_eq {A} (l : list A) (i : nat) (a a' : A) :
  a = a' -> <[i := a]> l = <[i := a']> l.
Proof. now intros ->. Qed.

Lemma insert2_eq {A} (l : list A) (i j : nat) (a a' b b' : A) :
  a = a' -> b = b' -> <[i := a]> (<[j := b]> l) = <[i := a']> (<[j := b']> l).
Proof. now intros -> ->. Qed.

Ltac heap_norm :=
  repeat first [ rewrite list_insert_insert_eq | rewrite insert_skip by neq ].

(** Two worlds built from the same world by updates of one or two
    promises are equal when the promises are. *)
Ltac weq :=
  apply World_ext;
  cbn [heap ready user oracle put set_heap set_user set_ready set_oracle];
  try reflexivity;
  heap_norm;
  first [ apply insert1_eq; rec_eq
        | apply insert2_eq; rec_eq
        | rewrite list_insert_insert_ne by neq; apply insert2_eq; rec_eq ].

Ltac side :=
  first [ lk2
        | cbn [state executor then_ catch result error mutex wg doneCounter
               isRejected set_state set_then set_catch set_result set_error
               set_mutex set_wg set_doneCounter set_isRejected length app
               new_promise];
          first [ assumption | reflexivity | lia ] ].

Ltac step1 :=
  norm; unfold wg_Done;
  first [ rewrite step_ret
        | erewrite step_wg_Add by side
        | erewrite step_deref by lk2
        | erewrite step_modify by lk2
        | erewrite step_Unlock by lk2
        | erewrite step_Lock by side
        | erewrite Unlock_Some by lk2
        | erewrite modify_Some by lk2 ];
  fld.

Section Closures.

Context {U : Type}.
Implicit Types (w : World U) (pr qr : Promise U) (p q : addr).

Lemma chain_loop_user n p fs : forall pr e w,
  heap w !! p = Some pr -> Z.of_nat (length fs) <= wg pr ->
  chain_loop (invoke_catch n) p (map user_catch fs) e w
  = Done (pipeline fs e (user w)).1
      (put p (set_wg (wg pr - Z.of_nat (length fs)) pr)
         (set_user (pipeline fs e (user w)).2 w)).
Proof.
  induction fs as [| f fs IH]; intros pr e w H Hn.
  - cbn [map chain_loop length]. unfold pipeline, ret.
    cbn [fold_left fst snd]. f_equal. rewrite set_user_id.
    replace (set_wg _ _) with pr by rec_eq.
    symmetry. now apply put_id.
  - cbn [map chain_loop length]. cbn [length] in Hn.
    rewrite step_user_catch, pipeline_cons.
    set (e1 := (f e (user w)).1).
    set (u1 := (f e (user w)).2).
    unfold wg_Done.
    rewrite (step_wg_Add _ pr) by (lk || (fld; lia)).
    rewrite (IH (set_wg (wg pr + -1) pr)) by (lk || (fld; lia)).
    f_equal. cbn [user put set_heap set_user].
    rewrite put_over. apply put_eq; try reflexivity.
    rec_eq.
Qed.

(** The second closure of [resolve], called with the error of the nested
    promise. *)
Lemma invoke_flatten_catch n p pr fs e w :
  heap w !! p = Some pr -> catch pr = map user_catch fs ->
  Z.of_nat (Z.to_nat (Z.of_nat (length (then_ pr)) - doneCounter pr))
    + Z.of_nat (length fs) <= wg pr ->
  invoke_catch (S n) (flatten_catch p) e w
  = Done (pipeline fs e (user w)).1
      (put p (set_wg (wg pr
                      - Z.of_nat (Z.to_nat (Z.of_nat (length (then_ pr)) - doneCounter pr))
                      - Z.of_nat (length fs))
                (set_isRejected true pr))
         (set_user (pipeline fs e (user w)).2 w)).
Proof.
  intros H Hc Hn. cbn [invoke_catch].
  erewrite step_modify by lk. erewrite step_deref by lk.
  fld.
  unfold bind at 1.
  rewrite (wg_Done_times_spec _ _ (set_isRejected true pr)) by (lk || (fld; lia)).
  norm. erewrite step_deref by lk. fld. rewrite Hc.
  match goal with
  | |- chain_loop _ _ _ _ (put _ ?r _) = _ =>
      rewrite (chain_loop_user _ _ _ r) by (lk || (fld; lia))
  end.
  f_equal. weq.
Qed.

Lemma Then_fulfilled_flatten p q pr qr w :
  p <> q -> heap w !! p = Some pr -> heap w !! q = Some qr ->
  mutex qr = false -> state qr = fulfilled ->
  Then q (flatten_then p) w
  = Done q (put q (set_result VNil qr) (put p (set_result (result qr) pr) w)).
Proof.
  intros Hne Hp Hq Hm Hs. unfold Then.
  erewrite step_Lock by lk2. erewrite step_deref by lk2.
  fld. rewrite Hs. cbv iota. cbn [invoke_then]. norm.
  erewrite step_modify by lk2. rewrite step_ret.
  erewrite step_modify by lk2.
  erewrite step_Unlock by lk2.
  unfold ret. f_equal. weq.
Qed.

Lemma Catch_rejected_flatten n p q pr qr fs w :
  p <> q -> heap w !! p = Some pr -> heap w !! q = Some qr ->
  mutex qr = false -> state qr = rejected ->
  catch pr = map user_catch fs ->
  Z.of_nat (Z.to_nat (Z.of_nat (length (then_ pr)) - doneCounter pr))
    + Z.of_nat (length fs) <= wg pr ->
  Catch (S n) q (flatten_catch p) w
  = Done q
      (put q (set_error (pipeline fs (error qr) (user w)).1 qr)
         (put p (set_wg (wg pr
                         - Z.of_nat (Z.to_nat (Z.of_nat (length (then_ pr)) - doneCounter pr))
                         - Z.of_nat (length fs))
                   (set_isRejected true pr))
            (set_user (pipeline fs (error qr) (user w)).2 w))).
Proof.
  intros Hne Hp Hq Hm Hs Hc Hn. unfold Catch.
  erewrite step_Lock by lk2. erewrite step_deref by lk2.
  fld. rewrite Hs. cbv iota. norm.
  erewrite bind_Done
    by (apply (invoke_flatten_catch _ _ pr fs); (lk2 || assumption)).
  cbn [user put set_heap].
  erewrite step_modify by lk2.
  erewrite step_Unlock by lk2.
  unfold ret. f_equal. weq.
Qed.

(** [resolve] on a promise whose only fulfillment handler is the first
    closure built by the [resolve] of [p]. *)
Lemma resolve_in_continuation rg fuel p q pr qr v w :
  p <> q -> heap w !! p = Some pr -> heap w !! q = Some qr ->
  mutex qr = false -> state qr = pending ->
  then_ qr = [flatten_then p] ->
  1 + Z.of_nat (length (catch qr)) <= wg qr ->
  resolve_in rg fuel q v w
  = Done tt
      (put q (set_doneCounter 1
                (set_wg (wg qr - 1 - Z.of_nat (length (catch qr)))
                   (set_result VNil (set_state fulfilled qr))))
         (put p (set_result v pr) w)).
Proof.
  intros Hne Hp Hq Hm Hs Ht Hn. unfold resolve_in.
  do 2 step1. rewrite Hs. cbn [is_pending negb].
  do 4 step1. rewrite Ht. cbn [resolve_loop invoke_then].
  repeat step1.
  erewrite bind_Done
    by (apply wg_Done_times_spec; [lk2 | fld; lia]).
  step1.
  f_equal. weq.
Qed.

(** [reject] on a promise whose only rejection handler is the second
    closure built by the [resolve] of [p]. *)
Lemma reject_continuation n p q pr qr fs e w :
  p <> q -> heap w !! p = Some pr -> heap w !! q = Some qr ->
  mutex qr = false -> state qr = pending ->
  catch qr = [flatten_catch p] ->
  Z.of_nat (length (then_ qr)) + 1 <= wg qr ->
  catch pr = map user_catch fs ->
  Z.of_nat (Z.to_nat (Z.of_nat (length (then_ pr)) - doneCounter pr))
    + Z.of_nat (length fs) <= wg pr ->
  reject (S n) q e w
  = Done tt
      (put q (set_state rejected
                (set_wg (wg qr - Z.of_nat (length (then_ qr)) - 1)
                   (set_error (pipeline fs e (user w)).1 qr)))
         (put p (set_wg (wg pr
                         - Z.of_nat (Z.to_nat (Z.of_nat (length (then_ pr)) - doneCounter pr))
                         - Z.of_nat (length fs))
                   (set_isRejected true pr))
            (set_user (pipeline fs e (user w)).2 w))).
Proof.
  intros Hne Hp Hq Hm Hs Hcq Hnq Hc Hn. unfold reject.
  do 2 step1. rewrite Hs. cbn [is_pending negb].
  erewrite bind_Done
    by (apply wg_Done_times_spec; [lk2 | fld; lia]).
  do 2 step1. rewrite Hcq. cbn [reject_loop].
  step1. norm.
  erewrite bind_Done
    by (apply (invoke_flatten_catch _ _ pr fs); (lk2 || assumption)).
  cbn [user put set_heap].
  repeat step1.
  f_equal. weq.
Qed.

End Closures.


Ltac fldn :=
  cbn [state executor then_ catch result error mutex wg doneCounter isRejected
       set_state set_then set_catch set_result set_error set_mutex set_wg
       set_doneCounter set_isRejected length app new_promise].

Section Scheduling.

Context {U : Type}.
Implicit Types (w : World U) (pr qr : Promise U) (p q : addr).

Lemma not_ready_after q (r : list addr) :
  existsb (Nat.eqb q) (List.filter (fun a => negb (Nat.eqb q a)) r) = false.
Proof.
  induction r as [| a r IH]; [reflexivity |].
  cbn [List.filter]. destruct (Nat.eqb q a) eqn:E; cbn [negb]; [exact IH |].
  cbn [existsb]. now rewrite E, IH.
Qed.

Lemma yield_cases rg q w :
  (exists o, oracle w = true :: o /\ is_ready q w = true
             /\ yield rg q w = in_background (rg q) (set_oracle o w))
  \/ (exists o, yield rg q w = Done tt (set_oracle o w)).
Proof.
  unfold yield. destruct (oracle w) as [| [|] o] eqn:E.
  - right. exists []. destruct w; cbn in *. now subst.
  - destruct (is_ready q w) eqn:R.
    + left. now exists o.
    + right. now exists o.
  - right. now exists o.
Qed.

Lemma yield_not_ready rg q w :
  is_ready q w = false -> exists o, yield rg q w = Done tt (set_oracle o w).
Proof.
  intros R. destruct (yield_cases rg q w) as [(o & _ & R' & _) | H]; [congruence | exact H].
Qed.

Lemma run_goroutine_S n q qr w :
  heap w !! q = Some qr ->
  run_goroutine (S n) q w
  = (run_calls (run_goroutine n) n q (calls (executor qr)) ;;;
     match finish (executor qr) with
     | returns => handlePanic n q VNil
     | panics r => handlePanic n q r
     | hangs => block
     end)
      (set_ready (List.filter (fun a => negb (Nat.eqb q a)) (ready w)) w).
Proof.
  intros H. cbn [run_goroutine]. unfold goroutine.
  unfold bind at 1. unfold unready.
  now erewrite step_deref by lk2.
Qed.

End Scheduling.

Ltac rdy :=
  unfold is_ready;
  cbn [ready put set_heap set_user set_ready set_oracle];
  first [ assumption | apply not_ready_after ].

Ltac wsimp :=
  cbn [pipeline fold_left fst snd user ready oracle put set_heap set_user
       set_ready set_oracle].

Ltac rec_eq2 :=
  apply Promise_ext; fldn; wsimp; fldn;
  first [ reflexivity | lia | congruence ].

Ltac lkeq := etransitivity; [ lk2 | f_equal; rec_eq2 ].

Ltac skip_yield :=
  match goal with
  | |- context [bind (yield ?rg ?q) _ ?W] =>
      let o := fresh "o" in
      let Hy := fresh "Hy" in
      destruct (yield_not_ready rg q W) as [o Hy];
      [ rdy | rewrite (bind_Done _ _ _ _ _ Hy); clear Hy ]
  end.

Section Flatten.

Context {U : Type}.
Implicit Types (w : World U) (pr qr : Promise U) (p q : addr).

Lemma run_calls_settled rg n q qr cs w :
  heap w !! q = Some qr -> mutex qr = false -> state qr <> pending ->
  run_calls rg n q cs w = Done tt w.
Proof.
  intros H Hm Hs. induction cs as [| c cs IH]; [reflexivity |].
  cbn [run_calls]. unfold bind.
  destruct c as [v | e]; cbn [run_call].
  - now rewrite (resolve_in_settled _ _ _ _ _ _ H Hm Hs).
  - now rewrite (reject_settled _ _ _ _ _ H Hm Hs).
Qed.

Lemma in_background_Done (m : M U unit) w w' :
  m w = Done tt w' -> in_background m w = Done tt w'.
Proof. intros H. unfold in_background. now rewrite H. Qed.

(** The goroutine of a promise whose executor first calls resolve. *)
Lemma goroutine_resolves n q qr v cs w w' qr' :
  heap w !! q = Some qr ->
  executor qr = {| calls := call_resolve v :: cs; finish := returns |} ->
  resolve_in (run_goroutine n) n q v
    (set_ready (List.filter (fun a => negb (Nat.eqb q a)) (ready w)) w) = Done tt w' ->
  heap w' !! q = Some qr' -> mutex qr' = false -> state qr' <> pending ->
  run_goroutine (S n) q w = Done tt w'.
Proof.
  intros H He Hr Hq' Hm' Hs'.
  rewrite (run_goroutine_S _ _ _ _ H), He. cbn [calls finish run_calls run_call].
  rewrite bind_assoc. rewrite (bind_Done _ _ _ _ _ Hr).
  rewrite (bind_Done _ _ _ _ _ (run_calls_settled _ _ _ _ cs _ Hq' Hm' Hs')).
  reflexivity.
Qed.

Lemma goroutine_continuation n p q pr qr v cs w :
  p <> q -> heap w !! p = Some pr -> heap w !! q = Some qr ->
  mutex qr = false -> state qr = pending ->
  executor qr = {| calls := call_resolve v :: cs; finish := returns |} ->
  then_ qr = [flatten_then p] ->
  1 + Z.of_nat (length (catch qr)) <= wg qr ->
  run_goroutine (S n) q w
  = Done tt
      (put q (set_doneCounter 1
                (set_wg (wg qr - 1 - Z.of_nat (length (catch qr)))
                   (set_result VNil (set_state fulfilled qr))))
         (put p (set_result v pr)
            (set_ready (List.filter (fun a => negb (Nat.eqb q a)) (ready w)) w))).
Proof.
  intros Hne Hp Hq Hm Hs He Ht Hn.
  eapply (goroutine_resolves n q qr v cs); [exact Hq | exact He | | | |].
  - now apply resolve_in_continuation.
  - lk2.
  - exact Hm.
  - discriminate.
Qed.

Lemma Await_in_zero rg q qr w :
  heap w !! q = Some qr -> wg qr = 0 -> Await_in rg q w = Done tt w.
Proof.
  intros H Hz. unfold Await_in. rewrite (step_deref _ _ _ _ H), Hz.
  reflexivity.
Qed.

Lemma Await_in_runs rg q qr qr' w w' :
  heap w !! q = Some qr -> wg qr <> 0 -> is_ready q w = true ->
  rg q w = Done tt w' -> heap w' !! q = Some qr' -> wg qr' = 0 ->
  Await_in rg q w = Done tt w'.
Proof.
  intros H Hz Hr Hg H' Hz'. unfold Await_in. rewrite (step_deref _ _ _ _ H).
  destruct (Z.eqb_spec (wg qr) 0) as [E | _]; [contradiction |].
  rewrite Hr. rewrite (bind_Done _ _ _ _ _ (in_background_Done _ _ _ Hg)).
  rewrite (step_deref _ _ _ _ H'), Hz'. reflexivity.
Qed.

Lemma flatten_resolved n fuel p q pr v cs w :
  p <> q -> heap w !! p = Some pr ->
  heap w !! q
  = Some (new_promise {| calls := call_resolve v :: cs; finish := returns |}) ->
  is_ready q w = true ->
  exists w',
    flatten (run_goroutine (S n)) fuel p q w = Done false w'
    /\ heap w' !! p = Some (set_result v (set_isRejected false pr))
    /\ user w' = user w.
Proof.
  intros Hne Hp Hq Hr. unfold flatten.
  set (e := {| calls := call_resolve v :: cs; finish := returns |}) in *.
  step1.
  destruct (yield_cases (run_goroutine (S n)) q (put p (set_isRejected false pr) w))
    as [(o & Ho & _ & Hy) | (o & Hy)].
  - (* the goroutine runs before Then *)
    eassert (Hg : run_goroutine (S n) q
                    (set_oracle o (put p (set_isRejected false pr) w)) = Done tt _).
    { eapply (goroutine_resolves n q (new_promise e) v cs).
      - lk2.
      - reflexivity.
      - apply (resolve_in_plain _ _ _ (new_promise e) []).
        + lk2.
        + reflexivity.
        + reflexivity.
        + reflexivity.
        + reflexivity.
        + fldn. lia.
      - lk2.
      - reflexivity.
      - discriminate. }
    erewrite bind_Done by (rewrite Hy; apply in_background_Done, Hg).
    clear Hy Hg.
    erewrite bind_Done by (eapply Then_fulfilled_flatten; side).
    skip_yield.
    erewrite bind_Done by (eapply Catch_fulfilled; side).
    erewrite bind_Done by (eapply Await_in_zero; [lk2 | fldn; lia]).
    repeat step1.
    unfold ret. eexists. split; [reflexivity |]. split.
    + lkeq.
    + wsimp. reflexivity.
  - (* Then takes the lock first *)
    rewrite (bind_Done _ _ _ _ _ Hy). clear Hy.
    erewrite bind_Done by (eapply Then_pending; side).
    match goal with
    | |- context [bind (yield ?rg ?q) _ ?W] =>
        destruct (yield_cases rg q W) as [(o' & Ho' & _ & Hy) | (o' & Hy)]
    end.
    + (* the goroutine runs between Then and Catch *)
      match type of Hy with
      | _ = in_background _ ?W =>
          eassert (Hg : run_goroutine (S n) q W = Done tt _)
            by (eapply (goroutine_continuation n p q _ _ v cs); side)
      end.
      erewrite bind_Done by (rewrite Hy; apply in_background_Done, Hg).
      clear Hy Hg.
      erewrite bind_Done by (eapply Catch_fulfilled; side).
      erewrite bind_Done by (eapply Await_in_zero; [lk2 | fldn; lia]).
      repeat step1.
      unfold ret. eexists. split; [reflexivity |]. split.
      * lkeq.
      * wsimp. reflexivity.
    + (* the goroutine runs while resolve waits in Await *)
      rewrite (bind_Done _ _ _ _ _ Hy). clear Hy.
      erewrite bind_Done by (eapply Catch_pending; side).
      match goal with
      | |- context [bind (Await_in ?rg ?q) _ ?W] =>
          eassert (Hg : rg q W = Done tt _)
            by (eapply (goroutine_continuation n p q _ _ v cs); side)
      end.
      erewrite bind_Done
        by (eapply Await_in_runs; [lk2 | fldn; lia | rdy | exact Hg | lk2 | fldn; lia]).
      clear Hg. repeat step1.
      unfold ret. eexists. split; [reflexivity |]. split.
      * lkeq.
      * wsimp. reflexivity.
Qed.

(** The goroutine of a promise whose executor first calls reject. *)
Lemma goroutine_rejects n q qr err cs w w' qr' :
  heap w !! q = Some qr ->
  executor qr = {| calls := call_reject err :: cs; finish := returns |} ->
  reject n q err
    (set_ready (List.filter (fun a => negb (Nat.eqb q a)) (ready w)) w) = Done tt w' ->
  heap w' !! q = Some qr' -> mutex qr' = false -> state qr' <> pending ->
  run_goroutine (S n) q w = Done tt w'.
Proof.
  intros H He Hr Hq' Hm' Hs'.
  rewrite (run_goroutine_S _ _ _ _ H), He. cbn [calls finish run_calls run_call].
  rewrite bind_assoc. rewrite (bind_Done _ _ _ _ _ Hr).
  rewrite (bind_Done _ _ _ _ _ (run_calls_settled _ _ _ _ cs _ Hq' Hm' Hs')).
  reflexivity.
Qed.

Lemma flatten_rejected n fuel p q pr fs err cs w :
  p <> q -> heap w !! p = Some pr ->
  heap w !! q
  = Some (new_promise {| calls := call_reject err :: cs; finish := returns |}) ->
  is_ready q w = true ->
  catch pr = map user_catch fs ->
  Z.of_nat (Z.to_nat (Z.of_nat (length (then_ pr)) - doneCounter pr))
    + Z.of_nat (length fs) <= wg pr ->
  exists w',
    flatten (run_goroutine (S (S n))) (S fuel) p q w = Done true w'
    /\ heap w' !! p
       = Some (set_wg (wg pr
                       - Z.of_nat (Z.to_nat (Z.of_nat (length (then_ pr)) - doneCounter pr))
                       - Z.of_nat (length fs))
                 (set_isRejected true pr))
    /\ user w' = (pipeline fs err (user w)).2.
Proof.
  intros Hne Hp Hq Hr Hc Hn. unfold flatten.
  set (e := {| calls := call_reject err :: cs; finish := returns |}) in *.
  step1.
  destruct (yield_cases (run_goroutine (S (S n))) q (put p (set_isRejected false pr) w))
    as [(o & Ho & _ & Hy) | (o & Hy)].
  - (* the goroutine runs before Then *)
    match type of Hy with
    | _ = in_background _ ?W =>
        eassert (Hg : run_goroutine (S (S n)) q W = Done tt _)
    end.
    { eapply (goroutine_rejects (S n) q (new_promise e) err cs).
      - lk2.
      - reflexivity.
      - apply (reject_user _ _ (new_promise e) []).
        + lk2.
        + reflexivity.
        + reflexivity.
        + reflexivity.
        + fldn. lia.
      - lk2.
      - reflexivity.
      - discriminate. }
    erewrite bind_Done by (rewrite Hy; apply in_background_Done, Hg).
    clear Hy Hg.
    erewrite bind_Done by (eapply Then_rejected; side).
    skip_yield.
    erewrite bind_Done by (eapply (Catch_rejected_flatten _ p q _ _ fs); side).
    erewrite bind_Done by (eapply Await_in_zero; [lk2 | fldn; lia]).
    repeat step1.
    unfold ret. eexists. split; [reflexivity |]. split.
    + lkeq.
    + wsimp. fldn. wsimp. reflexivity.
  - (* Then takes the lock first *)
    rewrite (bind_Done _ _ _ _ _ Hy). clear Hy.
    erewrite bind_Done by (eapply Then_pending; side).
    match goal with
    | |- context [bind (yield ?rg ?q) _ ?W] =>
        destruct (yield_cases rg q W) as [(o' & Ho' & _ & Hy) | (o' & Hy)]
    end.
    + (* the goroutine runs between Then and Catch *)
      match type of Hy with
      | _ = in_background _ ?W =>
          eassert (Hg : run_goroutine (S (S n)) q W = Done tt _)
      end.
      { eapply (goroutine_rejects (S n) q _ err cs).
        - lk2.
        - reflexivity.
        - eapply (reject_user _ _ _ []).
          + lk2.
          + reflexivity.
          + reflexivity.
          + reflexivity.
          + fldn. lia.
        - lk2.
        - reflexivity.
        - discriminate. }
      erewrite bind_Done by (rewrite Hy; apply in_background_Done, Hg).
      clear Hy Hg.
      erewrite bind_Done by (eapply (Catch_rejected_flatten _ p q _ _ fs); side).
      erewrite bind_Done by (eapply Await_in_zero; [lk2 | fldn; lia]).
      repeat step1.
      unfold ret. eexists. split; [reflexivity |]. split.
      * lkeq.
      * wsimp. fldn. wsimp. reflexivity.
    + (* the goroutine runs while resolve waits in Await *)
      rewrite (bind_Done _ _ _ _ _ Hy). clear Hy.
      erewrite bind_Done by (eapply Catch_pending; side).
      match goal with
      | |- context [bind (Await_in ?rg ?q) _ ?W] =>
          eassert (Hg : rg q W = Done tt _)
      end.
      { eapply (goroutine_rejects (S n) q _ err cs).
        - lk2.
        - reflexivity.
        - eapply (reject_continuation _ p q _ _ fs); side.
        - lk2.
        - reflexivity.
        - discriminate. }
      erewrite bind_Done
        by (eapply Await_in_runs; [lk2 | fldn; lia | rdy | exact Hg | lk2 | fldn; lia]).
      clear Hg. repeat step1.
      unfold ret. eexists. split; [reflexivity |]. split.
      * lkeq.
      * wsimp. reflexivity.
Qed.

End Flatten.

Section Spawn.

Context {U : Type}.
Implicit Types (w : World U) (pr qr : Promise U) (p q : addr).

(** The world after a handler called New: the promise is at the end of
    the heap and its goroutine is ready. *)
Lemma after_New p pr e u w :
  heap w !! p = Some pr ->
  let w0 := set_ready (ready w ++ [length (heap w)])
              (set_heap (heap w ++ [new_promise e]) (set_user u w)) in
  p <> length (heap w)
  /\ heap w0 !! p = Some pr
  /\ heap w0 !! length (heap w) = Some (new_promise e)
  /\ is_ready (length (heap w)) w0 = true
  /\ user w0 = u.
Proof.
  intros H w0. pose proof (lookup_lt_Some _ _ _ H) as Hlt.
  split; [lia |]. split; [| split; [| split]].
  - unfold w0. cbn [heap set_ready set_heap]. now rewrite lookup_app_l.
  - unfold w0. cbn [heap set_ready set_heap]. now apply list_lookup_middle.
  - unfold w0, is_ready. cbn [ready set_ready].
    rewrite existsb_app. cbn [existsb]. rewrite Nat.eqb_refl.
    now rewrite orb_true_r.
  - reflexivity.
Qed.

Lemma resolve_loop_spawn_resolved n fuel p pr f u v cs rest w :
  heap w !! p = Some pr ->
  f (result pr) (user w)
  = (ret_New {| calls := call_resolve v :: cs; finish := returns |}, u) ->
  1 <= wg pr ->
  exists w',
    resolve_loop (run_goroutine (S n)) fuel p (user_then f :: rest) w
    = resolve_loop (run_goroutine (S n)) fuel p rest w'
    /\ heap w' !! p
       = Some (set_doneCounter (doneCounter pr + 1)
                 (set_wg (wg pr - 1)
                    (set_result v (set_isRejected false pr))))
    /\ user w' = u.
Proof.
  intros Hp Hf Hn. cbn [resolve_loop].
  step1. erewrite step_user_then_New by exact Hf.
  destruct (after_New p pr
              {| calls := call_resolve v :: cs; finish := returns |} u w Hp)
    as (Hne & Hp0 & Hq0 & Hr0 & Hu0).
  cbv zeta in Hp0, Hq0, Hr0, Hu0.
  set (q := length (heap w)) in *.
  set (w0 := set_ready _ _) in *. clearbody w0.
  do 2 step1.
  destruct (flatten_resolved n fuel p q (set_result (VPromise q) pr) v cs
              (put p (set_result (VPromise q) pr) w0))
    as (w1 & Hfl & Hp1 & Hu1); [exact Hne | lk2 | lk2 | rdy |].
  rewrite (bind_Done _ _ _ _ _ Hfl). cbv iota.
  repeat step1.
  eexists. split; [reflexivity |]. split.
  - lkeq.
  - wsimp. rewrite Hu1. wsimp. exact Hu0.
Qed.

Lemma resolve_loop_spawn_rejected n fuel p pr f u err cs rest fs w :
  heap w !! p = Some pr ->
  f (result pr) (user w)
  = (ret_New {| calls := call_reject err :: cs; finish := returns |}, u) ->
  catch pr = map user_catch fs ->
  Z.of_nat (Z.to_nat (Z.of_nat (length (then_ pr)) - doneCounter pr))
    + Z.of_nat (length fs) <= wg pr ->
  exists w',
    resolve_loop (run_goroutine (S (S n))) (S fuel) p (user_then f :: rest) w
    = Done true w'
    /\ heap w' !! p
       = Some (set_wg (wg pr
                       - Z.of_nat (Z.to_nat (Z.of_nat (length (then_ pr)) - doneCounter pr))
                       - Z.of_nat (length fs))
                 (set_isRejected true
                    (set_result (VPromise (length (heap w))) pr)))
    /\ user w' = (pipeline fs err u).2.
Proof.
  intros Hp Hf Hc Hn. cbn [resolve_loop].
  step1. erewrite step_user_then_New by exact Hf.
  destruct (after_New p pr
              {| calls := call_reject err :: cs; finish := returns |} u w Hp)
    as (Hne & Hp0 & Hq0 & Hr0 & Hu0).
  cbv zeta in Hp0, Hq0, Hr0, Hu0.
  set (q := length (heap w)) in *.
  set (w0 := set_ready _ _) in *. clearbody w0.
  do 2 step1.
  destruct (flatten_rejected n fuel p q (set_result (VPromise q) pr) fs err cs
              (put p (set_result (VPromise q) pr) w0))
    as (w1 & Hfl & Hp1 & Hu1); [exact Hne | lk2 | lk2 | rdy | exact Hc | exact Hn |].
  rewrite (bind_Done _ _ _ _ _ Hfl). cbv iota.
  unfold ret. eexists. split; [reflexivity |]. split.
  - etransitivity; [exact Hp1 | f_equal; rec_eq2].
  - rewrite Hu1. wsimp. now rewrite Hu0.
Qed.

(** [resolve] when one handler returns a new promise whose executor
    resolves it: the handlers registered after it go on from the value
    of the nested promise. *)
Lemma resolve_flatten_resolved n p pr pre f post u v v' cs w :
  heap w !! p = Some pr -> mutex pr = false -> state pr = pending ->
  then_ pr = map plain_then pre ++ user_then f :: map plain_then post ->
  stays_plain pre v (user w) = true ->
  stays_plain post v' u = true ->
  f (pipeline pre v (user w)).1 (pipeline pre v (user w)).2
  = (ret_New {| calls := call_resolve v' :: cs; finish := returns |}, u) ->
  Z.of_nat (length (then_ pr)) + Z.of_nat (length (catch pr)) <= wg pr ->
  exists w',
    resolve (S n) p v w = Done tt w'
    /\ heap w' !! p
       = Some (set_isRejected false
                 (set_doneCounter (Z.of_nat (length (then_ pr)))
                    (set_wg (wg pr - Z.of_nat (length (then_ pr))
                             - Z.of_nat (length (catch pr)))
                       (set_result (pipeline post v' u).1
                          (set_state fulfilled pr)))))
    /\ user w' = (pipeline post v' u).2.
Proof.
  intros Hp Hm Hs Ht Hpre Hpost Hf Hn.
  assert (Hlen : length (then_ pr) = (length pre + S (length post))%nat).
  { rewrite Ht, length_app. cbn [length]. now rewrite !length_map. }
  run_first.
  unfold resolve, resolve_in.
  do 2 step1. rewrite Hs. cbn [is_pending negb].
  do 4 step1. rewrite Ht.
  norm.
  erewrite bind_cong
    by (apply resolve_loop_plain; first [lk2 | exact Hpre | fld; lia]).
  fld. wsimp.
  match goal with
  | |- context [bind (resolve_loop _ _ _ _) _ (put p ?r ?W)] =>
      destruct (resolve_loop_spawn_resolved n (S n) p r f u v' cs
                  (map plain_then post) (put p r W))
        as (w1 & Hl & Hp1 & Hu1);
      [ lk2 | fld; wsimp; exact Hf | fld; lia | ]
  end.
  rewrite (bind_cong _ _ _ _ _ Hl). clear Hl.
  rewrite <- (app_nil_r (map plain_then post)).
  erewrite bind_cong
    by (apply resolve_loop_plain;
        first [exact Hp1 | fld; rewrite Hu1; exact Hpost | fld; lia]).
  cbn [resolve_loop]. step1.
  step1.
  erewrite bind_Done by (apply wg_Done_times_spec; [lk2 | fld; lia]).
  step1. subst Q. cbv beta.
  split; [reflexivity |]. split.
  - etransitivity; [lk2 | f_equal]. rewrite Hu1.
    apply Promise_ext; fld; first [ reflexivity | lia | congruence ].
  - wsimp. now rewrite Hu1.
Qed.

(** [resolve] when one handler returns a new promise whose executor
    rejects it: the handlers registered after it are not called, the
    rejection handlers are, and the promise stays fulfilled. *)
Lemma resolve_flatten_rejected n p pr pre f post fs u v err cs w :
  heap w !! p = Some pr -> mutex pr = false -> state pr = pending ->
  then_ pr = map plain_then pre ++ user_then f :: post ->
  catch pr = map user_catch fs ->
  stays_plain pre v (user w) = true ->
  f (pipeline pre v (user w)).1 (pipeline pre v (user w)).2
  = (ret_New {| calls := call_reject err :: cs; finish := returns |}, u) ->
  Z.of_nat (length (then_ pr)) + Z.of_nat (length fs) <= wg pr ->
  exists w',
    resolve (S (S n)) p v w = Done tt w'
    /\ heap w' !! p
       = Some (set_isRejected true
                 (set_doneCounter (Z.of_nat (length pre))
                    (set_wg (wg pr - Z.of_nat (length (then_ pr))
                             - Z.of_nat (length fs))
                       (set_result (VPromise (length (heap w)))
                          (set_state fulfilled pr)))))
    /\ user w' = (pipeline fs err u).2.
Proof.
  intros Hp Hm Hs Ht Hc Hpre Hf Hn.
  assert (Hlen : length (then_ pr) = (length pre + S (length post))%nat).
  { rewrite Ht, length_app. cbn [length]. now rewrite !length_map. }
  run_first.
  unfold resolve, resolve_in.
  do 2 step1. rewrite Hs. cbn [is_pending negb].
  do 4 step1. rewrite Ht.
  norm.
  erewrite bind_cong
    by (apply resolve_loop_plain; first [lk2 | exact Hpre | fld; lia]).
  fld. wsimp.
  match goal with
  | |- context [bind (resolve_loop _ _ _ _) _ (put p ?r ?W)] =>
      destruct (resolve_loop_spawn_rejected n (S n) p r f u err cs post fs
                  (put p r W))
        as (w1 & Hl & Hp1 & Hu1);
      [ lk2 | fld; wsimp; exact Hf | fld; exact Hc | fld; lia | ]
  end.
  rewrite (bind_Done _ _ _ _ _ Hl). clear Hl. cbv iota.
  step1. subst Q. cbv beta.
  split; [reflexivity |]. split.
  - etransitivity; [lk2 | f_equal].
    cbn [heap put set_heap set_user]. rewrite !length_insert.
    apply Promise_ext; fld; first [ reflexivity | lia | congruence ].
  - wsimp. exact Hu1.
Qed.

End Spawn.

Section Monotone.

Context {U : Type}.
Implicit Types (w : World U) (pr : Promise U) (p q : addr).

Lemma keeps_refl w : keeps w w.
Proof. intros x prx H. now exists prx. Qed.

Lemma keeps_same_heap w w' : heap w' = heap w -> keeps w w'.
Proof. intros E x prx H. exists prx. now rewrite E. Qed.

Lemma keeps_trans w1 w2 w3 : keeps w1 w2 -> keeps w2 w3 -> keeps w1 w3.
Proof.
  intros H12 H23 x prx H.
  destruct (H12 x prx H) as (pr2 & H2 & E2).
  destruct (H23 x pr2 H2) as (pr3 & H3 & E3).
  exists pr3. split; [exact H3 | congruence].
Qed.

Lemma settles_refl w : settles w w.
Proof. intros x prx H. exists prx. now split; [| left]. Qed.

Lemma settles_trans w1 w2 w3 : settles w1 w2 -> settles w2 w3 -> settles w1 w3.
Proof.
  intros H12 H23 x prx H.
  destruct (H12 x prx H) as (pr2 & H2 & E2).
  destruct (H23 x pr2 H2) as (pr3 & H3 & E3).
  exists pr3. split; [exact H3 |].
  destruct E2 as [E2 | E2]; [| now right].
  destruct E3 as [E3 | E3]; [left | right]; congruence.
Qed.

Lemma keeps_settles w w' : keeps w w' -> settles w w'.
Proof.
  intros H x prx Hx. destruct (H x prx Hx) as (pr' & H' & E).
  exists pr'. split; [exact H' | now left].
Qed.

Lemma leaves_keeps_settles {A} (o : outcome U A) w :
  leaves keeps o w -> leaves settles o w.
Proof. destruct o; cbn; auto using keeps_settles. Qed.

(** Sequencing, for a transitive relation. *)
Lemma leaves_bind {A B} (R : World U -> World U -> Prop)
    (m : M U A) (k : A -> M U B) w :
  (forall w1 w2 w3, R w1 w2 -> R w2 w3 -> R w1 w3) ->
  leaves R (m w) w ->
  (forall a w1, m w = Done a w1 -> leaves R (k a w1) w1) ->
  leaves R (bind m k w) w.
Proof.
  intros Htrans Hm Hk. unfold bind.
  destruct (m w) as [a w1 | w1 | msg |] eqn:E; cbn in *; try exact Hm.
  specialize (Hk a w1 eq_refl).
  destruct (k a w1) as [b w2 | w2 | msg' |]; cbn in *; eauto.
Qed.

Lemma keeps_put p pr pr' w :
  heap w !! p = Some pr -> state pr' = state pr -> keeps w (put p pr' w).
Proof.
  intros H E x prx Hx. destruct (decide (p = x)) as [Heq | Hne].
  - subst x. pose proof (eq_trans (eq_sym H) Hx) as Hi. injection Hi as <-.
    exists pr'. split; [eapply lookup_put; exact H | exact E].
  - exists prx. split; [now rewrite lookup_put_ne | reflexivity].
Qed.

Lemma settles_put p pr pr' w :
  heap w !! p = Some pr -> state pr = pending -> settles w (put p pr' w).
Proof.
  intros H E x prx Hx. destruct (decide (p = x)) as [Heq | Hne].
  - subst x. pose proof (eq_trans (eq_sym H) Hx) as Hi. injection Hi as <-.
    exists pr'. split; [eapply lookup_put; exact H | now right].
  - exists prx. split; [now rewrite lookup_put_ne | now left].
Qed.

Lemma keeps_deref p w : leaves keeps (deref p w) w.
Proof. unfold deref. destruct (heap w !! p); cbn; auto using keeps_refl. Qed.

Lemma keeps_modify p f w :
  (forall pr, state (f pr) = state pr) -> leaves keeps (modify p f w) w.
Proof.
  intros Hf. unfold modify. destruct (heap w !! p) as [pr |] eqn:E; cbn; [| exact I].
  now apply (keeps_put p pr).
Qed.

Lemma keeps_Lock p w : leaves keeps (Lock p w) w.
Proof.
  unfold Lock. destruct (heap w !! p) as [pr |] eqn:E; cbn; [| exact I].
  destruct (mutex pr); cbn; [apply keeps_refl | now apply (keeps_put p pr)].
Qed.

Lemma keeps_Unlock p w : leaves keeps (Unlock p w) w.
Proof. now apply keeps_modify. Qed.

Lemma keeps_wg_Add p delta w : leaves keeps (wg_Add p delta w) w.
Proof.
  unfold wg_Add. apply leaves_bind; [apply keeps_trans | apply keeps_deref |].
  intros pr w1 _. destruct (wg pr + delta <? 0); cbn; [exact I |].
  now apply keeps_modify.
Qed.

Lemma keeps_wg_Done_times n p : forall w, leaves keeps (wg_Done_times n p w) w.
Proof.
  induction n as [| n IH]; intros w; cbn [wg_Done_times].
  - apply keeps_refl.
  - apply leaves_bind; [apply keeps_trans | apply keeps_wg_Add |].
    intros _ w1 _. apply IH.
Qed.

Lemma keeps_New e w : leaves keeps (New e w) w.
Proof.
  cbn. intros x prx Hx. exists prx. split; [| reflexivity].
  cbn [heap set_ready set_heap]. rewrite lookup_app_l; [exact Hx |].
  eapply lookup_lt_Some, Hx.
Qed.

Lemma keeps_invoke_then h data w : leaves keeps (invoke_then h data w) w.
Proof.
  destruct h as [f | outer]; cbn [invoke_then].
  - destruct (f data (user w)) as [[v | e] u].
    + cbn. now apply keeps_same_heap.
    + apply (keeps_trans _ (set_user u w)); [now apply keeps_same_heap |].
      apply (keeps_New e (set_user u w)).
  - apply leaves_bind; [apply keeps_trans | now apply keeps_modify |].
    intros _ w1 _. apply keeps_refl.
Qed.

Lemma keeps_chain_loop call p hs :
  (forall h e w, leaves keeps (call h e w) w) ->
  forall e w, leaves keeps (chain_loop call p hs e w) w.
Proof.
  intros Hcall. induction hs as [| h hs IH]; intros e w; cbn [chain_loop].
  - apply keeps_refl.
  - apply leaves_bind; [apply keeps_trans | apply Hcall |].
    intros e1 w1 _.
    apply leaves_bind; [apply keeps_trans | apply keeps_wg_Add |].
    intros _ w2 _. apply IH.
Qed.

Lemma keeps_invoke_catch fuel : forall h e w,
  leaves keeps (invoke_catch fuel h e w) w.
Proof.
  induction fuel as [| n IH]; intros h e w; destruct h as [f | outer];
    cbn [invoke_catch].
  - destruct (f e (user w)) as [e1 u]. now apply keeps_same_heap.
  - exact I.
  - destruct (f e (user w)) as [e1 u]. now apply keeps_same_heap.
  - apply leaves_bind; [apply keeps_trans | now apply keeps_modify |].
    intros _ w1 _.
    apply leaves_bind; [apply keeps_trans | apply keeps_deref |].
    intros pr1 w2 _.
    apply leaves_bind; [apply keeps_trans | apply keeps_wg_Done_times |].
    intros _ w3 _.
    apply leaves_bind; [apply keeps_trans | apply keeps_deref |].
    intros pr3 w4 _.
    now apply keeps_chain_loop.
Qed.

Lemma keeps_reject_loop fuel p hs : forall w,
  leaves keeps (reject_loop fuel p hs w) w.
Proof.
  induction hs as [| h hs IH]; intros w; cbn [reject_loop].
  - apply keeps_refl.
  - apply leaves_bind; [apply keeps_trans | apply keeps_deref |].
    intros pr w1 _.
    apply leaves_bind; [apply keeps_trans | apply keeps_invoke_catch |].
    intros e w2 _.
    apply leaves_bind; [apply keeps_trans | now apply keeps_modify |].
    intros _ w3 _.
    apply leaves_bind; [apply keeps_trans | apply keeps_wg_Add |].
    intros _ w4 _. apply IH.
Qed.

(** Then and Catch change no state. *)
Lemma keeps_Then p h w : leaves keeps (Then p h w) w.
Proof.
  unfold Then.
  apply leaves_bind; [apply keeps_trans | apply keeps_Lock |].
  intros _ w1 _.
  apply leaves_bind; [apply keeps_trans | apply keeps_deref |].
  intros pr w2 _.
  apply leaves_bind; [apply keeps_trans | |].
  - destruct (state pr).
    + apply leaves_bind; [apply keeps_trans | apply keeps_wg_Add |].
      intros _ w3 _.
      apply leaves_bind; [apply keeps_trans | apply keeps_deref |].
      intros pr3 w4 _. now apply keeps_modify.
    + apply leaves_bind; [apply keeps_trans | apply keeps_invoke_then |].
      intros v w3 _. now apply keeps_modify.
    + apply keeps_refl.
  - intros _ w3 _.
    apply leaves_bind; [apply keeps_trans | apply keeps_Unlock |].
    intros _ w4 _. apply keeps_refl.
Qed.

Lemma keeps_Catch fuel p h w : leaves keeps (Catch fuel p h w) w.
Proof.
  unfold Catch.
  apply leaves_bind; [apply keeps_trans | apply keeps_Lock |].
  intros _ w1 _.
  apply leaves_bind; [apply keeps_trans | apply keeps_deref |].
  intros pr w2 _.
  apply leaves_bind; [apply keeps_trans | |].
  - destruct (state pr).
    + apply leaves_bind; [apply keeps_trans | apply keeps_wg_Add |].
      intros _ w3 _.
      apply leaves_bind; [apply keeps_trans | apply keeps_deref |].
      intros pr3 w4 _. now apply keeps_modify.
    + apply keeps_refl.
    + apply leaves_bind; [apply keeps_trans | apply keeps_invoke_catch |].
      intros v w3 _. now apply keeps_modify.
  - intros _ w3 _.
    apply leaves_bind; [apply keeps_trans | apply keeps_Unlock |].
    intros _ w4 _. apply keeps_refl.
Qed.

Lemma deref_inv p pr w w1 :
  deref p w = Done pr w1 -> w1 = w /\ heap w !! p = Some pr.
Proof.
  unfold deref. destruct (heap w !! p) as [pr0 |]; [| discriminate].
  intros E. injection E as <- <-. now split.
Qed.

(** Steps that change no state, followed by steps that settle. *)
Lemma leaves_bind_keeps {A B} (m : M U A) (k : A -> M U B) w :
  leaves keeps (m w) w ->
  (forall a w1, m w = Done a w1 -> keeps w w1 -> leaves settles (k a w1) w1) ->
  leaves settles (bind m k w) w.
Proof.
  intros Hm Hk. unfold bind.
  destruct (m w) as [a w1 | w1 | msg |] eqn:E; cbn in *;
    try exact I; [| now apply keeps_settles].
  specialize (Hk a w1 eq_refl Hm).
  destruct (k a w1) as [b w2 | w2 | msg' |]; cbn in *;
    try exact I; eapply settles_trans; eauto using keeps_settles.
Qed.

(** reject changes no state but that of its promise, from pending to
    rejected. *)
Lemma settles_reject fuel p e w : leaves settles (reject fuel p e w) w.
Proof.
  unfold reject.
  apply leaves_bind_keeps; [apply keeps_Lock |]. intros _ w1 _ _.
  apply leaves_bind_keeps; [apply keeps_deref |]. intros pr w2 Hd _.
  apply deref_inv in Hd. destruct Hd as [-> Hp].
  destruct (state pr) eqn:Hs; cbn [is_pending negb];
    try (apply leaves_keeps_settles, keeps_Unlock).
  apply leaves_bind_keeps; [apply keeps_wg_Done_times |]. intros _ w2 _ K2.
  apply leaves_bind_keeps; [now apply keeps_modify |]. intros _ w3 _ K3.
  apply leaves_bind_keeps; [apply keeps_deref |]. intros pr3 w4 _ K4.
  apply leaves_bind_keeps; [apply keeps_reject_loop |]. intros _ w5 _ K5.
  pose proof (keeps_trans _ _ _ (keeps_trans _ _ _ (keeps_trans _ _ _ K2 K3) K4) K5)
    as K.
  destruct (K p pr Hp) as (pr5 & Hp5 & Hs5).
  apply leaves_bind; [apply settles_trans | |].
  - rewrite (modify_Some _ _ _ _ Hp5). cbn.
    apply (settles_put p pr5); [exact Hp5 | congruence].
  - intros _ w6 _. apply leaves_keeps_settles, keeps_Unlock.
Qed.

Lemma settles_handlePanic fuel p r w : leaves settles (handlePanic fuel p r w) w.
Proof.
  destruct r; cbn [handlePanic]; try exact I.
  - apply settles_refl.
  - apply settles_reject.
Qed.

Section Goroutines.

Variable rg : addr -> M U unit.
Hypothesis settles_rg : forall q w, leaves settles (rg q w) w.

Lemma settles_in_background (m : M U unit) w :
  leaves settles (m w) w -> leaves settles (in_background m w) w.
Proof. unfold in_background. now destruct (m w). Qed.

Lemma settles_yield q w : leaves settles (yield rg q w) w.
Proof.
  unfold yield. destruct (oracle w) as [| [|] o].
  - apply settles_refl.
  - destruct (is_ready q w).
    + assert (K : settles w (set_oracle o w))
        by now apply keeps_settles, keeps_same_heap.
      pose proof (settles_in_background (rg q) (set_oracle o w)
                    (settles_rg q (set_oracle o w))) as Hb.
      destruct (in_background (rg q) (set_oracle o w)); cbn in *;
        try exact I; exact (settles_trans _ _ _ K Hb).
    + now apply keeps_settles, keeps_same_heap.
  - now apply keeps_settles, keeps_same_heap.
Qed.

Lemma settles_Await_in q w : leaves settles (Await_in rg q w) w.
Proof.
  unfold Await_in.
  apply leaves_bind; [apply settles_trans | apply leaves_keeps_settles, keeps_deref |].
  intros pr w1 _. destruct (wg pr =? 0); [apply settles_refl |].
  destruct (is_ready q w1); [| apply settles_refl].
  apply leaves_bind; [apply settles_trans | apply settles_in_background, settles_rg |].
  intros _ w2 _.
  apply leaves_bind; [apply settles_trans | apply leaves_keeps_settles, keeps_deref |].
  intros pr2 w3 _. destruct (wg pr2 =? 0); apply settles_refl.
Qed.

Lemma settles_flatten fuel p q w : leaves settles (flatten rg fuel p q w) w.
Proof.
  unfold flatten.
  apply leaves_bind; [apply settles_trans | |].
  { apply leaves_keeps_settles. now apply keeps_modify. }
  intros _ w1 _.
  apply leaves_bind; [apply settles_trans | apply settles_yield |].
  intros _ w2 _.
  apply leaves_bind; [apply settles_trans | apply leaves_keeps_settles, keeps_Then |].
  intros q1 w3 _.
  apply leaves_bind; [apply settles_trans | apply settles_yield |].
  intros _ w4 _.
  apply leaves_bind; [apply settles_trans | apply leaves_keeps_settles, keeps_Catch |].
  intros q2 w5 _.
  apply leaves_bind; [apply settles_trans | apply settles_Await_in |].
  intros _ w6 _.
  apply leaves_bind; [apply settles_trans | apply leaves_keeps_settles, keeps_deref |].
  intros pr w7 _. apply settles_refl.
Qed.

Lemma settles_resolve_loop fuel p hs : forall w,
  leaves settles (resolve_loop rg fuel p hs w) w.
Proof.
  induction hs as [| h hs IH]; intros w; cbn [resolve_loop].
  - apply settles_refl.
  - apply leaves_bind; [apply settles_trans | apply leaves_keeps_settles, keeps_deref |].
    intros pr w1 _.
    apply leaves_bind;
      [apply settles_trans | apply leaves_keeps_settles, keeps_invoke_then |].
    intros v w2 _.
    apply leaves_bind; [apply settles_trans | |].
    { apply leaves_keeps_settles. now apply keeps_modify. }
    intros _ w3 _.
    apply leaves_bind; [apply settles_trans | apply leaves_keeps_settles, keeps_deref |].
    intros pr3 w4 _.
    apply leaves_bind; [apply settles_trans | |].
    { destruct (result pr3); try apply settles_refl. apply settles_flatten. }
    intros stop w5 _. destruct stop; [apply settles_refl |].
    apply leaves_bind; [apply settles_trans | apply leaves_keeps_settles, keeps_wg_Add |].
    intros _ w6 _.
    apply leaves_bind; [apply settles_trans | apply leaves_keeps_settles, keeps_deref |].
    intros pr6 w7 _.
    apply leaves_bind; [apply settles_trans | |].
    { apply leaves_keeps_settles. now apply keeps_modify. }
    intros _ w8 _. apply IH.
Qed.

(** What follows the change of state in resolve. *)
Lemma settles_resolve_rest fuel p v w :
  leaves settles
    ((modify p (set_result v) ;;;
      modify p (set_doneCounter 0) ;;;
      pr <- deref p ;;
      stop <- resolve_loop rg fuel p (then_ pr) ;;
      if (stop : bool) then Unlock p
      else pr <- deref p ;; wg_Done_times (length (catch pr)) p ;;; Unlock p) w) w.
Proof.
  apply leaves_bind; [apply settles_trans | |].
  { apply leaves_keeps_settles. now apply keeps_modify. }
  intros _ w1 _.
  apply leaves_bind; [apply settles_trans | |].
  { apply leaves_keeps_settles. now apply keeps_modify. }
  intros _ w2 _.
  apply leaves_bind; [apply settles_trans | apply leaves_keeps_settles, keeps_deref |].
  intros pr w3 _.
  apply leaves_bind; [apply settles_trans | apply settles_resolve_loop |].
  intros stop w4 _. destruct stop.
  - apply leaves_keeps_settles, keeps_Unlock.
  - apply leaves_bind; [apply settles_trans | apply leaves_keeps_settles, keeps_deref |].
    intros pr4 w5 _.
    apply leaves_bind;
      [apply settles_trans | apply leaves_keeps_settles, keeps_wg_Done_times |].
    intros _ w6 _. apply leaves_keeps_settles, keeps_Unlock.
Qed.

(** resolve changes the state of its promise from pending to fulfilled;
    what it calls changes no settled state. *)
Lemma settles_resolve_in fuel p v w : leaves settles (resolve_in rg fuel p v w) w.
Proof.
  unfold resolve_in.
  apply leaves_bind_keeps; [apply keeps_Lock |]. intros _ w1 _ _.
  apply leaves_bind_keeps; [apply keeps_deref |]. intros pr w2 Hd _.
  apply deref_inv in Hd. destruct Hd as [-> Hp].
  destruct (state pr) eqn:Hs; cbn [is_pending negb];
    try (apply leaves_keeps_settles, keeps_Unlock).
  apply leaves_bind; [apply settles_trans | |].
  - rewrite (modify_Some _ _ _ _ Hp). cbn. now apply (settles_put p pr).
  - intros _ w2 _. apply settles_resolve_rest.
Qed.

Lemma settles_run_calls fuel p cs : forall w,
  leaves settles (run_calls rg fuel p cs w) w.
Proof.
  induction cs as [| c cs IH]; intros w; cbn [run_calls].
  - apply settles_refl.
  - apply leaves_bind; [apply settles_trans | |].
    + destruct c; cbn [run_call]; [apply settles_resolve_in | apply settles_reject].
    + intros _ w1 _. apply IH.
Qed.

Lemma settles_goroutine fuel p w : leaves settles (goroutine rg fuel p w) w.
Proof.
  unfold goroutine.
  apply leaves_bind; [apply settles_trans | |].
  { cbn. now apply keeps_settles, keeps_same_heap. }
  intros _ w1 _.
  apply leaves_bind; [apply settles_trans | apply leaves_keeps_settles, keeps_deref |].
  intros pr w2 _.
  apply leaves_bind; [apply settles_trans | apply settles_run_calls |].
  intros _ w3 _.
  destruct (finish (executor pr)); try apply settles_handlePanic.
  apply settles_refl.
Qed.

End Goroutines.

Lemma settles_run_goroutine fuel : forall q w,
  leaves settles (run_goroutine fuel q w) w.
Proof.
  induction fuel as [| n IH]; intros q w; cbn [run_goroutine]; [exact I |].
  now apply settles_goroutine.
Qed.

(** No call of the package changes the state of a promise that is
    fulfilled or rejected. *)
Lemma settles_resolve fuel p v w : leaves settles (resolve fuel p v w) w.
Proof. apply settles_resolve_in, settles_run_goroutine. Qed.

Lemma settles_Await fuel p w : leaves settles (Await fuel p w) w.
Proof. apply settles_Await_in, settles_run_goroutine. Qed.

Lemma bind_inv {A B} (m : M U A) (k : A -> M U B) w b w' :
  bind m k w = Done b w' -> exists a w1, m w = Done a w1 /\ k a w1 = Done b w'.
Proof.
  unfold bind. destruct (m w) as [a w1 | | |]; try discriminate.
  intros H. now exists a, w1.
Qed.

Lemma modify_inv p f w w' :
  modify p f w = Done tt w' ->
  exists pr, heap w !! p = Some pr /\ w' = put p (f pr) w.
Proof.
  unfold modify. destruct (heap w !! p) as [pr |]; [| discriminate].
  intros E. injection E as <-. now exists pr.
Qed.

(** A call of resolve on a pending promise that returns leaves it
    fulfilled, whatever its handlers are. *)
Lemma resolve_fulfils fuel p pr v w w' :
  heap w !! p = Some pr -> mutex pr = false -> state pr = pending ->
  resolve fuel p v w = Done tt w' ->
  exists pr', heap w' !! p = Some pr' /\ state pr' = fulfilled.
Proof.
  intros H Hm Hs. unfold resolve, resolve_in.
  erewrite step_Lock by lk. erewrite step_deref by lk.
  fld. rewrite Hs. cbn [is_pending negb].
  erewrite step_modify by lk. rewrite put_put. intros Hr.
  pose proof (settles_resolve_rest (run_goroutine fuel) (settles_run_goroutine fuel)
                fuel p v (put p (set_state fulfilled (set_mutex true pr)) w)) as Hl.
  rewrite Hr in Hl. cbn in Hl.
  destruct (Hl p (set_state fulfilled (set_mutex true pr)))
    as (pr' & Hp' & [Hs' | Hs']).
  - eapply lookup_put. exact H.
  - exists pr'. now split.
  - discriminate Hs'.
Qed.

(** A call of reject on a pending promise that returns leaves it
    rejected, whatever its handlers are. *)
Lemma reject_rejects fuel p pr e w w' :
  heap w !! p = Some pr -> mutex pr = false -> state pr = pending ->
  reject fuel p e w = Done tt w' ->
  exists pr', heap w' !! p = Some pr' /\ state pr' = rejected.
Proof.
  intros H Hm Hs. unfold reject.
  erewrite step_Lock by lk. erewrite step_deref by lk.
  fld. rewrite Hs. cbn [is_pending negb]. intros Hr.
  apply bind_inv in Hr. destruct Hr as (_ & w2 & _ & Hr).
  apply bind_inv in Hr. destruct Hr as (_ & w3 & _ & Hr).
  apply bind_inv in Hr. destruct Hr as (pr3 & w4 & _ & Hr).
  apply bind_inv in Hr. destruct Hr as (_ & w5 & _ & Hr).
  apply bind_inv in Hr. destruct Hr as ([] & w6 & Hmod & Hr).
  apply modify_inv in Hmod. destruct Hmod as (pr5 & Hp5 & ->).
  apply modify_inv in Hr. destruct Hr as (pr6 & Hp6 & ->).
  erewrite lookup_put in Hp6 by exact Hp5. injection Hp6 as <-.
  eexists. split.
  - eapply lookup_put. eapply lookup_put. exact Hp5.
  - reflexivity.
Qed.

End Monotone.

(** * The claims *)

Lemma pipeline_observed i gs : forall e u,
  pipeline (observe_from i gs) e u
  = (fold_left (fun a g => g a) gs e, u ++ calls_from i gs e).
Proof.
  revert i. induction gs as [| g gs IH]; intros i e u.
  - unfold pipeline. cbn. now rewrite app_nil_r.
  - cbn [observe_from calls_from fold_left]. rewrite pipeline_cons.
    unfold observed at 1 2. cbn [fst snd]. rewrite IH.
    now rewrite <- app_assoc.
Qed.

Lemma length_observe_from i gs : length (observe_from i gs) = length gs.
Proof.
  revert i. induction gs as [| g gs IH]; intros i; [reflexivity |].
  cbn [observe_from length]. now rewrite IH.
Qed.

(** C2: Then and Catch look at the state and return the same promise.
    On a pending promise the handler is appended to its list and the
    WaitGroup counter grows by one.  On a fulfilled promise Then calls the
    handler with the current result and stores what it returns as the
    result (the pointer, when it returns a new promise), and Catch does
    nothing.  On a rejected promise Catch calls the
    handler with the current error and stores what it returns as the error,
    and Then does nothing: the world, with the user state, is unchanged. *)
Theorem Then_Catch_dispatch {U} p pr (w : World U) :
  heap w !! p = Some pr -> mutex pr = false -> 0 <= wg pr ->
  (state pr = pending ->
     (forall h, Then p h w
        = Done p (put p (set_then (then_ pr ++ [h]) (set_wg (wg pr + 1) pr)) w))
     /\ (forall fuel h, Catch fuel p h w
        = Done p (put p (set_catch (catch pr ++ [h]) (set_wg (wg pr + 1) pr)) w)))
  /\ (state pr = fulfilled ->
     (forall f v u, f (result pr) (user w) = (ret_value v, u) ->
        Then p (user_then f) w = Done p (put p (set_result v pr) (set_user u w)))
     /\ (forall f e u, f (result pr) (user w) = (ret_New e, u) ->
        Then p (user_then f) w
        = Done p {| heap := <[p := set_result (VPromise (length (heap w))) pr]> (heap w)
                            ++ [new_promise e];
                    ready := ready w ++ [length (heap w)];
                    user := u;
                    oracle := oracle w |})
     /\ (forall fuel h, Catch fuel p h w = Done p w))
  /\ (state pr = rejected ->
     (forall h, Then p h w = Done p w)
     /\ (forall fuel f, Catch fuel p (user_catch f) w
        = Done p (put p (set_error (f (error pr) (user w)).1 pr)
                    (set_user (f (error pr) (user w)).2 w)))).
Proof.
  intros H Hm Hn. split; [| split]; intros Hs; repeat split; intros.
  - now apply Then_pending.
  - now apply Catch_pending.
  - now apply Then_fulfilled_value.
  - now apply Then_fulfilled_New.
  - now apply (Catch_fulfilled fuel p pr).
  - now apply (Then_rejected p pr).
  - now apply Catch_rejected_user.
Qed.

Lemma Then_Catch_dispatch_witness :
  Then 0%nat (user_then (returns_New (does (call_resolve VNil))))
    (example_world (example_promise (does (call_resolve (VInt 2))) [] []) [])
  = Done 0%nat
      (put 0%nat
         (set_then [user_then (returns_New (does (call_resolve VNil)))]
            (set_wg 1 (example_promise (does (call_resolve (VInt 2))) [] [])))
         (example_world (example_promise (does (call_resolve (VInt 2))) [] []) [])).
Proof.
  refine (proj1 (proj1 (Then_Catch_dispatch 0%nat
            (example_promise (does (call_resolve (VInt 2))) [] [])
            (example_world (example_promise (does (call_resolve (VInt 2))) [] []) [])
            _ _ _) _) _).
  - reflexivity.
  - reflexivity.
  - cbn. lia.
  - reflexivity.
Defined.

(** C3: reject on a pending promise with k rejection handlers calls each
    of them once, in the order of registration: the first with the error
    given to reject, each next one with what the one before it returned,
    whatever that is.  The stored error is the left fold of the chain, and
    no fulfillment handler is called.  The first part says it for handlers
    acting on any user state, the second for handlers that write down
    their number and the error they were called with. *)
Theorem reject_calls_each_handler_once :
  (forall U fuel p (pr : Promise U) fs e (w : World U),
     heap w !! p = Some pr -> mutex pr = false -> state pr = pending ->
     catch pr = map user_catch fs ->
     Z.of_nat (length (then_ pr)) + Z.of_nat (length fs) <= wg pr ->
     reject fuel p e w
     = Done tt
         (put p (set_state rejected
                   (set_wg (wg pr - Z.of_nat (length (then_ pr)) - Z.of_nat (length fs))
                      (set_error (pipeline fs e (user w)).1 pr)))
            (set_user (pipeline fs e (user w)).2 w)))
  /\ (forall fuel p (pr : Promise (list (nat * go_error))) gs e w,
     heap w !! p = Some pr -> mutex pr = false -> state pr = pending ->
     catch pr = map user_catch (observe_from 0 gs) ->
     Z.of_nat (length (then_ pr)) + Z.of_nat (length gs) <= wg pr ->
     exists w' pr',
       reject fuel p e w = Done tt w'
       /\ heap w' !! p = Some pr'
       /\ state pr' = rejected
       /\ error pr' = fold_left (fun a g => g a) gs e
       /\ user w' = user w ++ calls_from 0 gs e).
Proof.
  split.
  - intros. now apply reject_user.
  - intros fuel p pr gs e w H Hm Hs Hc Hn.
    pose proof (length_observe_from 0 gs) as Hl.
    eexists. eexists. split.
    + apply (reject_user fuel p pr (observe_from 0 gs) e w H Hm Hs Hc).
      rewrite Hl. exact Hn.
    + rewrite pipeline_observed. cbn [fst snd]. split; [| split; [| split]].
      * eapply lookup_put. exact H.
      * reflexivity.
      * reflexivity.
      * reflexivity.
Qed.

Lemma reject_calls_each_handler_once_witness :
  reject 0 0%nat (errors_New "very serious error")
    (example_world
       (example_promise (does (call_reject (errors_New "very serious error")))
          [user_then (returns_New (does (call_resolve VNil)))]
          [user_catch (returns_error (errors_New "dealing with error"));
           user_catch (returns_error None)])
       [])
  = Done tt
      {| heap :=
           [set_state rejected
              (set_wg 0
                 (set_error None
                    (example_promise
                       (does (call_reject (errors_New "very serious error")))
                       [user_then (returns_New (does (call_resolve VNil)))]
                       [user_catch (returns_error (errors_New "dealing with error"));
                        user_catch (returns_error None)])))];
         ready := [0%nat];
         user := [VString "very serious error"; VString "dealing with error"];
         oracle := [] |}.
Proof.
  refine (eq_trans (proj1 reject_calls_each_handler_once trace 0%nat 0%nat
            (example_promise (does (call_reject (errors_New "very serious error")))
               [user_then (returns_New (does (call_resolve VNil)))]
               [user_catch (returns_error (errors_New "dealing with error"));
                user_catch (returns_error None)])
            [returns_error (errors_New "dealing with error");
             returns_error None]
            (errors_New "very serious error")
            (example_world _ []) _ _ _ _ _) _).
  - reflexivity.
  - reflexivity.
  - reflexivity.
  - reflexivity.
  - cbn. lia.
  - reflexivity.
Defined.

(** C7: when the executor panics with a string instead of calling resolve
    or reject, the goroutine of the promise does what a call of reject
    with errors.New of that string does: the promise ends rejected and its
    rejection handlers run as a chain from an error whose text is the
    string. *)
Theorem panic_becomes_rejection {U} n p (pr : Promise U) fs text w :
  heap w !! p = Some pr -> mutex pr = false -> state pr = pending ->
  executor pr = {| calls := []; finish := panics (VString text) |} ->
  catch pr = map user_catch fs ->
  Z.of_nat (length (then_ pr)) + Z.of_nat (length fs) <= wg pr ->
  let w0 := set_ready (List.filter (fun a => negb (Nat.eqb p a)) (ready w)) w in
  run_goroutine (S n) p w = reject n p (errors_New text) w0
  /\ run_goroutine (S n) p w
     = Done tt
         (put p (set_state rejected
                   (set_wg (wg pr - Z.of_nat (length (then_ pr)) - Z.of_nat (length fs))
                      (set_error (pipeline fs (errors_New text) (user w)).1 pr)))
            (set_user (pipeline fs (errors_New text) (user w)).2 w0))
  /\ Error <$> errors_New text = Some text.
Proof.
  intros H Hm Hs He Hc Hn w0.
  assert (Hgo : run_goroutine (S n) p w = reject n p (errors_New text) w0).
  { rewrite (run_goroutine_S _ _ _ _ H), He. reflexivity. }
  split; [exact Hgo |]. split; [| reflexivity].
  rewrite Hgo.
  exact (reject_user n p pr fs (errors_New text) w0 H Hm Hs Hc Hn).
Qed.

Lemma panic_becomes_rejection_witness :
  run_goroutine 1 0%nat
    (example_world
       (example_promise {| calls := []; finish := panics (VString "boom") |}
          [] [user_catch (returns_error None)])
       [])
  = Done tt
      {| heap :=
           [set_state rejected
              (set_wg 0
                 (set_error None
                    (example_promise
                       {| calls := []; finish := panics (VString "boom") |}
                       [] [user_catch (returns_error None)])))];
         ready := [];
         user := [VString "boom"];
         oracle := [] |}.
Proof.
  refine (eq_trans (proj1 (proj2 (panic_becomes_rejection 0 0%nat
            (example_promise {| calls := []; finish := panics (VString "boom") |}
               [] [user_catch (returns_error None)])
            [returns_error None] "boom" (example_world _ [])
            _ _ _ _ _ _))) _).
  - reflexivity.
  - reflexivity.
  - reflexivity.
  - reflexivity.
  - reflexivity.
  - cbn. lia.
  - reflexivity.
Defined.

(** C8, as the code has it: the conversion asserts that the recovered
    value is a string, behind the guard r != nil.  When the executor
    panics and recover() gives a value that is neither nil nor a string,
    handlePanic panics in its turn, nothing recovers that, and reject is
    never called.  When recover() gives nil, the guard skips the
    conversion: handlePanic does nothing, the goroutine returns, and the
    promise stays as it is.  When the recovered value is a string,
    handlePanic is the call of reject with errors.New of it: the
    assertion cannot fail. *)
Theorem panic_conversion_needs_a_string {U} n p (pr : Promise U) w :
  heap w !! p = Some pr ->
  (forall r, executor pr = {| calls := []; finish := panics r |} ->
     (forall text, r <> VString text) ->
     (r <> VNil ->
        handlePanic n p r w = Crash not_a_string
        /\ run_goroutine (S n) p w = Crash not_a_string)
     /\ (r = VNil ->
        run_goroutine (S n) p w
        = Done tt (set_ready (List.filter (fun a => negb (Nat.eqb p a)) (ready w)) w)))
  /\ (forall text, handlePanic n p (VString text) w = reject n p (errors_New text) w).
Proof.
  intros H. split; [| reflexivity].
  intros r He Hstr. split.
  - intros Hnil.
    assert (Hh : forall w' : World U, handlePanic n p r w' = Crash not_a_string).
    { intros w'. destruct r; try reflexivity.
      - now contradiction Hnil.
      - now contradiction (Hstr text). }
    split; [apply Hh |].
    rewrite (run_goroutine_S _ _ _ _ H), He.
    cbn [calls finish run_calls]. rewrite step_ret. apply Hh.
  - intros ->. rewrite (run_goroutine_S _ _ _ _ H), He. reflexivity.
Qed.

Lemma panic_conversion_needs_a_string_witness :
  run_goroutine 1 0%nat
    (example_world
       (example_promise
          {| calls := []; finish := panics (VError {| s := "boom" |}) |}
          [] [user_catch (returns_error None)])
       [])
  = Crash not_a_string.
Proof.
  refine (proj2 (proj1 (proj1 (panic_conversion_needs_a_string 0 0%nat
            (example_promise
               {| calls := []; finish := panics (VError {| s := "boom" |}) |}
               [] [user_catch (returns_error None)])
            (example_world _ []) _)
          (VError {| s := "boom" |}) _ _) _)).
  - reflexivity.
  - reflexivity.
  - discriminate.
  - discriminate.
Defined.

(** C8, as the claim states it, fails: nil is not a string, and for the
    executor that panics with nil the conversion does not fault:
    handlePanic returns, the goroutine returns, and the promise is still
    pending. *)
Lemma panic_with_nil_does_not_fault :
  (forall text, VNil <> VString text)
  /\ handlePanic 0 0%nat VNil
       (example_world
          (example_promise {| calls := []; finish := panics VNil |}
             [] [user_catch (returns_error None)]) [])
     = Done tt
         (example_world
            (example_promise {| calls := []; finish := panics VNil |}
               [] [user_catch (returns_error None)]) [])
  /\ run_goroutine 1 0%nat
       (example_world
          (example_promise {| calls := []; finish := panics VNil |}
             [] [user_catch (returns_error None)]) [])
     = Done tt
         (set_ready []
            (example_world
               (example_promise {| calls := []; finish := panics VNil |}
                  [] [user_catch (returns_error None)]) []))
  /\ run_goroutine 1 0%nat
       (example_world
          (example_promise {| calls := []; finish := panics VNil |}
             [] [user_catch (returns_error None)]) [])
     <> Crash not_a_string
  /\ state (example_promise {| calls := []; finish := panics VNil |}
              [] [user_catch (returns_error None)]) = pending.
Proof.
  split; [discriminate |]. split; [reflexivity |].
  assert (H : run_goroutine 1 0%nat
                (example_world
                   (example_promise {| calls := []; finish := panics VNil |}
                      [] [user_catch (returns_error None)]) [])
              = Done tt
                  (set_ready []
                     (example_world
                        (example_promise {| calls := []; finish := panics VNil |}
                           [] [user_catch (returns_error None)]) [])))
    by reflexivity.
  split; [exact H |]. split; [| reflexivity].
  rewrite H. discriminate.
Qed.

(** C10: Then on a fulfilled promise with a handler that returns a new
    promise stores the pointer to that promise as the result.  Nothing is
    registered on the new promise, whose goroutine, when it runs, leaves
    the first promise as it is; the handler of the next Then is called
    with the pointer. *)
Theorem no_flattening_after_settlement {U} n p (pr : Promise U) f g v cs u r u' w :
  heap w !! p = Some pr -> mutex pr = false -> state pr = fulfilled ->
  f (result pr) (user w)
  = (ret_New {| calls := call_resolve v :: cs; finish := returns |}, u) ->
  g (VPromise (length (heap w))) u = (ret_value r, u') ->
  let q := length (heap w) in
  let e := {| calls := call_resolve v :: cs; finish := returns |} in
  exists w1,
    Then p (user_then f) w = Done p w1
    /\ heap w1 !! p = Some (set_result (VPromise q) pr)
    /\ heap w1 !! q = Some (new_promise e)
    /\ (exists w2, run_goroutine (S n) q w1 = Done tt w2
                   /\ heap w2 !! p = Some (set_result (VPromise q) pr))
    /\ Then p (user_then g) w1
       = Done p (put p (set_result r pr) (set_user u' w1)).
Proof.
  intros H Hm Hs Hf Hg q e.
  pose proof (lookup_lt_Some _ _ _ H) as Hlt.
  rewrite (Then_fulfilled_New p pr f e u w H Hm Hs Hf).
  eexists. split; [reflexivity |].
  assert (Hp1 : forall (h : list (Promise U)) x,
            h = heap w -> (<[p := x]> h ++ [new_promise e]) !! p = Some x).
  { intros h x ->. rewrite lookup_app_l by (now rewrite length_insert).
    now apply list_lookup_insert_eq. }
  assert (Hq1 : forall (h : list (Promise U)) x,
            h = heap w -> (<[p := x]> h ++ [new_promise e]) !! q
                          = Some (new_promise e)).
  { intros h x ->. apply list_lookup_middle. now rewrite length_insert. }
  split; [now apply Hp1 |]. split; [now apply Hq1 |]. split.
  - eexists. split.
    + eapply (goroutine_resolves n q (new_promise e) v cs).
      * cbn [heap]. now apply Hq1.
      * reflexivity.
      * apply (resolve_in_plain _ _ _ (new_promise e) []).
        -- cbn [heap set_ready]. now apply Hq1.
        -- reflexivity.
        -- reflexivity.
        -- reflexivity.
        -- reflexivity.
        -- cbn. lia.
      * eapply lookup_put. cbn [heap set_user set_ready]. now apply Hq1.
      * reflexivity.
      * discriminate.
    + rewrite lookup_put_ne by lia. cbn [heap set_user set_ready].
      now apply Hp1.
  - etransitivity.
    + eapply (Then_fulfilled_value p (set_result (VPromise q) pr) g r u').
      * cbn [heap]. now apply Hp1.
      * exact Hm.
      * exact Hs.
      * exact Hg.
    + reflexivity.
Qed.

Lemma no_flattening_after_settlement_witness :
  exists w1,
    Then 0%nat (user_then (returns_New (does (call_resolve (VInt 228)))))
      (example_world
         (set_state fulfilled (set_result (VInt 1)
            (example_promise (does (call_resolve (VInt 1))) [] []))) [])
    = Done 0%nat w1
    /\ Then 0%nat (user_then returns_data) w1
       = Done 0%nat
           (put 0%nat
              (set_result (VPromise 1%nat)
                 (set_state fulfilled (set_result (VInt 1)
                    (example_promise (does (call_resolve (VInt 1))) [] []))))
              (set_user [VInt 1; VPromise 1%nat] w1)).
Proof.
  destruct (no_flattening_after_settlement 0 0%nat
              (set_state fulfilled (set_result (VInt 1)
                 (example_promise (does (call_resolve (VInt 1))) [] [])))
              (returns_New (does (call_resolve (VInt 228)))) returns_data
              (VInt 228) [] [VInt 1] (VPromise 1%nat) [VInt 1; VPromise 1%nat]
              (example_world _ [])
              eq_refl eq_refl eq_refl eq_refl eq_refl)
    as (w1 & H1 & _ & _ & _ & H2).
  exists w1. split; [exact H1 | exact H2].
Defined.

(** C9, as the code has it: Await returns at once when the WaitGroup
    counter is zero, whatever the executor does.  When the counter is not
    zero and the executor calls neither resolve nor reject and does not
    panic, Await blocks for ever, and the promise stays as it is. *)
Theorem Await_blocks_while_handlers_are_owed {U} fuel p (pr : Promise U) w :
  heap w !! p = Some pr ->
  calls (executor pr) = [] ->
  finish (executor pr) = returns \/ finish (executor pr) = hangs ->
  (wg pr = 0 -> Await fuel p w = Done tt w)
  /\ (wg pr <> 0 ->
      exists w', Await (S fuel) p w = Blocks w' /\ heap w' !! p = Some pr).
Proof.
  intros H Hc Hf. split; intros Hz.
  - now apply (Await_in_zero _ p pr).
  - unfold Await, Await_in. rewrite (step_deref _ _ _ _ H).
    destruct (Z.eqb_spec (wg pr) 0) as [E | _]; [contradiction |].
    destruct (is_ready p w) eqn:Hr.
    + set (w0 := set_ready (List.filter (fun a => negb (Nat.eqb p a)) (ready w)) w).
      assert (Hg : in_background (run_goroutine (S fuel) p) w = Done tt w0).
      { unfold in_background. rewrite (run_goroutine_S _ _ _ _ H), Hc.
        cbn [run_calls]. rewrite step_ret.
        destruct Hf as [-> | ->]; reflexivity. }
      rewrite (bind_Done _ _ _ _ _ Hg).
      assert (H0 : heap w0 !! p = Some pr) by exact H.
      rewrite (step_deref _ _ _ _ H0).
      destruct (Z.eqb_spec (wg pr) 0) as [E | _]; [contradiction |].
      exists w0. split; [reflexivity | exact H0].
    + exists w. split; [reflexivity | exact H].
Qed.

Lemma Await_blocks_while_handlers_are_owed_witness :
  exists w',
    Await 1 0%nat
      (example_world
         (example_promise {| calls := []; finish := hangs |}
            [plain_then passes_on] []) [])
    = Blocks w'
    /\ heap w' !! 0%nat
       = Some (example_promise {| calls := []; finish := hangs |}
                 [plain_then passes_on] []).
Proof.
  refine (proj2 (Await_blocks_while_handlers_are_owed 0 0%nat
            (example_promise {| calls := []; finish := hangs |}
               [plain_then passes_on] [])
            (example_world _ []) _ _ _) _).
  - reflexivity.
  - reflexivity.
  - right. reflexivity.
  - cbn. lia.
Defined.

(** C9, as the claim states it, fails: the executor of this promise never
    calls resolve or reject and never panics, no handler is registered,
    and Await returns. *)
Lemma Await_returns_without_settlement :
  Await 1 0%nat
    (example_world (example_promise {| calls := []; finish := hangs |} [] []) [])
  = Done tt
      (example_world (example_promise {| calls := []; finish := hangs |} [] []) [])
  /\ ~ (exists w',
          Await 1 0%nat
            (example_world
               (example_promise {| calls := []; finish := hangs |} [] []) [])
          = Blocks w').
Proof.
  assert (H : Await 1 0%nat
                (example_world
                   (example_promise {| calls := []; finish := hangs |} [] []) [])
              = Done tt
                  (example_world
                     (example_promise {| calls := []; finish := hangs |} [] []) []))
    by reflexivity.
  split; [exact H |]. intros [w' H']. rewrite H in H'. discriminate H'.
Qed.

(** C5: when a fulfillment handler called by resolve returns a new
    promise whose executor resolves it with [v'], the pointer is not kept
    as the result: whenever the scheduler runs the executor, the result
    becomes [v'], and the handlers registered after that one are called as
    a chain that starts from [v'].  resolve returns, the promise is
    fulfilled, and its result is what the last handler returned. *)
Theorem flattening_passes_on_the_nested_value {U} n p (pr : Promise U)
    pre f post u v v' cs w :
  heap w !! p = Some pr -> mutex pr = false -> state pr = pending ->
  then_ pr = map plain_then pre ++ user_then f :: map plain_then post ->
  stays_plain pre v (user w) = true ->
  stays_plain post v' u = true ->
  f (pipeline pre v (user w)).1 (pipeline pre v (user w)).2
  = (ret_New {| calls := call_resolve v' :: cs; finish := returns |}, u) ->
  Z.of_nat (length (then_ pr)) + Z.of_nat (length (catch pr)) <= wg pr ->
  exists w' pr',
    resolve (S n) p v w = Done tt w'
    /\ heap w' !! p = Some pr'
    /\ state pr' = fulfilled
    /\ result pr' = (pipeline post v' u).1
    /\ user w' = (pipeline post v' u).2.
Proof.
  intros H Hm Hs Ht Hpre Hpost Hf Hn.
  destruct (resolve_flatten_resolved n p pr pre f post u v v' cs w
              H Hm Hs Ht Hpre Hpost Hf Hn) as (w' & Hr & Hp & Hu).
  exists w'. eexists. split; [exact Hr |]. split; [exact Hp |].
  split; [reflexivity |]. split; [reflexivity | exact Hu].
Qed.

Lemma flattening_passes_on_the_nested_value_witness :
  exists w' pr',
    resolve 1 0%nat (VInt 1)
      (example_world
         (example_promise (does (call_resolve (VInt 1)))
            [user_then (returns_New (does (call_resolve (VInt 228))));
             plain_then passes_on] [])
         [false; true])
    = Done tt w'
    /\ heap w' !! 0%nat = Some pr'
    /\ state pr' = fulfilled
    /\ result pr' = VInt 228
    /\ user w' = [VInt 1; VInt 228].
Proof.
  exact (flattening_passes_on_the_nested_value 0 0%nat
           (example_promise (does (call_resolve (VInt 1)))
              [user_then (returns_New (does (call_resolve (VInt 228))));
               plain_then passes_on] [])
           [] (returns_New (does (call_resolve (VInt 228)))) [passes_on]
           [VInt 1] (VInt 1) (VInt 228) []
           (example_world _ [false; true])
           eq_refl eq_refl eq_refl eq_refl eq_refl eq_refl eq_refl
           ltac:(cbn; lia)).
Defined.

(** C6: when a fulfillment handler called by resolve returns a new
    promise whose executor rejects it with [err], then, whenever the
    scheduler runs the executor, the fulfillment handlers registered after
    that one are not called, whatever they are; the rejection handlers are
    called as a chain that starts from [err]; resolve returns, and the
    promise is fulfilled, with the pointer as its result and its error
    field untouched. *)
Theorem nested_rejection_skips_to_catch {U} n p (pr : Promise U)
    pre f post fs u v err cs w :
  heap w !! p = Some pr -> mutex pr = false -> state pr = pending ->
  then_ pr = map plain_then pre ++ user_then f :: post ->
  catch pr = map user_catch fs ->
  stays_plain pre v (user w) = true ->
  f (pipeline pre v (user w)).1 (pipeline pre v (user w)).2
  = (ret_New {| calls := call_reject err :: cs; finish := returns |}, u) ->
  Z.of_nat (length (then_ pr)) + Z.of_nat (length fs) <= wg pr ->
  exists w' pr',
    resolve (S (S n)) p v w = Done tt w'
    /\ heap w' !! p = Some pr'
    /\ state pr' = fulfilled
    /\ result pr' = VPromise (length (heap w))
    /\ error pr' = error pr
    /\ user w' = (pipeline fs err u).2.
Proof.
  intros H Hm Hs Ht Hc Hpre Hf Hn.
  destruct (resolve_flatten_rejected n p pr pre f post fs u v err cs w
              H Hm Hs Ht Hc Hpre Hf Hn) as (w' & Hr & Hp & Hu).
  exists w'. eexists. split; [exact Hr |]. split; [exact Hp |].
  split; [reflexivity |]. split; [reflexivity |].
  split; [reflexivity | exact Hu].
Qed.

Lemma nested_rejection_skips_to_catch_witness :
  exists w' pr',
    resolve 2 0%nat (VInt 1)
      (example_world
         (example_promise (does (call_resolve (VInt 1)))
            [user_then (returns_New (does (call_reject (errors_New "ERROR!"))));
             plain_then passes_on]
            [user_catch (returns_error (errors_New "ERROR!"))])
         [true])
    = Done tt w'
    /\ heap w' !! 0%nat = Some pr'
    /\ state pr' = fulfilled
    /\ result pr' = VPromise 1%nat
    /\ error pr' = None
    /\ user w' = [VInt 1; VString "ERROR!"].
Proof.
  exact (nested_rejection_skips_to_catch 0 0%nat
           (example_promise (does (call_resolve (VInt 1)))
              [user_then (returns_New (does (call_reject (errors_New "ERROR!"))));
               plain_then passes_on]
              [user_catch (returns_error (errors_New "ERROR!"))])
           [] (returns_New (does (call_reject (errors_New "ERROR!"))))
           [plain_then passes_on]
           [returns_error (errors_New "ERROR!")]
           [VInt 1] (VInt 1) (errors_New "ERROR!") []
           (example_world _ [true])
           eq_refl eq_refl eq_refl eq_refl eq_refl eq_refl eq_refl
           ltac:(cbn; lia)).
Defined.

(** C4: every way of settling releases one unit of the WaitGroup for each
    handler registered while the promise was pending, so that a counter
    that owed one unit per handler ends at zero.  On rejection the
    fulfillment handlers are passed over and the rejection handlers run.
    On fulfillment the fulfillment handlers run, also when one of them
    returns a promise that is then fulfilled, and the rejection handlers
    are passed over without being called.  When a handler returns a
    promise that is then rejected, the fulfillment handlers after it are
    passed over and the rejection handlers run.  The user state tells
    which handlers ran.  Inside the loop of resolve, the counter has gone
    down by the number of handlers done so far. *)
Theorem one_unit_per_registered_handler :
  (forall U fuel p (pr : Promise U) fs e w,
     heap w !! p = Some pr -> mutex pr = false -> state pr = pending ->
     catch pr = map user_catch fs ->
     Z.of_nat (length (then_ pr)) + Z.of_nat (length fs) <= wg pr ->
     exists w' pr',
       reject fuel p e w = Done tt w'
       /\ heap w' !! p = Some pr'
       /\ wg pr' = wg pr - (Z.of_nat (length (then_ pr)) + Z.of_nat (length (catch pr)))
       /\ user w' = (pipeline fs e (user w)).2)
  /\ (forall U fuel p (pr : Promise U) gs v w,
     heap w !! p = Some pr -> mutex pr = false -> state pr = pending ->
     then_ pr = map plain_then gs ->
     stays_plain gs v (user w) = true ->
     Z.of_nat (length gs) + Z.of_nat (length (catch pr)) <= wg pr ->
     exists w' pr',
       resolve fuel p v w = Done tt w'
       /\ heap w' !! p = Some pr'
       /\ wg pr' = wg pr - (Z.of_nat (length (then_ pr)) + Z.of_nat (length (catch pr)))
       /\ user w' = (pipeline gs v (user w)).2)
  /\ (forall U n p (pr : Promise U) pre f post u v v' cs w,
     heap w !! p = Some pr -> mutex pr = false -> state pr = pending ->
     then_ pr = map plain_then pre ++ user_then f :: map plain_then post ->
     stays_plain pre v (user w) = true ->
     stays_plain post v' u = true ->
     f (pipeline pre v (user w)).1 (pipeline pre v (user w)).2
     = (ret_New {| calls := call_resolve v' :: cs; finish := returns |}, u) ->
     Z.of_nat (length (then_ pr)) + Z.of_nat (length (catch pr)) <= wg pr ->
     exists w' pr',
       resolve (S n) p v w = Done tt w'
       /\ heap w' !! p = Some pr'
       /\ wg pr' = wg pr - (Z.of_nat (length (then_ pr)) + Z.of_nat (length (catch pr)))
       /\ user w' = (pipeline post v' u).2)
  /\ (forall U n p (pr : Promise U) pre f post fs u v err cs w,
     heap w !! p = Some pr -> mutex pr = false -> state pr = pending ->
     then_ pr = map plain_then pre ++ user_then f :: post ->
     catch pr = map user_catch fs ->
     stays_plain pre v (user w) = true ->
     f (pipeline pre v (user w)).1 (pipeline pre v (user w)).2
     = (ret_New {| calls := call_reject err :: cs; finish := returns |}, u) ->
     Z.of_nat (length (then_ pr)) + Z.of_nat (length fs) <= wg pr ->
     exists w' pr',
       resolve (S (S n)) p v w = Done tt w'
       /\ heap w' !! p = Some pr'
       /\ wg pr' = wg pr - (Z.of_nat (length (then_ pr)) + Z.of_nat (length (catch pr)))
       /\ user w' = (pipeline fs err u).2)
  /\ (forall U rg fuel p (pr : Promise U) gs rest w,
     heap w !! p = Some pr ->
     stays_plain gs (result pr) (user w) = true ->
     Z.of_nat (length gs) <= wg pr ->
     exists w1 pr1,
       resolve_loop rg fuel p (map plain_then gs ++ rest) w
       = resolve_loop rg fuel p rest w1
       /\ heap w1 !! p = Some pr1
       /\ wg pr1 = wg pr - Z.of_nat (length gs)).
Proof.
  split; [| split; [| split; [| split]]].
  - intros U fuel p pr fs e w H Hm Hs Hc Hn.
    eexists. eexists. split; [now apply (reject_user fuel p pr fs) |].
    split; [eapply lookup_put; exact H |].
    split; [| reflexivity].
    fld. rewrite Hc, length_map. lia.
  - intros U fuel p pr gs v w H Hm Hs Ht Hplain Hn.
    eexists. eexists. split; [now apply (resolve_in_plain _ _ p pr gs) |].
    split; [eapply lookup_put; exact H |].
    split; [| reflexivity].
    fld. rewrite Ht, length_map. lia.
  - intros U n p pr pre f post u v v' cs w H Hm Hs Ht Hpre Hpost Hf Hn.
    destruct (resolve_flatten_resolved n p pr pre f post u v v' cs w
                H Hm Hs Ht Hpre Hpost Hf Hn) as (w' & Hr & Hp & Hu).
    exists w'. eexists. split; [exact Hr |]. split; [exact Hp |].
    split; [| exact Hu]. fld. lia.
  - intros U n p pr pre f post fs u v err cs w H Hm Hs Ht Hc Hpre Hf Hn.
    destruct (resolve_flatten_rejected n p pr pre f post fs u v err cs w
                H Hm Hs Ht Hc Hpre Hf Hn) as (w' & Hr & Hp & Hu).
    exists w'. eexists. split; [exact Hr |]. split; [exact Hp |].
    split; [| exact Hu]. fld. rewrite Hc, length_map. lia.
  - intros U rg fuel p pr gs rest w H Hplain Hn.
    eexists. eexists.
    split; [now apply (resolve_loop_plain rg fuel p gs rest pr w) |].
    split; [eapply lookup_put; exact H |]. reflexivity.
Qed.

Lemma one_unit_per_registered_handler_witness :
  exists w' pr',
    resolve 0 0%nat (VInt 2)
      (example_world
         (example_promise (does (call_resolve (VInt 2)))
            [plain_then (add_int 1); plain_then (add_int 0)]
            [user_catch (returns_error None)])
         [])
    = Done tt w'
    /\ heap w' !! 0%nat = Some pr'
    /\ wg pr' = 0
    /\ user w' = [VInt 2; VInt 3].
Proof.
  exact (proj1 (proj2 one_unit_per_registered_handler) trace 0%nat 0%nat
           (example_promise (does (call_resolve (VInt 2)))
              [plain_then (add_int 1); plain_then (add_int 0)]
              [user_catch (returns_error None)])
           [add_int 1; add_int 0] (VInt 2) (example_world _ [])
           eq_refl eq_refl eq_refl eq_refl eq_refl ltac:(cbn; lia)).
Defined.

(** C1: a promise settles once.  A call of resolve or reject on a promise
    that is no longer pending, and any sequence of such calls, returns
    and leaves the world as it is: state, result and error stay as the
    first settling call set them.  No call of the package, whatever the
    handlers and the scheduler, changes the state of a promise that is not
    pending, and Then and Catch change no state at all.  A call of resolve
    on a pending promise that returns leaves it fulfilled, a call of reject
    leaves it rejected.  With user handlers reject does return, and so
    does resolve with handlers that return no promise, and the calls that
    follow change nothing. *)
Theorem settlement_happens_once :
  (forall U fuel p (pr : Promise U) w,
     heap w !! p = Some pr -> mutex pr = false -> state pr <> pending ->
     (forall v, resolve fuel p v w = Done tt w)
     /\ (forall e, reject fuel p e w = Done tt w)
     /\ (forall cs, run_calls (run_goroutine fuel) fuel p cs w = Done tt w))
  /\ (forall U fuel p (w : World U),
     (forall v, leaves settles (resolve fuel p v w) w)
     /\ (forall e, leaves settles (reject fuel p e w) w)
     /\ leaves settles (run_goroutine fuel p w) w
     /\ leaves settles (Await fuel p w) w
     /\ (forall h, leaves keeps (Then p h w) w)
     /\ (forall h, leaves keeps (Catch fuel p h w) w))
  /\ (forall U fuel p (pr : Promise U) w w',
     heap w !! p = Some pr -> mutex pr = false -> state pr = pending ->
     (forall v, resolve fuel p v w = Done tt w' ->
        exists pr', heap w' !! p = Some pr' /\ state pr' = fulfilled)
     /\ (forall e, reject fuel p e w = Done tt w' ->
        exists pr', heap w' !! p = Some pr' /\ state pr' = rejected))
  /\ (forall U fuel p (pr : Promise U) fs e w,
     heap w !! p = Some pr -> mutex pr = false -> state pr = pending ->
     catch pr = map user_catch fs ->
     Z.of_nat (length (then_ pr)) + Z.of_nat (length fs) <= wg pr ->
     exists w1 pr1,
       reject fuel p e w = Done tt w1
       /\ heap w1 !! p = Some pr1
       /\ state pr1 = rejected
       /\ error pr1 = (pipeline fs e (user w)).1
       /\ result pr1 = result pr
       /\ forall fuel' cs,
            run_calls (run_goroutine fuel') fuel' p cs w1 = Done tt w1)
  /\ (forall U fuel p (pr : Promise U) gs v w,
     heap w !! p = Some pr -> mutex pr = false -> state pr = pending ->
     then_ pr = map plain_then gs ->
     stays_plain gs v (user w) = true ->
     Z.of_nat (length gs) + Z.of_nat (length (catch pr)) <= wg pr ->
     exists w1 pr1,
       resolve fuel p v w = Done tt w1
       /\ heap w1 !! p = Some pr1
       /\ state pr1 = fulfilled
       /\ result pr1 = (pipeline gs v (user w)).1
       /\ error pr1 = error pr
       /\ forall fuel' cs,
            run_calls (run_goroutine fuel') fuel' p cs w1 = Done tt w1).
Proof.
  split; [| split; [| split; [| split]]].
  - intros U fuel p pr w H Hm Hs. split; [| split].
    + intros v. now apply (resolve_in_settled _ _ p pr).
    + intros e. now apply (reject_settled _ p pr).
    + intros cs. now apply (run_calls_settled _ _ p pr).
  - intros U fuel p w. repeat split; intros.
    + apply settles_resolve.
    + apply settles_reject.
    + apply settles_run_goroutine.
    + apply settles_Await.
    + apply keeps_Then.
    + apply keeps_Catch.
  - intros U fuel p pr w w' H Hm Hs. split.
    + intros v. now apply (resolve_fulfils fuel p pr).
    + intros e. now apply (reject_rejects fuel p pr).
  - intros U fuel p pr fs e w H Hm Hs Hc Hn.
    eexists. eexists. split; [now apply (reject_user fuel p pr fs) |].
    split; [eapply lookup_put; exact H |].
    split; [reflexivity |]. split; [reflexivity |]. split; [reflexivity |].
    intros fuel' cs. eapply run_calls_settled.
    + eapply lookup_put. exact H.
    + exact Hm.
    + discriminate.
  - intros U fuel p pr gs v w H Hm Hs Ht Hplain Hn.
    eexists. eexists. split; [now apply (resolve_in_plain _ _ p pr gs) |].
    split; [eapply lookup_put; exact H |].
    split; [reflexivity |]. split; [reflexivity |]. split; [reflexivity |].
    intros fuel' cs. eapply run_calls_settled.
    + eapply lookup_put. exact H.
    + exact Hm.
    + discriminate.
Qed.

Lemma settlement_happens_once_witness :
  resolve 0 0%nat (VInt 7)
    (example_world
       (set_state rejected
          (set_error (errors_New "first")
             (example_promise (does (call_reject (errors_New "first"))) [] [])))
       [])
  = Done tt
      (example_world
         (set_state rejected
            (set_error (errors_New "first")
               (example_promise (does (call_reject (errors_New "first"))) [] [])))
         []).
Proof.
  refine (proj1 (proj1 settlement_happens_once trace 0%nat 0%nat
            (set_state rejected
               (set_error (errors_New "first")
                  (example_promise (does (call_reject (errors_New "first"))) [] [])))
            (example_world _ []) _ _ _) (VInt 7)).
  - reflexivity.
  - reflexivity.
  - discriminate.
Defined.

(** * Further properties of the package *)

Ltac fld_in H :=
  cbn [state executor then_ catch result error mutex wg doneCounter isRejected
       set_state set_then set_catch set_result set_error set_mutex set_wg
       set_doneCounter set_isRejected length] in H.

Section Returning.

Context {U : Type}.
Implicit Types (w : World U) (pr : Promise U) (p q : addr).

Lemma Lock_inv p w w' :
  Lock p w = Done tt w' ->
  exists pr, heap w !! p = Some pr /\ mutex pr = false
             /\ w' = put p (set_mutex true pr) w.
Proof.
  unfold Lock. destruct (heap w !! p) as [pr |]; [| discriminate].
  destruct (mutex pr) eqn:Hm; [discriminate |].
  intros E. injection E as <-. now exists pr.
Qed.

Lemma Unlock_inv p w w' :
  Unlock p w = Done tt w' ->
  exists pr, heap w' !! p = Some (set_mutex false pr).
Proof.
  intros H. apply modify_inv in H. destruct H as (pr & Hp & ->).
  exists pr. eapply lookup_put. exact Hp.
Qed.

Lemma ret_inv {A} (a b : A) w w' : ret a w = Done b w' -> a = b /\ w' = w.
Proof. unfold ret. intros E. injection E as <- <-. now split. Qed.

Lemma Then_returns_unlocked p h w a w' :
  Then p h w = Done a w' ->
  a = p /\ exists pr', heap w' !! p = Some pr' /\ mutex pr' = false.
Proof.
  unfold Then. intros H.
  apply bind_inv in H. destruct H as (_ & w1 & _ & H).
  apply bind_inv in H. destruct H as (pr & w2 & _ & H).
  apply bind_inv in H. destruct H as (_ & w3 & _ & H).
  apply bind_inv in H. destruct H as ([] & w4 & Hu & H).
  apply ret_inv in H. destruct H as [<- ->].
  split; [reflexivity |].
  apply Unlock_inv in Hu. destruct Hu as (pr4 & Hp4). now exists (set_mutex false pr4).
Qed.

Lemma Catch_returns_unlocked fuel p h w a w' :
  Catch fuel p h w = Done a w' ->
  a = p /\ exists pr', heap w' !! p = Some pr' /\ mutex pr' = false.
Proof.
  unfold Catch. intros H.
  apply bind_inv in H. destruct H as (_ & w1 & _ & H).
  apply bind_inv in H. destruct H as (pr & w2 & _ & H).
  apply bind_inv in H. destruct H as (_ & w3 & _ & H).
  apply bind_inv in H. destruct H as ([] & w4 & Hu & H).
  apply ret_inv in H. destruct H as [<- ->].
  split; [reflexivity |].
  apply Unlock_inv in Hu. destruct Hu as (pr4 & Hp4). now exists (set_mutex false pr4).
Qed.

Lemma resolve_returns_settled fuel p v w w' :
  resolve fuel p v w = Done tt w' ->
  exists pr', heap w' !! p = Some pr' /\ mutex pr' = false /\ state pr' <> pending.
Proof.
  intros H0. pose proof H0 as H. unfold resolve, resolve_in in H.
  apply bind_inv in H. destruct H as ([] & w1 & Hl & H).
  apply Lock_inv in Hl. destruct Hl as (pr & Hp & Hm & ->).
  erewrite step_deref in H by lk. fld_in H.
  destruct (state pr) eqn:Hs; cbn [is_pending negb] in H.
  - destruct (resolve_fulfils fuel p pr v w w' Hp Hm Hs H0) as (pr' & Hp' & Hs').
    apply bind_inv in H. destruct H as (_ & w2 & _ & H).
    apply bind_inv in H. destruct H as (_ & w3 & _ & H).
    apply bind_inv in H. destruct H as (_ & w4 & _ & H).
    apply bind_inv in H. destruct H as (pr4 & w5 & _ & H).
    apply bind_inv in H. destruct H as (stop & w6 & _ & H).
    assert (Hu : exists prx, heap w' !! p = Some (set_mutex false prx)).
    { destruct stop.
      - now apply Unlock_inv in H.
      - apply bind_inv in H. destruct H as (pr6 & w7 & _ & H).
        apply bind_inv in H. destruct H as (_ & w8 & _ & H).
        now apply Unlock_inv in H. }
    destruct Hu as (prx & Hx).
    pose proof (eq_trans (eq_sym Hp') Hx) as E. injection E as ->.
    eexists. split; [exact Hx |]. split; [reflexivity |].
    rewrite Hs'. discriminate.
  - apply modify_inv in H. destruct H as (pr1 & Hp1 & ->).
    erewrite lookup_put in Hp1 by exact Hp. injection Hp1 as <-.
    eexists. split; [eapply lookup_put; eapply lookup_put; exact Hp |].
    split; [reflexivity |]. fld. rewrite Hs. discriminate.
  - apply modify_inv in H. destruct H as (pr1 & Hp1 & ->).
    erewrite lookup_put in Hp1 by exact Hp. injection Hp1 as <-.
    eexists. split; [eapply lookup_put; eapply lookup_put; exact Hp |].
    split; [reflexivity |]. fld. rewrite Hs. discriminate.
Qed.

Lemma reject_returns_settled fuel p e w w' :
  reject fuel p e w = Done tt w' ->
  exists pr', heap w' !! p = Some pr' /\ mutex pr' = false /\ state pr' <> pending.
Proof.
  intros H. unfold reject in H.
  apply bind_inv in H. destruct H as ([] & w1 & Hl & H).
  apply Lock_inv in Hl. destruct Hl as (pr & Hp & Hm & ->).
  erewrite step_deref in H by lk. fld_in H.
  destruct (state pr) eqn:Hs; cbn [is_pending negb] in H.
  - apply bind_inv in H. destruct H as (_ & w2 & _ & H).
    apply bind_inv in H. destruct H as (_ & w3 & _ & H).
    apply bind_inv in H. destruct H as (pr3 & w4 & _ & H).
    apply bind_inv in H. destruct H as (_ & w5 & _ & H).
    apply bind_inv in H. destruct H as ([] & w6 & Hmod & H).
    apply modify_inv in Hmod. destruct Hmod as (pr5 & Hp5 & ->).
    apply modify_inv in H. destruct H as (pr6 & Hp6 & ->).
    erewrite lookup_put in Hp6 by exact Hp5. injection Hp6 as <-.
    eexists. split; [eapply lookup_put; eapply lookup_put; exact Hp5 |].
    split; [reflexivity |]. discriminate.
  - apply modify_inv in H. destruct H as (pr1 & Hp1 & ->).
    erewrite lookup_put in Hp1 by exact Hp. injection Hp1 as <-.
    eexists. split; [eapply lookup_put; eapply lookup_put; exact Hp |].
    split; [reflexivity |]. fld. rewrite Hs. discriminate.
  - apply modify_inv in H. destruct H as (pr1 & Hp1 & ->).
    erewrite lookup_put in Hp1 by exact Hp. injection Hp1 as <-.
    eexists. split; [eapply lookup_put; eapply lookup_put; exact Hp |].
    split; [reflexivity |]. fld. rewrite Hs. discriminate.
Qed.

End Returning.

(** X1: the deferred Unlock runs on every way out.  When resolve or reject
    returns, the promise is unlocked and no longer pending, whatever its
    state and handlers were; when Then or Catch returns, it returns the
    promise it was called on, and the promise is unlocked. *)
Theorem returning_calls_release_the_lock {U} fuel p (w w' : World U) :
  (forall v, resolve fuel p v w = Done tt w' ->
     exists pr', heap w' !! p = Some pr' /\ mutex pr' = false /\ state pr' <> pending)
  /\ (forall e, reject fuel p e w = Done tt w' ->
     exists pr', heap w' !! p = Some pr' /\ mutex pr' = false /\ state pr' <> pending)
  /\ (forall h a, Then p h w = Done a w' ->
     a = p /\ exists pr', heap w' !! p = Some pr' /\ mutex pr' = false)
  /\ (forall h a, Catch fuel p h w = Done a w' ->
     a = p /\ exists pr', heap w' !! p = Some pr' /\ mutex pr' = false).
Proof.
  split; [| split; [| split]].
  - intros v. apply resolve_returns_settled.
  - intros e. apply reject_returns_settled.
  - intros h a. apply Then_returns_unlocked.
  - intros h a. apply Catch_returns_unlocked.
Qed.

Lemma returning_calls_release_the_lock_witness :
  exists pr',
    heap {| heap :=
              [set_state fulfilled
                 (set_result (VInt 3)
                    (set_wg 0
                       (set_doneCounter 1
                          (example_promise (does (call_resolve (VInt 2)))
                             [plain_then (add_int 1)] []))))];
            ready := [0%nat];
            user := [VInt 2];
            oracle := [] |} !! 0%nat
    = Some pr'
    /\ mutex pr' = false /\ state pr' <> pending.
Proof.
  refine (proj1 (returning_calls_release_the_lock 0 0%nat
            (example_world
               (example_promise (does (call_resolve (VInt 2)))
                  [plain_then (add_int 1)] []) [])
            _) (VInt 2) _).
  reflexivity.
Defined.

(** X2: the first call of resolve or reject that returns decides.  The
    calls the executor makes after it change nothing; the goroutine then
    ends as the executor does, and a panic with a string after the
    settlement is swallowed (reject finds the promise settled), a panic
    whose recovered value is nil goes unnoticed, and a panic with a value
    that is neither nil nor a string still ends the program. *)
Theorem first_settling_call_wins {U} n p (pr : Promise U) c cs fin w w1 :
  heap w !! p = Some pr ->
  executor pr = {| calls := c :: cs; finish := fin |} ->
  run_call (run_goroutine n) n p c
    (set_ready (List.filter (fun a => negb (Nat.eqb p a)) (ready w)) w) = Done tt w1 ->
  run_calls (run_goroutine n) n p (c :: cs)
    (set_ready (List.filter (fun a => negb (Nat.eqb p a)) (ready w)) w) = Done tt w1
  /\ run_goroutine (S n) p w
     = match fin with
       | returns => Done tt w1
       | hangs => Blocks w1
       | panics VNil => Done tt w1
       | panics (VString _) => Done tt w1
       | panics _ => Crash not_a_string
       end.
Proof.
  intros H He Hc.
  assert (Hset : exists pr1, heap w1 !! p = Some pr1 /\ mutex pr1 = false
                             /\ state pr1 <> pending).
  { destruct c as [v | e]; cbn [run_call] in Hc.
    - exact (resolve_returns_settled n p v _ w1 Hc).
    - exact (reject_returns_settled n p e _ w1 Hc). }
  destruct Hset as (pr1 & Hp1 & Hm1 & Hs1).
  assert (Hcs : run_calls (run_goroutine n) n p (c :: cs)
                  (set_ready (List.filter (fun a => negb (Nat.eqb p a)) (ready w)) w)
                = Done tt w1).
  { cbn [run_calls]. rewrite (bind_Done _ _ _ _ _ Hc).
    now apply (run_calls_settled _ _ p pr1). }
  split; [exact Hcs |].
  rewrite (run_goroutine_S _ _ _ _ H), He. cbn [calls finish].
  rewrite (bind_Done _ _ _ _ _ Hcs).
  destruct fin as [| r |]; try reflexivity.
  destruct r; try reflexivity.
  cbn [handlePanic]. now apply (reject_settled _ p pr1).
Qed.

Lemma counted_lookup {U} (w : World U) :
  counted w = true <->
  forall x prx, heap w !! x = Some prx -> state prx = pending ->
    wg prx = Z.of_nat (length (then_ prx) + length (catch prx)).
Proof.
  unfold counted. rewrite forallb_forall. split.
  - intros H x prx Hx Hs.
    assert (Hin : In prx (heap w)).
    { apply list_elem_of_In. eapply list_elem_of_lookup_2; exact Hx. }
    specialize (H prx Hin). unfold counts_handlers in H. rewrite Hs in H.
    now apply Z.eqb_eq.
  - intros H prx Hin. apply list_elem_of_In, list_elem_of_lookup_1 in Hin.
    destruct Hin as (x & Hx). unfold counts_handlers.
    destruct (state prx) eqn:Hs; try reflexivity.
    apply Z.eqb_eq. now apply (H x).
Qed.

(** X3: the WaitGroup counter of a pending promise is the number of its
    registered handlers.  This holds for a promise made by New, and calls
    of New, of Then and of Catch with handlers of the user keep it for
    every promise of the heap. *)
Theorem registration_keeps_the_count {U} (w w' : World U) :
  counted w = true ->
  (forall e a, New e w = Done a w' ->
     counted w' = true /\ heap w' !! a = Some (new_promise e) /\ heap w !! a = None)
  /\ (forall p f a, Then p (user_then f) w = Done a w' -> counted w' = true)
  /\ (forall fuel p f a, Catch fuel p (user_catch f) w = Done a w' ->
        counted w' = true).
Proof.
  rewrite !counted_lookup. intros Hc. split; [| split].
  - intros e a H. unfold New in H. injection H as <- <-.
    split; [| split].
    + apply counted_lookup.
      intros x prx Hx Hs. cbn [heap set_ready set_heap] in Hx.
      destruct (decide (x < length (heap w))%nat) as [Hlt | Hge].
      * rewrite lookup_app_l in Hx by exact Hlt. now apply (Hc x).
      * rewrite lookup_app_r in Hx by lia.
        destruct (x - length (heap w))%nat; cbn in Hx; [| discriminate].
        injection Hx as <-. reflexivity.
    + cbn [heap set_ready set_heap]. now apply list_lookup_middle.
    + now apply lookup_ge_None.
  - intros p f a H. apply counted_lookup. pose proof H as H0. unfold Then in H0.
    apply bind_inv in H0. destruct H0 as ([] & w1 & Hl & _).
    apply Lock_inv in Hl. destruct Hl as (pr & Hp & Hm & _).
    destruct (state pr) eqn:Hs.
    + assert (Hn : 0 <= wg pr) by (rewrite (Hc p pr Hp Hs); lia).
      rewrite (Then_pending p pr _ w Hp Hm Hs Hn) in H. injection H as _ <-.
      intros x prx Hx Hsx. destruct (decide (p = x)) as [Heq | Hne].
      * subst x. erewrite lookup_put in Hx by exact Hp. injection Hx as <-.
        fld. rewrite length_app. cbn [length]. rewrite (Hc p pr Hp Hs). lia.
      * rewrite lookup_put_ne in Hx by exact Hne. now apply (Hc x).
    + destruct (f (result pr) (user w)) as [[v | e] u] eqn:Hf.
      * rewrite (Then_fulfilled_value p pr f v u w Hp Hm Hs Hf) in H.
        injection H as _ <-.
        intros x prx Hx Hsx. destruct (decide (p = x)) as [Heq | Hne].
        -- subst x. erewrite lookup_put in Hx by exact Hp. injection Hx as <-.
           cbn [state set_result] in Hsx. congruence.
        -- rewrite lookup_put_ne in Hx by exact Hne. now apply (Hc x).
      * rewrite (Then_fulfilled_New p pr f e u w Hp Hm Hs Hf) in H.
        injection H as _ <-.
        pose proof (lookup_lt_Some _ _ _ Hp) as Hlt.
        intros x prx Hx Hsx. cbn [heap] in Hx.
        destruct (decide (x < length (heap w))%nat) as [Hx1 | Hx1].
        -- rewrite lookup_app_l in Hx by (now rewrite length_insert).
           destruct (decide (p = x)) as [Heq | Hne].
           ++ subst x. rewrite list_lookup_insert_eq in Hx by exact Hlt.
              injection Hx as <-. cbn [state set_result] in Hsx. congruence.
           ++ rewrite list_lookup_insert_ne in Hx by exact Hne. now apply (Hc x).
        -- rewrite lookup_app_r in Hx by (rewrite length_insert; lia).
           rewrite length_insert in Hx.
           destruct (x - length (heap w))%nat; cbn in Hx; [| discriminate].
           injection Hx as <-. reflexivity.
    + rewrite (Then_rejected p pr _ w Hp Hm Hs) in H. injection H as _ <-.
      exact Hc.
  - intros fuel p f a H. apply counted_lookup. pose proof H as H0.
    unfold Catch in H0.
    apply bind_inv in H0. destruct H0 as ([] & w1 & Hl & _).
    apply Lock_inv in Hl. destruct Hl as (pr & Hp & Hm & _).
    destruct (state pr) eqn:Hs.
    + assert (Hn : 0 <= wg pr) by (rewrite (Hc p pr Hp Hs); lia).
      rewrite (Catch_pending fuel p pr _ w Hp Hm Hs Hn) in H. injection H as _ <-.
      intros x prx Hx Hsx. destruct (decide (p = x)) as [Heq | Hne].
      * subst x. erewrite lookup_put in Hx by exact Hp. injection Hx as <-.
        fld. rewrite length_app. cbn [length]. rewrite (Hc p pr Hp Hs). lia.
      * rewrite lookup_put_ne in Hx by exact Hne. now apply (Hc x).
    + rewrite (Catch_fulfilled fuel p pr _ w Hp Hm Hs) in H. injection H as _ <-.
      exact Hc.
    + rewrite (Catch_rejected_user fuel p pr f w Hp Hm Hs) in H.
      injection H as _ <-.
      intros x prx Hx Hsx. destruct (decide (p = x)) as [Heq | Hne].
      * subst x. erewrite lookup_put in Hx by (cbn [heap set_user]; exact Hp).
        injection Hx as <-. cbn [state set_error] in Hsx. congruence.
      * rewrite lookup_put_ne in Hx by exact Hne. now apply (Hc x).
Qed.

Lemma registration_keeps_the_count_witness :
  counted
    (put 0%nat
       (set_then [user_then (returns_New (does (call_resolve VNil)))]
          (set_wg 1 (example_promise (does (call_resolve (VInt 2))) [] [])))
       (example_world (example_promise (does (call_resolve (VInt 2))) [] []) []))
  = true.
Proof.
  refine (proj1 (proj2 (registration_keeps_the_count
            (example_world (example_promise (does (call_resolve (VInt 2))) [] []) [])
            _ _)) 0%nat (returns_New (does (call_resolve VNil))) 0%nat _).
  - reflexivity.
  - reflexivity.
Defined.

Lemma first_settling_call_wins_witness :
  run_goroutine 1 0%nat
    (example_world
       (example_promise
          {| calls := [call_resolve (VInt 1); call_reject (errors_New "late")];
             finish := panics (VString "boom") |}
          [plain_then (add_int 1)] [user_catch (returns_error None)])
       [])
  = Done tt
      {| heap :=
           [set_state fulfilled
              (set_result (VInt 2)
                 (set_wg 0
                    (set_doneCounter 1
                       (example_promise
                          {| calls := [call_resolve (VInt 1);
                                       call_reject (errors_New "late")];
                             finish := panics (VString "boom") |}
                          [plain_then (add_int 1)]
                          [user_catch (returns_error None)]))))];
         ready := [];
         user := [VInt 1];
         oracle := [] |}.
Proof.
  refine (proj2 (first_settling_call_wins 0 0%nat
            (example_promise
               {| calls := [call_resolve (VInt 1); call_reject (errors_New "late")];
                  finish := panics (VString "boom") |}
               [plain_then (add_int 1)] [user_catch (returns_error None)])
            (call_resolve (VInt 1)) [call_reject (errors_New "late")]
            (panics (VString "boom")) (example_world _ []) _ _ _ _)).
  - reflexivity.
  - reflexivity.
  - reflexivity.
Defined.

Section Programs.
Context {U : Type}.
Implicit Types (w : World U) (pr : Promise U).

Lemma pipeline_app {A} (fs1 fs2 : list (A -> U -> A * U)) a u :
  pipeline (fs1 ++ fs2) a u
  = pipeline fs2 (pipeline fs1 a u).1 (pipeline fs1 a u).2.
Proof.
  unfold pipeline. rewrite fold_left_app.
  now destruct (fold_left _ fs1 (a, u)).
Qed.

Lemma stays_plain_app (gs1 gs2 : list (value -> U -> value * U)) : forall v u,
  stays_plain (gs1 ++ gs2) v u
  = stays_plain gs1 v u
    && stays_plain gs2 (pipeline gs1 v u).1 (pipeline gs1 v u).2.
Proof.
  induction gs1 as [| g gs1 IH]; intros v u.
  - reflexivity.
  - cbn [app stays_plain]. rewrite IH, pipeline_cons. now rewrite andb_assoc.
Qed.

Lemma length_handlers (rs : list (user_registration U)) :
  (length (value_handlers rs) + length (error_handlers rs))%nat = length rs.
Proof.
  induction rs as [| [g | f] rs IH]; cbn [value_handlers error_handlers length];
    lia.
Qed.

Lemma goroutine_plain n p ex gs fs v cs w :
  waiting p ex gs fs (user w) w ->
  ex = {| calls := call_resolve v :: cs; finish := returns |} ->
  stays_plain gs v (user w) = true ->
  exists w', run_goroutine (S n) p w = Done tt w'
    /\ fulfilled_with p (pipeline gs v (user w)).1 (pipeline gs v (user w)).2 w'.
Proof.
  intros (pr & Hp & Hs & Hm & He & Ht & Hc & Hw & Hr & _) -> Hsp.
  assert (Hres := resolve_in_plain (run_goroutine n) n p pr gs v
            (set_ready (List.filter (fun a => negb (Nat.eqb p a)) (ready w)) w)
            Hp Hm Hs Ht Hsp).
  rewrite Hc, length_map in Hres. specialize (Hres ltac:(lia)).
  eexists. split.
  - eapply (goroutine_resolves n p pr v cs w _ _ Hp He Hres).
    + eapply lookup_put. exact Hp.
    + exact Hm.
    + fld. discriminate.
  - eexists. split; [eapply lookup_put; exact Hp |]. fld.
    repeat split; try assumption; try lia.
    apply not_ready_after.
Qed.

Lemma goroutine_rejecting n p ex gs fs e w :
  waiting p ex gs fs (user w) w ->
  rejects_with ex e ->
  exists w', run_goroutine (S n) p w = Done tt w'
    /\ rejected_with p (pipeline fs e (user w)).1 (pipeline fs e (user w)).2 w'.
Proof.
  intros (pr & Hp & Hs & Hm & He & Ht & Hc & Hw & Hr & _) Hex.
  assert (Hres := reject_user n p pr fs e
            (set_ready (List.filter (fun a => negb (Nat.eqb p a)) (ready w)) w)
            Hp Hm Hs Hc).
  rewrite Ht, length_map in Hres. specialize (Hres ltac:(lia)).
  eexists. split.
  - destruct Hex as [(cs & ->) | (text & -> & ->)].
    + eapply (goroutine_rejects n p pr e cs w _ _ Hp He Hres).
      * eapply lookup_put. exact Hp.
      * exact Hm.
      * fld. discriminate.
    + rewrite (run_goroutine_S _ _ _ _ Hp), He. exact Hres.
  - eexists. split; [eapply lookup_put; exact Hp |]. fld.
    repeat split; try assumption; try lia.
    apply not_ready_after.
Qed.

Lemma fulfilled_with_oracle p r u o w :
  fulfilled_with p r u w -> fulfilled_with p r u (set_oracle o w).
Proof. intros (pr & H). now exists pr. Qed.

Lemma rejected_with_oracle p e u o w :
  rejected_with p e u w -> rejected_with p e u (set_oracle o w).
Proof. intros (pr & H). now exists pr. Qed.

Lemma waiting_oracle p ex gs fs u o w :
  waiting p ex gs fs u w -> waiting p ex gs fs u (set_oracle o w).
Proof. intros (pr & H). now exists pr. Qed.

Lemma register_fulfilled fuel p x r u w :
  fulfilled_with p r u w ->
  exists w', register fuel p (registration_of x) w = Done p w'
    /\ fulfilled_with p (pipeline (value_handlers [x]) r u).1
         (pipeline (value_handlers [x]) r u).2 w'.
Proof.
  intros (pr & Hp & Hs & Hm & Hw & Hr & Hrd & Hu).
  destruct x as [g | f]; cbn [registration_of register value_handlers].
  - rewrite pipeline_cons. cbn [pipeline fold_left fst snd].
    eexists. split.
    + unfold plain_then. eapply (Then_fulfilled_value p pr _ (g r u).1 (g r u).2 w Hp Hm Hs).
      rewrite Hr, Hu. now destruct (g r u).
    + eexists. split; [eapply lookup_put; exact Hp |]. fld.
      repeat split; assumption.
  - exists w. split.
    + now apply (Catch_fulfilled fuel p pr).
    + now exists pr.
Qed.

Lemma register_rejected fuel p x e u w :
  rejected_with p e u w ->
  exists w', register fuel p (registration_of x) w = Done p w'
    /\ rejected_with p (pipeline (error_handlers [x]) e u).1
         (pipeline (error_handlers [x]) e u).2 w'.
Proof.
  intros (pr & Hp & Hs & Hm & Hw & Hr & Hrd & Hu).
  destruct x as [g | f]; cbn [registration_of register error_handlers].
  - exists w. split.
    + now apply (Then_rejected p pr).
    + now exists pr.
  - rewrite pipeline_cons. cbn [pipeline fold_left fst snd].
    eexists. split.
    + apply (Catch_rejected_user fuel p pr f w Hp Hm Hs).
    + rewrite Hr, Hu. eexists. split; [eapply lookup_put; exact Hp |]. fld.
      repeat split; assumption.
Qed.

Lemma register_all_fulfilled n p rs : forall r u w,
  fulfilled_with p r u w ->
  exists w', register_all (S n) p (map registration_of rs) w = Done tt w'
    /\ fulfilled_with p (pipeline (value_handlers rs) r u).1
         (pipeline (value_handlers rs) r u).2 w'.
Proof.
  induction rs as [| x rs IH]; intros r u w Hf.
  - exists w. split; [reflexivity | exact Hf].
  - cbn [map register_all].
    destruct (yield_not_ready (run_goroutine (S n)) p w) as [o Hy].
    { destruct Hf as (pr & Hf). tauto. }
    rewrite (bind_Done _ _ _ _ _ Hy).
    destruct (register_fulfilled (S n) p x r u (set_oracle o w)) as (w1 & H1 & Hf1).
    { now apply fulfilled_with_oracle. }
    rewrite (bind_Done _ _ _ _ _ H1).
    destruct (IH _ _ w1 Hf1) as (w2 & H2 & Hf2).
    exists w2. split; [exact H2 |].
    change (x :: rs) with ([x] ++ rs).
    replace (value_handlers ([x] ++ rs)) with (value_handlers [x] ++ value_handlers rs)
      by (now destruct x).
    now rewrite pipeline_app.
Qed.

Lemma register_all_rejected n p rs : forall e u w,
  rejected_with p e u w ->
  exists w', register_all (S n) p (map registration_of rs) w = Done tt w'
    /\ rejected_with p (pipeline (error_handlers rs) e u).1
         (pipeline (error_handlers rs) e u).2 w'.
Proof.
  induction rs as [| x rs IH]; intros e u w Hf.
  - exists w. split; [reflexivity | exact Hf].
  - cbn [map register_all].
    destruct (yield_not_ready (run_goroutine (S n)) p w) as [o Hy].
    { destruct Hf as (pr & Hf). tauto. }
    rewrite (bind_Done _ _ _ _ _ Hy).
    destruct (register_rejected (S n) p x e u (set_oracle o w)) as (w1 & H1 & Hf1).
    { now apply rejected_with_oracle. }
    rewrite (bind_Done _ _ _ _ _ H1).
    destruct (IH _ _ w1 Hf1) as (w2 & H2 & Hf2).
    exists w2. split; [exact H2 |].
    change (x :: rs) with ([x] ++ rs).
    replace (error_handlers ([x] ++ rs)) with (error_handlers [x] ++ error_handlers rs)
      by (now destruct x).
    now rewrite pipeline_app.
Qed.

Lemma register_waiting fuel p ex gs fs x u w :
  waiting p ex gs fs u w ->
  exists w', register fuel p (registration_of x) w = Done p w'
    /\ waiting p ex (gs ++ value_handlers [x]) (fs ++ error_handlers [x]) u w'.
Proof.
  intros (pr & Hp & Hs & Hm & He & Ht & Hc & Hw & Hrd & Hu).
  assert (Hn : 0 <= wg pr) by lia.
  destruct x as [g | f]; cbn [registration_of register value_handlers error_handlers].
  - eexists. split; [apply (Then_pending p pr _ w Hp Hm Hs Hn) |].
    eexists. split; [eapply lookup_put; exact Hp |]. fld.
    rewrite Ht, Hw, app_nil_r, map_app, !length_app. cbn [map length].
    repeat split; try assumption; try lia.
  - eexists. split; [apply (Catch_pending fuel p pr _ w Hp Hm Hs Hn) |].
    eexists. split; [eapply lookup_put; exact Hp |]. fld.
    rewrite Hc, Hw, app_nil_r, map_app, !length_app. cbn [map length].
    repeat split; try assumption; try lia.
Qed.

Lemma value_handlers_cons (x : user_registration U) rs :
  value_handlers (x :: rs) = value_handlers [x] ++ value_handlers rs.
Proof. now destruct x. Qed.

Lemma error_handlers_cons (x : user_registration U) rs :
  error_handlers (x :: rs) = error_handlers [x] ++ error_handlers rs.
Proof. now destruct x. Qed.

Lemma register_all_resolving n p v cs rs : forall gs fs w,
  waiting p {| calls := call_resolve v :: cs; finish := returns |} gs fs (user w) w ->
  stays_plain (gs ++ value_handlers rs) v (user w) = true ->
  exists w', register_all (S n) p (map registration_of rs) w = Done tt w'
    /\ (fulfilled_with p (pipeline (gs ++ value_handlers rs) v (user w)).1
          (pipeline (gs ++ value_handlers rs) v (user w)).2 w'
        \/ waiting p {| calls := call_resolve v :: cs; finish := returns |}
             (gs ++ value_handlers rs) (fs ++ error_handlers rs) (user w) w').
Proof.
  induction rs as [| x rs IH]; intros gs fs w Hw Hsp.
  - exists w. split; [reflexivity |]. right.
    cbn [value_handlers error_handlers]. now rewrite !app_nil_r.
  - cbn [map register_all].
    destruct (yield_cases (run_goroutine (S n)) p w)
      as [(o & _ & _ & Hy) | (o & Hy)].
    + destruct (goroutine_plain n p _ gs fs v cs (set_oracle o w)
                  (waiting_oracle _ _ _ _ _ o _ Hw) eq_refl) as (w1 & H1 & Hf1).
      { rewrite stays_plain_app in Hsp. now apply andb_true_iff in Hsp. }
      rewrite (bind_cong _ _ _ _ _ Hy), (bind_Done _ _ _ _ _ (in_background_Done _ _ _ H1)).
      cbn [user set_oracle] in Hf1.
      destruct (register_fulfilled (S n) p x _ _ w1 Hf1) as (w2 & H2 & Hf2).
      rewrite (bind_Done _ _ _ _ _ H2).
      destruct (register_all_fulfilled n p rs _ _ w2 Hf2) as (w3 & H3 & Hf3).
      exists w3. split; [exact H3 |]. left.
      now rewrite value_handlers_cons, !pipeline_app.
    + rewrite (bind_Done _ _ _ _ _ Hy).
      destruct (register_waiting (S n) p _ gs fs x _ (set_oracle o w)
                  (waiting_oracle _ _ _ _ _ o _ Hw)) as (w1 & H1 & Hw1).
      rewrite (bind_Done _ _ _ _ _ H1).
      assert (Hu1 : user w1 = user w) by (destruct Hw1 as (pr1 & Hw1); tauto).
      rewrite <- Hu1 in Hw1.
      destruct (IH _ _ w1 Hw1) as (w2 & H2 & Hf2).
      { rewrite Hu1, <- app_assoc, <- value_handlers_cons. exact Hsp. }
      exists w2. split; [exact H2 |].
      rewrite Hu1, <- !app_assoc, <- value_handlers_cons, <- error_handlers_cons in Hf2.
      exact Hf2.
Qed.

Lemma register_all_rejecting n p ex e rs : rejects_with ex e -> forall gs fs w,
  waiting p ex gs fs (user w) w ->
  exists w', register_all (S n) p (map registration_of rs) w = Done tt w'
    /\ (rejected_with p (pipeline (fs ++ error_handlers rs) e (user w)).1
          (pipeline (fs ++ error_handlers rs) e (user w)).2 w'
        \/ waiting p ex
             (gs ++ value_handlers rs) (fs ++ error_handlers rs) (user w) w').
Proof.
  intros Hex. induction rs as [| x rs IH]; intros gs fs w Hw.
  - exists w. split; [reflexivity |]. right.
    cbn [value_handlers error_handlers]. now rewrite !app_nil_r.
  - cbn [map register_all].
    destruct (yield_cases (run_goroutine (S n)) p w)
      as [(o & _ & _ & Hy) | (o & Hy)].
    + destruct (goroutine_rejecting n p _ gs fs e (set_oracle o w)
                  (waiting_oracle _ _ _ _ _ o _ Hw) Hex) as (w1 & H1 & Hf1).
      rewrite (bind_cong _ _ _ _ _ Hy), (bind_Done _ _ _ _ _ (in_background_Done _ _ _ H1)).
      cbn [user set_oracle] in Hf1.
      destruct (register_rejected (S n) p x _ _ w1 Hf1) as (w2 & H2 & Hf2).
      rewrite (bind_Done _ _ _ _ _ H2).
      destruct (register_all_rejected n p rs _ _ w2 Hf2) as (w3 & H3 & Hf3).
      exists w3. split; [exact H3 |]. left.
      now rewrite error_handlers_cons, !pipeline_app.
    + rewrite (bind_Done _ _ _ _ _ Hy).
      destruct (register_waiting (S n) p _ gs fs x _ (set_oracle o w)
                  (waiting_oracle _ _ _ _ _ o _ Hw)) as (w1 & H1 & Hw1).
      rewrite (bind_Done _ _ _ _ _ H1).
      assert (Hu1 : user w1 = user w) by (destruct Hw1 as (pr1 & Hw1); tauto).
      rewrite <- Hu1 in Hw1.
      destruct (IH _ _ w1 Hw1) as (w2 & H2 & Hf2).
      exists w2. split; [exact H2 |].
      rewrite Hu1, <- !app_assoc, <- value_handlers_cons, <- error_handlers_cons in Hf2.
      exact Hf2.
Qed.

Lemma New_waiting e (w : World U) :
  exists w', New e w = Done (length (heap w)) w'
    /\ waiting (length (heap w)) e [] [] (user w) w' /\ user w' = user w.
Proof.
  eexists. split; [reflexivity |]. split; [| reflexivity].
  exists (new_promise e). cbn [heap ready user set_heap set_ready].
  split; [now apply list_lookup_middle |].
  repeat split.
  unfold is_ready. cbn [ready set_ready set_heap].
  rewrite existsb_app. cbn [existsb]. rewrite Nat.eqb_refl.
  now rewrite orb_true_r.
Qed.

End Programs.

(** X4: a program that makes a promise whose executor calls resolve(v),
    registers handlers on it with Then and Catch, and then awaits it.  The
    goroutine of the promise may run before the first registration,
    between any two, or only when Await waits: for every such schedule,
    with at least one handler registered, Await returns, the promise is
    fulfilled, its result and the state of the user are those of the
    fulfillment handlers called once each, in the order of registration,
    from v, and no rejection handler has run. *)
Theorem fulfilment_runs_the_handlers_in_order {U} n v cs
    (rs : list (user_registration U)) (w0 : World U) :
  rs <> [] ->
  stays_plain (value_handlers rs) v (user w0) = true ->
  exists w',
    New_register_Await (S n) {| calls := call_resolve v :: cs; finish := returns |}
      (map registration_of rs) w0 = Done (length (heap w0)) w'
    /\ fulfilled_with (length (heap w0))
         (pipeline (value_handlers rs) v (user w0)).1
         (pipeline (value_handlers rs) v (user w0)).2 w'.
Proof.
  intros Hrs Hsp. unfold New_register_Await.
  destruct (New_waiting {| calls := call_resolve v :: cs; finish := returns |} w0)
    as (w1 & H1 & Hw1 & Hu1).
  rewrite (bind_Done _ _ _ _ _ H1). rewrite <- Hu1 in Hw1, Hsp |- *.
  destruct (register_all_resolving n _ v cs rs [] [] w1 Hw1 Hsp)
    as (w2 & H2 & Hf2).
  rewrite (bind_Done _ _ _ _ _ H2). cbn [app] in Hf2.
  destruct Hf2 as [Hf2 | Hw2].
  - exists w2. split; [| exact Hf2].
    destruct Hf2 as (pr & Hp & _ & _ & Hwg & _).
    unfold Await. now rewrite (bind_Done _ _ _ _ _ (Await_in_zero _ _ pr _ Hp Hwg)).
  - assert (Hu2 : user w2 = user w1) by (destruct Hw2 as (pr & Hw2); tauto).
    rewrite <- Hu2 in Hw2, Hsp |- *.
    destruct (goroutine_plain n _ _ _ _ v cs w2 Hw2 eq_refl Hsp) as (w3 & H3 & Hf3).
    exists w3. split; [| exact Hf3].
    destruct Hw2 as (pr & Hp & _ & _ & _ & _ & _ & Hwg & Hrd & _).
    destruct Hf3 as (pr3 & Hp3 & _ & _ & Hwg3 & _).
    assert (Hne : wg pr <> 0).
    { rewrite Hwg, length_handlers. destruct rs; [congruence | cbn [length]; lia]. }
    unfold Await.
    now rewrite (bind_Done _ _ _ _ _
                   (Await_in_runs _ _ pr pr3 w2 w3 Hp Hne Hrd H3 Hp3 Hwg3)).
Qed.

Lemma fulfilment_runs_the_handlers_in_order_witness :
  exists w',
    New_register_Await 1 {| calls := [call_resolve (VInt 1)]; finish := returns |}
      (map registration_of
         [on_value (add_int 1); on_error (returns_error None); on_value (add_int 2)])
      {| heap := []; ready := []; user := []; oracle := [false; true] |}
    = Done 0%nat w'
    /\ fulfilled_with 0%nat (VInt 4) [VInt 1; VInt 2] w'.
Proof.
  refine (fulfilment_runs_the_handlers_in_order 0 (VInt 1) []
            [on_value (add_int 1); on_error (returns_error None);
             on_value (add_int 2)]
            {| heap := []; ready := []; user := []; oracle := [false; true] |} _ _).
  - discriminate.
  - reflexivity.
Defined.

Lemma program_rejecting {U} n ex e (rs : list (user_registration U)) (w0 : World U) :
  rejects_with ex e ->
  rs <> [] ->
  exists w',
    New_register_Await (S n) ex (map registration_of rs) w0
    = Done (length (heap w0)) w'
    /\ rejected_with (length (heap w0))
         (pipeline (error_handlers rs) e (user w0)).1
         (pipeline (error_handlers rs) e (user w0)).2 w'.
Proof.
  intros Hex Hrs. unfold New_register_Await.
  destruct (New_waiting ex w0) as (w1 & H1 & Hw1 & Hu1).
  rewrite (bind_Done _ _ _ _ _ H1). rewrite <- Hu1 in Hw1 |- *.
  destruct (register_all_rejecting n _ _ e rs Hex [] [] w1 Hw1)
    as (w2 & H2 & Hf2).
  rewrite (bind_Done _ _ _ _ _ H2). cbn [app] in Hf2.
  destruct Hf2 as [Hf2 | Hw2].
  - exists w2. split; [| exact Hf2].
    destruct Hf2 as (pr & Hp & _ & _ & Hwg & _).
    unfold Await. now rewrite (bind_Done _ _ _ _ _ (Await_in_zero _ _ pr _ Hp Hwg)).
  - assert (Hu2 : user w2 = user w1) by (destruct Hw2 as (pr & Hw2); tauto).
    rewrite <- Hu2 in Hw2 |- *.
    destruct (goroutine_rejecting n _ _ _ _ e w2 Hw2 Hex) as (w3 & H3 & Hf3).
    exists w3. split; [| exact Hf3].
    destruct Hw2 as (pr & Hp & _ & _ & _ & _ & _ & Hwg & Hrd & _).
    destruct Hf3 as (pr3 & Hp3 & _ & _ & Hwg3 & _).
    assert (Hne : wg pr <> 0).
    { rewrite Hwg, length_handlers. destruct rs; [congruence | cbn [length]; lia]. }
    unfold Await.
    now rewrite (bind_Done _ _ _ _ _
                   (Await_in_runs _ _ pr pr3 w2 w3 Hp Hne Hrd H3 Hp3 Hwg3)).
Qed.

(** X5: the same program with an executor that calls reject(e).  For
    every schedule, with at least one handler registered, Await returns,
    the promise is rejected, its error and the state of the user are those
    of the rejection handlers called once each, in the order of
    registration, from e, and no fulfillment handler has run. *)
Theorem rejection_runs_the_handlers_in_order {U} n e cs
    (rs : list (user_registration U)) (w0 : World U) :
  rs <> [] ->
  exists w',
    New_register_Await (S n) {| calls := call_reject e :: cs; finish := returns |}
      (map registration_of rs) w0 = Done (length (heap w0)) w'
    /\ rejected_with (length (heap w0))
         (pipeline (error_handlers rs) e (user w0)).1
         (pipeline (error_handlers rs) e (user w0)).2 w'.
Proof.
  apply program_rejecting. left. now exists cs.
Qed.

Lemma rejection_runs_the_handlers_in_order_witness :
  exists w',
    New_register_Await 1
      {| calls := [call_reject (errors_New "very serious error")];
         finish := returns |}
      (map registration_of
         [on_value (add_int 1);
          on_error (returns_error (errors_New "dealing with error"));
          on_error (returns_error None)])
      {| heap := []; ready := []; user := []; oracle := [false; true] |}
    = Done 0%nat w'
    /\ rejected_with 0%nat None
         [VString "very serious error"; VString "dealing with error"] w'.
Proof.
  refine (rejection_runs_the_handlers_in_order 0 (errors_New "very serious error") []
            [on_value (add_int 1);
             on_error (returns_error (errors_New "dealing with error"));
             on_error (returns_error None)]
            {| heap := []; ready := []; user := []; oracle := [false; true] |} _).
  discriminate.
Defined.

(** X12: the same program with an executor that panics with a string
    before it calls resolve or reject.  For every schedule, with at least
    one handler registered, Await returns and the promise is rejected;
    the rejection handlers have been called once each, in the order of
    registration, from the error made of the string, and no fulfillment
    handler has run. *)
Theorem panic_runs_the_rejection_handlers {U} n text
    (rs : list (user_registration U)) (w0 : World U) :
  rs <> [] ->
  exists w',
    New_register_Await (S n) {| calls := []; finish := panics (VString text) |}
      (map registration_of rs) w0 = Done (length (heap w0)) w'
    /\ rejected_with (length (heap w0))
         (pipeline (error_handlers rs) (errors_New text) (user w0)).1
         (pipeline (error_handlers rs) (errors_New text) (user w0)).2 w'.
Proof.
  apply program_rejecting. right. now exists text.
Qed.

Lemma panic_runs_the_rejection_handlers_witness :
  exists w',
    New_register_Await 1 {| calls := []; finish := panics (VString "much panic") |}
      (map registration_of
         [on_value (add_int 1); on_error (returns_error None)])
      {| heap := []; ready := []; user := []; oracle := [true] |}
    = Done 0%nat w'
    /\ rejected_with 0%nat None [VString "much panic"] w'.
Proof.
  refine (panic_runs_the_rejection_handlers 0 "much panic"
            [on_value (add_int 1); on_error (returns_error None)]
            {| heap := []; ready := []; user := []; oracle := [true] |} _).
  discriminate.
Defined.

Section Deadlock.
Context {U : Type}.
Implicit Types (w : World U) (pr : Promise U).

Lemma bind_Blocks {A B} (m : M U A) (k : A -> M U B) w w' :
  m w = Blocks w' -> bind m k w = Blocks w'.
Proof. intros H. unfold bind. now rewrite H. Qed.

Lemma Then_locked p pr h w :
  heap w !! p = Some pr -> mutex pr = true -> Then p h w = Blocks w.
Proof.
  intros H Hm. unfold Then. apply bind_Blocks.
  unfold Lock. now rewrite H, Hm.
Qed.

Lemma Catch_locked fuel p pr h w :
  heap w !! p = Some pr -> mutex pr = true -> Catch fuel p h w = Blocks w.
Proof.
  intros H Hm. unfold Catch. apply bind_Blocks.
  unfold Lock. now rewrite H, Hm.
Qed.

Lemma resolve_locked rg fuel p pr v w :
  heap w !! p = Some pr -> mutex pr = true -> resolve_in rg fuel p v w = Blocks w.
Proof.
  intros H Hm. unfold resolve_in. apply bind_Blocks.
  unfold Lock. now rewrite H, Hm.
Qed.

Lemma reject_locked fuel p pr e w :
  heap w !! p = Some pr -> mutex pr = true -> reject fuel p e w = Blocks w.
Proof.
  intros H Hm. unfold reject. apply bind_Blocks.
  unfold Lock. now rewrite H, Hm.
Qed.

End Deadlock.

(** X6: a fulfillment handler that returns the promise it is registered
    on deadlocks resolve.  resolve holds the mutex of the promise while it
    runs the handlers, and the flattening block calls Then on the value
    returned, which waits for that mutex.  The promise is left locked and
    fulfilled, with the pointer as its result and no unit of the WaitGroup
    given back, so that Await on it never returns either. *)
Theorem returning_the_promise_itself_deadlocks {U} fuel p (pr : Promise U) g rest v w :
  heap w !! p = Some pr -> mutex pr = false -> state pr = pending ->
  then_ pr = plain_then g :: rest ->
  (g v (user w)).1 = VPromise p ->
  is_ready p w = false ->
  exists w',
    resolve fuel p v w = Blocks w'
    /\ heap w' !! p
       = Some (set_isRejected false
                 (set_result (VPromise p)
                    (set_doneCounter 0
                       (set_state fulfilled (set_mutex true pr)))))
    /\ user w' = (g v (user w)).2
    /\ (wg pr <> 0 -> Await fuel p w' = Blocks w').
Proof.
  intros H Hm Hs Ht Hg Hr. unfold resolve, resolve_in.
  erewrite step_Lock by lk. erewrite step_deref by lk.
  cbn [state set_mutex]. rewrite Hs. cbn [is_pending negb].
  do 3 step1. step1. rewrite Ht. cbn [resolve_loop]. norm.
  step1. norm. rewrite step_plain_then. norm. cbn [result set_result set_doneCounter set_state set_mutex user set_user put set_heap]. rewrite Hg.
  do 2 step1. unfold flatten. norm. step1. norm.
  skip_yield.
  eexists. split; [| split; [| split]].
  - norm. apply bind_Blocks. eapply Then_locked; [lk2 | reflexivity].
  - lkeq.
  - reflexivity.
  - intros Hw. unfold Await, Await_in. erewrite step_deref by lk2. fld.
    destruct (Z.eqb_spec (wg pr) 0) as [He | _]; [contradiction |].
    unfold is_ready. cbn [ready put set_heap set_user set_oracle].
    unfold is_ready in Hr. now rewrite Hr.
Qed.

Lemma returning_the_promise_itself_deadlocks_witness :
  exists w',
    resolve 0 0%nat (VInt 1)
      (set_ready []
         (example_world
            (example_promise (does (call_resolve (VInt 1)))
               [plain_then (returns_promise 0%nat)] []) []))
    = Blocks w'
    /\ heap w' !! 0%nat
       = Some (set_isRejected false
                 (set_result (VPromise 0%nat)
                    (set_doneCounter 0
                       (set_state fulfilled
                          (set_mutex true
                             (example_promise (does (call_resolve (VInt 1)))
                                [plain_then (returns_promise 0%nat)] []))))))
    /\ user w' = [VInt 1]
    /\ (1 <> 0 -> Await 0 0%nat w' = Blocks w').
Proof.
  refine (returning_the_promise_itself_deadlocks 0 0%nat
            (example_promise (does (call_resolve (VInt 1)))
               [plain_then (returns_promise 0%nat)] [])
            (returns_promise 0%nat) [] (VInt 1)
            (set_ready [] (example_world _ [])) _ _ _ _ _ _);
    reflexivity.
Defined.

Section AwaitingAll.
Context {U : Type}.
Implicit Types (w : World U) (pr : Promise U).

Lemma never_promise_stays_plain (gs : list (value -> U -> value * U)) :
  Forall never_promise gs -> forall v u, stays_plain gs v u = true.
Proof.
  induction 1 as [| g gs Hg _ IH]; intros v u; [reflexivity |].
  cbn [stays_plain]. now rewrite Hg, IH.
Qed.

Lemma is_ready_filter_ne p q (r : list addr) :
  q <> p ->
  existsb (Nat.eqb q) (List.filter (fun a => negb (Nat.eqb p a)) r)
  = existsb (Nat.eqb q) r.
Proof.
  intros Hne. induction r as [| a r IH]; [reflexivity |].
  cbn [List.filter existsb].
  destruct (Nat.eqb_spec p a) as [-> | Hpa]; cbn [negb existsb].
  - destruct (Nat.eqb_spec q a) as [-> | _]; [contradiction | exact IH].
  - now rewrite IH.
Qed.

Lemma goroutine_settles n p w :
  owed p w ->
  exists w', run_goroutine (S n) p w = Done tt w'
    /\ quiet p w'
    /\ (forall q, q <> p ->
          heap w' !! q = heap w !! q /\ is_ready q w' = is_ready q w).
Proof.
  intros (ex & gs & fs & (pr & Hp & Hs & Hm & He & Ht & Hc & Hw & Hr & _)
          & (c & cs & ->) & Hgs & _).
  destruct c as [v | e].
  - assert (Hres := resolve_in_plain (run_goroutine n) n p pr gs v
              (set_ready (List.filter (fun a => negb (Nat.eqb p a)) (ready w)) w)
              Hp Hm Hs Ht (never_promise_stays_plain gs Hgs _ _)).
    rewrite Hc, length_map in Hres. specialize (Hres ltac:(lia)).
    eexists. split; [| split].
    + eapply (goroutine_resolves n p pr v cs w _ _ Hp He Hres).
      * eapply lookup_put. exact Hp.
      * exact Hm.
      * fld. discriminate.
    + eexists. split; [eapply lookup_put; exact Hp |]. fld.
      repeat split; try assumption; try lia; try discriminate.
      apply not_ready_after.
    + intros q Hq. split.
      * rewrite lookup_put_ne by (apply not_eq_sym; exact Hq). reflexivity.
      * unfold is_ready. cbn [ready put set_heap set_user set_ready].
        now apply is_ready_filter_ne.
  - assert (Hres := reject_user n p pr fs e
              (set_ready (List.filter (fun a => negb (Nat.eqb p a)) (ready w)) w)
              Hp Hm Hs Hc).
    rewrite Ht, length_map in Hres. specialize (Hres ltac:(lia)).
    eexists. split; [| split].
    + eapply (goroutine_rejects n p pr e cs w _ _ Hp He Hres).
      * eapply lookup_put. exact Hp.
      * exact Hm.
      * fld. discriminate.
    + eexists. split; [eapply lookup_put; exact Hp |]. fld.
      repeat split; try assumption; try lia; try discriminate.
      apply not_ready_after.
    + intros q Hq. split.
      * rewrite lookup_put_ne by (apply not_eq_sym; exact Hq). reflexivity.
      * unfold is_ready. cbn [ready put set_heap set_user set_ready].
        now apply is_ready_filter_ne.
Qed.

Lemma owed_frame q w w' :
  heap w' !! q = heap w !! q -> is_ready q w' = is_ready q w ->
  owed q w -> owed q w'.
Proof.
  intros Hh Hr (ex & gs & fs & (pr & Hp & Hs & Hm & He & Ht & Hc & Hw & Hrd & _)
                & Hex & Hgs & Hn).
  exists ex, gs, fs. repeat split; try assumption.
  exists pr. rewrite Hh, Hr. repeat split; assumption.
Qed.

Lemma quiet_frame q w w' :
  heap w' !! q = heap w !! q -> is_ready q w' = is_ready q w ->
  quiet q w -> quiet q w'.
Proof.
  intros Hh Hr (pr & Hp & H). exists pr. rewrite Hh, Hr. now split.
Qed.

Lemma Await_settles n p w :
  owed p w \/ quiet p w ->
  exists w', Await (S n) p w = Done tt w'
    /\ quiet p w'
    /\ (forall q, quiet q w -> quiet q w')
    /\ (forall q, owed q w \/ quiet q w -> owed q w' \/ quiet q w').
Proof.
  intros [Ho | Hq].
  - destruct (goroutine_settles n p w Ho) as (w' & Hg & Hq' & Hfr).
    exists w'. split; [| split; [exact Hq' | split]].
    + destruct Ho as (ex & gs & fs & (pr & Hp & _ & _ & _ & _ & _ & Hw & Hrd & _)
                      & _ & _ & Hn).
      destruct Hq' as (pr' & Hp' & _ & _ & Hw' & _).
      apply (Await_in_runs _ _ pr pr' w w' Hp ltac:(lia) Hrd Hg Hp' Hw').
    + intros q Hq. destruct (decide (q = p)) as [-> | Hne]; [exact Hq' |].
      destruct (Hfr q Hne) as [Hh Hr]. now apply (quiet_frame q w w').
    + intros q Hq. destruct (decide (q = p)) as [-> | Hne]; [now right |].
      destruct (Hfr q Hne) as [Hh Hr]. destruct Hq as [Hq | Hq].
      * left. now apply (owed_frame q w w').
      * right. now apply (quiet_frame q w w').
  - exists w. split; [| split; [exact Hq | split; auto]].
    destruct Hq as (pr & Hp & _ & _ & Hw & _).
    now apply (Await_in_zero _ _ pr).
Qed.

Lemma AwaitAll_settles n ps : forall w,
  Forall (fun p => owed p w \/ quiet p w) ps ->
  exists w', AwaitAll (S n) ps w = Done tt w'
    /\ Forall (fun p => quiet p w') ps
    /\ (forall q, quiet q w -> quiet q w').
Proof.
  induction ps as [| p ps IH]; intros w Hall.
  - exists w. split; [reflexivity |]. split; [constructor | auto].
  - apply Forall_cons in Hall. destruct Hall as [Hp Hps].
    destruct (Await_settles n p w Hp) as (w1 & H1 & Hq1 & Hk1 & Hf1).
    destruct (IH w1) as (w2 & H2 & Hq2 & Hk2).
    { eapply Forall_impl; [exact Hps |]. intros q Hq. now apply Hf1. }
    exists w2. cbn [AwaitAll]. rewrite (bind_Done _ _ _ _ _ H1).
    split; [exact H2 |]. split; [| auto].
    constructor; [now apply Hk2 | exact Hq2].
Qed.

End AwaitingAll.

(** X7: AwaitAll returns with every promise settled.  Let each promise of
    the list be either settled with nothing owed, or pending with at least
    one handler of the user registered, its goroutine yet to run an
    executor that calls resolve or reject and returns, and fulfillment
    handlers that return no promise.  Then AwaitAll returns, and every
    promise of the list is settled and unlocked with its counter at zero;
    a promise may be listed more than once. *)
Theorem AwaitAll_settles_every_promise {U} n ps (w : World U) :
  Forall (fun p => owed p w \/ quiet p w) ps ->
  exists w', AwaitAll (S n) ps w = Done tt w' /\ Forall (fun p => quiet p w') ps.
Proof.
  intros H. destruct (AwaitAll_settles n ps w H) as (w' & H1 & H2 & _).
  now exists w'.
Qed.

Lemma AwaitAll_settles_every_promise_witness :
  exists w', AwaitAll 1 [0%nat; 1%nat; 0%nat] two_promises = Done tt w'
    /\ Forall (fun p => quiet p w') [0%nat; 1%nat; 0%nat].
Proof.
  assert (H0 : owed 0%nat two_promises).
  { exists (does (call_resolve (VInt 1))), [add_int 1], [].
    split; [| split; [| split]].
    - eexists. split; [reflexivity |]. repeat split; reflexivity.
    - eexists. eexists. reflexivity.
    - constructor; [| constructor]. intros [] u; reflexivity.
    - discriminate. }
  assert (H1 : owed 1%nat two_promises).
  { exists (does (call_reject (errors_New "very serious error"))), [],
      [returns_error None].
    split; [| split; [| split]].
    - eexists. split; [reflexivity |]. repeat split; reflexivity.
    - eexists. eexists. reflexivity.
    - constructor.
    - discriminate. }
  apply (AwaitAll_settles_every_promise 0 [0%nat; 1%nat; 0%nat] two_promises).
  repeat constructor; assumption.
Defined.

Lemma AwaitAll_app {U} fuel ps qs : forall w : World U,
  AwaitAll fuel (ps ++ qs) w = (AwaitAll fuel ps ;;; AwaitAll fuel qs) w.
Proof.
  induction ps as [| p ps IH]; intros w.
  - reflexivity.
  - cbn [app AwaitAll]. rewrite bind_assoc. unfold bind.
    destruct (Await fuel p w) as [[] w1 | w1 | msg |]; try reflexivity.
    rewrite IH. reflexivity.
Qed.

Lemma AwaitAll_zero {U} fuel ps (w : World U) :
  Forall (fun p => exists pr, heap w !! p = Some pr /\ wg pr = 0) ps ->
  AwaitAll fuel ps w = Done tt w.
Proof.
  induction 1 as [| p ps (pr & Hp & Hw) _ IH]; [reflexivity |].
  cbn [AwaitAll]. unfold Await.
  now rewrite (bind_Done _ _ _ _ _ (Await_in_zero _ _ pr _ Hp Hw)).
Qed.

(** X8: AwaitAll awaits the promises one after the other, in the order
    of the list.  Awaiting two lists appended is awaiting the first and
    then the second.  When the counter of every promise of the list is
    zero, AwaitAll returns at once and changes nothing, whether the
    promises are settled or not.  When such promises are followed by one
    whose counter is not zero and whose goroutine has already run,
    AwaitAll blocks there and changes nothing, whatever comes after it in
    the list. *)
Theorem AwaitAll_awaits_in_order {U} fuel ps (w : World U) :
  (forall qs,
     AwaitAll fuel (ps ++ qs) w = (AwaitAll fuel ps ;;; AwaitAll fuel qs) w)
  /\ (Forall (fun p => exists pr, heap w !! p = Some pr /\ wg pr = 0) ps ->
      AwaitAll fuel ps w = Done tt w
      /\ forall p pr qs,
           heap w !! p = Some pr -> wg pr <> 0 -> is_ready p w = false ->
           AwaitAll fuel (ps ++ p :: qs) w = Blocks w).
Proof.
  split; [intros qs; apply AwaitAll_app |].
  intros Hall. pose proof (AwaitAll_zero fuel ps w Hall) as Hz.
  split; [exact Hz |].
  intros p pr qs Hp Hw Hr.
  rewrite AwaitAll_app, (bind_Done _ _ _ _ _ Hz).
  cbn [AwaitAll]. apply bind_Blocks. unfold Await, Await_in.
  rewrite (step_deref _ _ _ _ Hp).
  destruct (Z.eqb_spec (wg pr) 0) as [He | _]; [contradiction |].
  now rewrite Hr.
Qed.

Lemma AwaitAll_awaits_in_order_witness :
  AwaitAll 1 ([0%nat] ++ 1%nat :: [0%nat])
    {| heap := [example_promise (does (call_resolve (VInt 1))) [] [];
                example_promise {| calls := []; finish := hangs |}
                  [plain_then passes_on] []];
       ready := []; user := []; oracle := [] |}
  = Blocks
      {| heap := [example_promise (does (call_resolve (VInt 1))) [] [];
                  example_promise {| calls := []; finish := hangs |}
                    [plain_then passes_on] []];
         ready := []; user := []; oracle := [] |}.
Proof.
  refine (proj2 (proj2 (AwaitAll_awaits_in_order 1 [0%nat]
            {| heap := [example_promise (does (call_resolve (VInt 1))) [] [];
                        example_promise {| calls := []; finish := hangs |}
                          [plain_then passes_on] []];
               ready := []; user := []; oracle := [] |}) _)
          1%nat
          (example_promise {| calls := []; finish := hangs |}
             [plain_then passes_on] [])
          [0%nat] _ _ _).
  - constructor; [| constructor]. eexists. split; reflexivity.
  - reflexivity.
  - cbn. lia.
  - reflexivity.
Defined.

Section Nested.
Context {U : Type}.
Implicit Types (w : World U) (pr : Promise U).

Ltac nested_done :=
  eexists; split; [lk2 |]; fldn; repeat split; first [reflexivity | lia].

Lemma flatten_resolved_nested n fuel p q pr v cs w :
  p <> q -> heap w !! p = Some pr ->
  heap w !! q
  = Some (new_promise {| calls := call_resolve v :: cs; finish := returns |}) ->
  is_ready q w = true ->
  exists w',
    flatten (run_goroutine (S n)) fuel p q w = Done false w'
    /\ heap w' !! p = Some (set_result v (set_isRejected false pr))
    /\ user w' = user w
    /\ emptied q w'.
Proof.
  intros Hne Hp Hq Hr. unfold flatten.
  set (e := {| calls := call_resolve v :: cs; finish := returns |}) in *.
  step1.
  destruct (yield_cases (run_goroutine (S n)) q (put p (set_isRejected false pr) w))
    as [(o & Ho & _ & Hy) | (o & Hy)].
  - eassert (Hg : run_goroutine (S n) q
                    (set_oracle o (put p (set_isRejected false pr) w)) = Done tt _).
    { eapply (goroutine_resolves n q (new_promise e) v cs).
      - lk2.
      - reflexivity.
      - apply (resolve_in_plain _ _ _ (new_promise e) []).
        + lk2.
        + reflexivity.
        + reflexivity.
        + reflexivity.
        + reflexivity.
        + fldn. lia.
      - lk2.
      - reflexivity.
      - discriminate. }
    erewrite bind_Done by (rewrite Hy; apply in_background_Done, Hg).
    clear Hy Hg.
    erewrite bind_Done by (eapply Then_fulfilled_flatten; side).
    skip_yield.
    erewrite bind_Done by (eapply Catch_fulfilled; side).
    erewrite bind_Done by (eapply Await_in_zero; [lk2 | fldn; lia]).
    repeat step1.
    unfold ret. eexists. split; [reflexivity |]. split; [| split].
    + lkeq.
    + wsimp. reflexivity.
    + nested_done.
  - rewrite (bind_Done _ _ _ _ _ Hy). clear Hy.
    erewrite bind_Done by (eapply Then_pending; side).
    match goal with
    | |- context [bind (yield ?rg ?q) _ ?W] =>
        destruct (yield_cases rg q W) as [(o' & Ho' & _ & Hy) | (o' & Hy)]
    end.
    + match type of Hy with
      | _ = in_background _ ?W =>
          eassert (Hg : run_goroutine (S n) q W = Done tt _)
            by (eapply (goroutine_continuation n p q _ _ v cs); side)
      end.
      erewrite bind_Done by (rewrite Hy; apply in_background_Done, Hg).
      clear Hy Hg.
      erewrite bind_Done by (eapply Catch_fulfilled; side).
      erewrite bind_Done by (eapply Await_in_zero; [lk2 | fldn; lia]).
      repeat step1.
      unfold ret. eexists. split; [reflexivity |]. split; [| split].
      * lkeq.
      * wsimp. reflexivity.
      * nested_done.
    + rewrite (bind_Done _ _ _ _ _ Hy). clear Hy.
      erewrite bind_Done by (eapply Catch_pending; side).
      match goal with
      | |- context [bind (Await_in ?rg ?q) _ ?W] =>
          eassert (Hg : rg q W = Done tt _)
            by (eapply (goroutine_continuation n p q _ _ v cs); side)
      end.
      erewrite bind_Done
        by (eapply Await_in_runs; [lk2 | fldn; lia | rdy | exact Hg | lk2 | fldn; lia]).
      clear Hg. repeat step1.
      unfold ret. eexists. split; [reflexivity |]. split; [| split].
      * lkeq.
      * wsimp. reflexivity.
      * nested_done.
Qed.

Lemma flatten_rejected_nested n fuel p q pr fs err cs w :
  p <> q -> heap w !! p = Some pr ->
  heap w !! q
  = Some (new_promise {| calls := call_reject err :: cs; finish := returns |}) ->
  is_ready q w = true ->
  catch pr = map user_catch fs ->
  Z.of_nat (Z.to_nat (Z.of_nat (length (then_ pr)) - doneCounter pr))
    + Z.of_nat (length fs) <= wg pr ->
  exists w',
    flatten (run_goroutine (S (S n))) (S fuel) p q w = Done true w'
    /\ heap w' !! p
       = Some (set_wg (wg pr
                       - Z.of_nat (Z.to_nat (Z.of_nat (length (then_ pr)) - doneCounter pr))
                       - Z.of_nat (length fs))
                 (set_isRejected true pr))
    /\ user w' = (pipeline fs err (user w)).2
    /\ charged q (pipeline fs err (user w)).1 w'.
Proof.
  intros Hne Hp Hq Hr Hc Hn. unfold flatten.
  set (e := {| calls := call_reject err :: cs; finish := returns |}) in *.
  step1.
  destruct (yield_cases (run_goroutine (S (S n))) q (put p (set_isRejected false pr) w))
    as [(o & Ho & _ & Hy) | (o & Hy)].
  - match type of Hy with
    | _ = in_background _ ?W =>
        eassert (Hg : run_goroutine (S (S n)) q W = Done tt _)
    end.
    { eapply (goroutine_rejects (S n) q (new_promise e) err cs).
      - lk2.
      - reflexivity.
      - apply (reject_user _ _ (new_promise e) []).
        + lk2.
        + reflexivity.
        + reflexivity.
        + reflexivity.
        + fldn. lia.
      - lk2.
      - reflexivity.
      - discriminate. }
    erewrite bind_Done by (rewrite Hy; apply in_background_Done, Hg).
    clear Hy Hg.
    erewrite bind_Done by (eapply Then_rejected; side).
    skip_yield.
    erewrite bind_Done by (eapply (Catch_rejected_flatten _ p q _ _ fs); side).
    erewrite bind_Done by (eapply Await_in_zero; [lk2 | fldn; lia]).
    repeat step1.
    unfold ret. eexists. split; [reflexivity |]. split; [| split].
    + lkeq.
    + wsimp. fldn. wsimp. reflexivity.
    + nested_done.
  - rewrite (bind_Done _ _ _ _ _ Hy). clear Hy.
    erewrite bind_Done by (eapply Then_pending; side).
    match goal with
    | |- context [bind (yield ?rg ?q) _ ?W] =>
        destruct (yield_cases rg q W) as [(o' & Ho' & _ & Hy) | (o' & Hy)]
    end.
    + match type of Hy with
      | _ = in_background _ ?W =>
          eassert (Hg : run_goroutine (S (S n)) q W = Done tt _)
      end.
      { eapply (goroutine_rejects (S n) q _ err cs).
        - lk2.
        - reflexivity.
        - eapply (reject_user _ _ _ []).
          + lk2.
          + reflexivity.
          + reflexivity.
          + reflexivity.
          + fldn. lia.
        - lk2.
        - reflexivity.
        - discriminate. }
      erewrite bind_Done by (rewrite Hy; apply in_background_Done, Hg).
      clear Hy Hg.
      erewrite bind_Done by (eapply (Catch_rejected_flatten _ p q _ _ fs); side).
      erewrite bind_Done by (eapply Await_in_zero; [lk2 | fldn; lia]).
      repeat step1.
      unfold ret. eexists. split; [reflexivity |]. split; [| split].
      * lkeq.
      * wsimp. fldn. wsimp. reflexivity.
      * nested_done.
    + rewrite (bind_Done _ _ _ _ _ Hy). clear Hy.
      erewrite bind_Done by (eapply Catch_pending; side).
      match goal with
      | |- context [bind (Await_in ?rg ?q) _ ?W] =>
          eassert (Hg : rg q W = Done tt _)
      end.
      { eapply (goroutine_rejects (S n) q _ err cs).
        - lk2.
        - reflexivity.
        - eapply (reject_continuation _ p q _ _ fs); side.
        - lk2.
        - reflexivity.
        - discriminate. }
      erewrite bind_Done
        by (eapply Await_in_runs; [lk2 | fldn; lia | rdy | exact Hg | lk2 | fldn; lia]).
      clear Hg. repeat step1.
      unfold ret. eexists. split; [reflexivity |]. split; [| split].
      * lkeq.
      * wsimp. reflexivity.
      * nested_done.
Qed.

Lemma resolve_loop_spawn_resolved_nested n fuel p pr f u v cs rest w :
  heap w !! p = Some pr ->
  f (result pr) (user w)
  = (ret_New {| calls := call_resolve v :: cs; finish := returns |}, u) ->
  1 <= wg pr ->
  exists w',
    resolve_loop (run_goroutine (S n)) fuel p (user_then f :: rest) w
    = resolve_loop (run_goroutine (S n)) fuel p rest w'
    /\ heap w' !! p
       = Some (set_doneCounter (doneCounter pr + 1)
                 (set_wg (wg pr - 1)
                    (set_result v (set_isRejected false pr))))
    /\ user w' = u
    /\ emptied (length (heap w)) w'.
Proof.
  intros Hp Hf Hn. cbn [resolve_loop].
  step1. erewrite step_user_then_New by exact Hf.
  destruct (after_New p pr
              {| calls := call_resolve v :: cs; finish := returns |} u w Hp)
    as (Hne & Hp0 & Hq0 & Hr0 & Hu0).
  cbv zeta in Hp0, Hq0, Hr0, Hu0.
  set (q := length (heap w)) in *.
  set (w0 := set_ready _ _) in *. clearbody w0.
  do 2 step1.
  destruct (flatten_resolved_nested n fuel p q (set_result (VPromise q) pr) v cs
              (put p (set_result (VPromise q) pr) w0))
    as (w1 & Hfl & Hp1 & Hu1 & (qr & Hq1 & Hqr)); [exact Hne | lk2 | lk2 | rdy |].
  rewrite (bind_Done _ _ _ _ _ Hfl). cbv iota.
  repeat step1.
  eexists. split; [reflexivity |]. split; [| split].
  - lkeq.
  - wsimp. rewrite Hu1. wsimp. exact Hu0.
  - exists qr. split; [lk2 | exact Hqr].
Qed.

Lemma resolve_loop_spawn_rejected_nested n fuel p pr f u err cs rest fs w :
  heap w !! p = Some pr ->
  f (result pr) (user w)
  = (ret_New {| calls := call_reject err :: cs; finish := returns |}, u) ->
  catch pr = map user_catch fs ->
  Z.of_nat (Z.to_nat (Z.of_nat (length (then_ pr)) - doneCounter pr))
    + Z.of_nat (length fs) <= wg pr ->
  exists w',
    resolve_loop (run_goroutine (S (S n))) (S fuel) p (user_then f :: rest) w
    = Done true w'
    /\ (exists pr', heap w' !! p = Some pr')
    /\ charged (length (heap w)) (pipeline fs err u).1 w'.
Proof.
  intros Hp Hf Hc Hn. cbn [resolve_loop].
  step1. erewrite step_user_then_New by exact Hf.
  destruct (after_New p pr
              {| calls := call_reject err :: cs; finish := returns |} u w Hp)
    as (Hne & Hp0 & Hq0 & Hr0 & Hu0).
  cbv zeta in Hp0, Hq0, Hr0, Hu0.
  set (q := length (heap w)) in *.
  set (w0 := set_ready _ _) in *. clearbody w0.
  do 2 step1.
  destruct (flatten_rejected_nested n fuel p q (set_result (VPromise q) pr) fs err cs
              (put p (set_result (VPromise q) pr) w0))
    as (w1 & Hfl & Hp1 & Hu1 & Hq1);
    [exact Hne | lk2 | lk2 | rdy | exact Hc | exact Hn |].
  rewrite (bind_Done _ _ _ _ _ Hfl). cbv iota.
  unfold ret. eexists. split; [reflexivity |]. split.
  - eexists. exact Hp1.
  - revert Hq1. wsimp. now rewrite Hu0.
Qed.

End Nested.

(** X9: flattening empties the nested promise.  When a fulfillment
    handler called by resolve returns a new promise whose executor
    resolves it with [v'], then, whenever the scheduler runs that
    executor, resolve returns and the nested promise is fulfilled with a
    nil result: the closure that resolve registered on it has passed [v']
    to the outer promise and returned nil. *)
Theorem flattening_empties_the_nested_promise {U} n p (pr : Promise U)
    pre f post u v v' cs w :
  heap w !! p = Some pr -> mutex pr = false -> state pr = pending ->
  then_ pr = map plain_then pre ++ user_then f :: map plain_then post ->
  stays_plain pre v (user w) = true ->
  stays_plain post v' u = true ->
  f (pipeline pre v (user w)).1 (pipeline pre v (user w)).2
  = (ret_New {| calls := call_resolve v' :: cs; finish := returns |}, u) ->
  Z.of_nat (length (then_ pr)) + Z.of_nat (length (catch pr)) <= wg pr ->
  exists w',
    resolve (S n) p v w = Done tt w'
    /\ emptied (length (heap w)) w'.
Proof.
  intros Hp Hm Hs Ht Hpre Hpost Hf Hn.
  assert (Hlen : length (then_ pr) = (length pre + S (length post))%nat).
  { rewrite Ht, length_app. cbn [length]. now rewrite !length_map. }
  assert (Hne : p <> length (heap w)) by (apply lookup_lt_Some in Hp; lia).
  run_first.
  unfold resolve, resolve_in.
  do 2 step1. rewrite Hs. cbn [is_pending negb].
  do 4 step1. rewrite Ht.
  norm.
  erewrite bind_cong
    by (apply resolve_loop_plain; first [lk2 | exact Hpre | fld; lia]).
  fld. wsimp.
  match goal with
  | |- context [bind (resolve_loop _ _ _ _) _ (put p ?r ?W)] =>
      destruct (resolve_loop_spawn_resolved_nested n (S n) p r f u v' cs
                  (map plain_then post) (put p r W))
        as (w1 & Hl & Hp1 & Hu1 & (qr & Hq1 & Hqr));
      [ lk2 | fld; wsimp; exact Hf | fld; lia | ]
  end.
  rewrite (bind_cong _ _ _ _ _ Hl). clear Hl.
  rewrite <- (app_nil_r (map plain_then post)).
  erewrite bind_cong
    by (apply resolve_loop_plain;
        first [exact Hp1 | fld; rewrite Hu1; exact Hpost | fld; lia]).
  cbn [resolve_loop]. step1.
  step1.
  erewrite bind_Done by (apply wg_Done_times_spec; [lk2 | fld; lia]).
  step1. subst Q. cbv beta.
  split; [reflexivity |].
  cbn [heap put set_heap set_user] in Hq1. rewrite !length_insert in Hq1.
  exists qr. split; [lk2 | exact Hqr].
Qed.

(** X10: a rejected nested promise takes the error of the outer chain.
    When the promise a handler returned is rejected with [err], the
    rejection handlers of the outer promise run inside the closure that
    resolve registered on the nested promise, and what the last of them
    returns becomes the error of the nested promise, whenever the
    scheduler runs its executor. *)
Theorem nested_promise_takes_the_chain_error {U} n p (pr : Promise U)
    pre f post fs u v err cs w :
  heap w !! p = Some pr -> mutex pr = false -> state pr = pending ->
  then_ pr = map plain_then pre ++ user_then f :: post ->
  catch pr = map user_catch fs ->
  stays_plain pre v (user w) = true ->
  f (pipeline pre v (user w)).1 (pipeline pre v (user w)).2
  = (ret_New {| calls := call_reject err :: cs; finish := returns |}, u) ->
  Z.of_nat (length (then_ pr)) + Z.of_nat (length fs) <= wg pr ->
  exists w',
    resolve (S (S n)) p v w = Done tt w'
    /\ charged (length (heap w)) (pipeline fs err u).1 w'.
Proof.
  intros Hp Hm Hs Ht Hc Hpre Hf Hn.
  assert (Hlen : length (then_ pr) = (length pre + S (length post))%nat).
  { rewrite Ht, length_app. cbn [length]. now rewrite !length_map. }
  assert (Hne : p <> length (heap w)) by (apply lookup_lt_Some in Hp; lia).
  run_first.
  unfold resolve, resolve_in.
  do 2 step1. rewrite Hs. cbn [is_pending negb].
  do 4 step1. rewrite Ht.
  norm.
  erewrite bind_cong
    by (apply resolve_loop_plain; first [lk2 | exact Hpre | fld; lia]).
  fld. wsimp.
  match goal with
  | |- context [bind (resolve_loop _ _ _ _) _ (put p ?r ?W)] =>
      destruct (resolve_loop_spawn_rejected_nested n (S n) p r f u err cs post fs
                  (put p r W))
        as (w1 & Hl & (pr1 & Hp1) & (qr & Hq1 & Hqr));
      [ lk2 | fld; wsimp; exact Hf | fld; exact Hc | fld; lia | ]
  end.
  rewrite (bind_Done _ _ _ _ _ Hl). clear Hl. cbv iota.
  step1. subst Q. cbv beta.
  split; [reflexivity |].
  cbn [heap put set_heap set_user] in Hq1. rewrite !length_insert in Hq1.
  exists qr. split; [lk2 | exact Hqr].
Qed.

Lemma flattening_empties_the_nested_promise_witness :
  exists w',
    resolve 1 0%nat (VInt 1)
      (example_world
         (example_promise (does (call_resolve (VInt 1)))
            [user_then (returns_New (does (call_resolve (VInt 228))));
             plain_then passes_on] [])
         [false; true])
    = Done tt w'
    /\ emptied 1%nat w'.
Proof.
  exact (flattening_empties_the_nested_promise 0 0%nat
           (example_promise (does (call_resolve (VInt 1)))
              [user_then (returns_New (does (call_resolve (VInt 228))));
               plain_then passes_on] [])
           [] (returns_New (does (call_resolve (VInt 228)))) [passes_on]
           [VInt 1] (VInt 1) (VInt 228) []
           (example_world _ [false; true])
           eq_refl eq_refl eq_refl eq_refl eq_refl eq_refl eq_refl
           ltac:(cbn; lia)).
Defined.

Lemma nested_promise_takes_the_chain_error_witness :
  exists w',
    resolve 2 0%nat (VInt 1)
      (example_world
         (example_promise (does (call_resolve (VInt 1)))
            [user_then (returns_New (does (call_reject (errors_New "ERROR!"))));
             plain_then passes_on]
            [user_catch (returns_error (errors_New "handled"))])
         [true])
    = Done tt w'
    /\ charged 1%nat (errors_New "handled") w'.
Proof.
  exact (nested_promise_takes_the_chain_error 0 0%nat
           (example_promise (does (call_resolve (VInt 1)))
              [user_then (returns_New (does (call_reject (errors_New "ERROR!"))));
               plain_then passes_on]
              [user_catch (returns_error (errors_New "handled"))])
           [] (returns_New (does (call_reject (errors_New "ERROR!"))))
           [plain_then passes_on]
           [returns_error (errors_New "handled")]
           [VInt 1] (VInt 1) (errors_New "ERROR!") []
           (example_world _ [true])
           eq_refl eq_refl eq_refl eq_refl eq_refl eq_refl eq_refl
           ltac:(cbn; lia)).
Defined.

Section Unsettled.
Context {U : Type}.
Implicit Types (w : World U) (pr : Promise U).

Lemma idle_goroutine n q qr w :
  heap w !! q = Some qr -> idle (executor qr) = true ->
  in_background (run_goroutine (S n) q) w
  = Done tt (set_ready (List.filter (fun a => negb (Nat.eqb q a)) (ready w)) w).
Proof.
  intros Hq Hi. unfold in_background. rewrite (run_goroutine_S _ _ _ _ Hq).
  unfold idle in Hi.
  destruct (calls (executor qr)); [| discriminate].
  destruct (finish (executor qr)); try discriminate; reflexivity.
Qed.

Lemma Await_in_not_ready rg q qr w :
  heap w !! q = Some qr -> wg qr <> 0 -> is_ready q w = false ->
  Await_in rg q w = Blocks w.
Proof.
  intros Hq Hw Hr. unfold Await_in. erewrite step_deref by exact Hq.
  destruct (Z.eqb_spec (wg qr) 0) as [He | _]; [contradiction |].
  now rewrite Hr.
Qed.

Lemma Await_in_still_owed rg q qr qr' w w' :
  heap w !! q = Some qr -> wg qr <> 0 -> is_ready q w = true ->
  in_background (rg q) w = Done tt w' ->
  heap w' !! q = Some qr' -> wg qr' <> 0 ->
  Await_in rg q w = Blocks w'.
Proof.
  intros Hq Hw Hr Hg Hq' Hw'. unfold Await_in. erewrite step_deref by exact Hq.
  destruct (Z.eqb_spec (wg qr) 0) as [He | _]; [contradiction |].
  rewrite Hr. rewrite (bind_Done _ _ _ _ _ Hg).
  erewrite step_deref by exact Hq'.
  destruct (Z.eqb_spec (wg qr') 0) as [He | _]; [contradiction |].
  reflexivity.
Qed.

Lemma flatten_unsettled n fuel p q pr ex w :
  p <> q -> heap w !! p = Some pr ->
  heap w !! q = Some (new_promise ex) -> idle ex = true ->
  exists w',
    flatten (run_goroutine (S n)) fuel p q w = Blocks w'
    /\ heap w' !! p = Some (set_isRejected false pr)
    /\ user w' = user w.
Proof.
  intros Hne Hp Hq Hi. unfold flatten.
  step1.
  destruct (yield_cases (run_goroutine (S n)) q (put p (set_isRejected false pr) w))
    as [(o & Ho & _ & Hy) | (o & Hy)].
  - erewrite bind_Done
      by (rewrite Hy; eapply (idle_goroutine n q (new_promise ex)); [lk2 | exact Hi]).
    clear Hy.
    erewrite bind_Done by (eapply Then_pending; side).
    skip_yield.
    erewrite bind_Done by (eapply Catch_pending; side).
    erewrite bind_Blocks by (eapply Await_in_not_ready; [lk2 | fldn; lia | rdy]).
    eexists. split; [reflexivity |]. split; [lk2 | reflexivity].
  - rewrite (bind_Done _ _ _ _ _ Hy). clear Hy.
    erewrite bind_Done by (eapply Then_pending; side).
    match goal with
    | |- context [bind (yield ?rg ?q) _ ?W] =>
        destruct (yield_cases rg q W) as [(o' & Ho' & Hr' & Hy) | (o' & Hy)]
    end.
    + erewrite bind_Done
        by (rewrite Hy; eapply (idle_goroutine n q); [lk2 | exact Hi]).
      clear Hy.
      erewrite bind_Done by (eapply Catch_pending; side).
      erewrite bind_Blocks by (eapply Await_in_not_ready; [lk2 | fldn; lia | rdy]).
      eexists. split; [reflexivity |]. split; [lk2 | reflexivity].
    + rewrite (bind_Done _ _ _ _ _ Hy). clear Hy.
      erewrite bind_Done by (eapply Catch_pending; side).
      match goal with
      | |- context [bind (Await_in ?rg ?q) _ ?W] =>
          destruct (is_ready q W) eqn:Hrd
      end.
      * erewrite bind_Blocks
          by (eapply Await_in_still_owed;
              [lk2 | fldn; lia | exact Hrd
              | eapply (idle_goroutine n q); [lk2 | exact Hi] | lk2 | fldn; lia]).
        eexists. split; [reflexivity |]. split; [lk2 | reflexivity].
      * erewrite bind_Blocks
          by (eapply Await_in_not_ready; [lk2 | fldn; lia | exact Hrd]).
        eexists. split; [reflexivity |]. split; [lk2 | reflexivity].
Qed.

Lemma Blocks_ex {A} (m : outcome U A) (P : World U -> Prop) :
  match m with Blocks w' => P w' | _ => False end ->
  exists w', m = Blocks w' /\ P w'.
Proof. destruct m as [a' w' | w' | |]; try tauto. intros H. now exists w'. Qed.

Lemma resolve_unsettled n p pr pre f post u v ex w :
  heap w !! p = Some pr -> mutex pr = false -> state pr = pending ->
  then_ pr = map plain_then pre ++ user_then f :: post ->
  stays_plain pre v (user w) = true ->
  f (pipeline pre v (user w)).1 (pipeline pre v (user w)).2 = (ret_New ex, u) ->
  idle ex = true ->
  Z.of_nat (length pre) <= wg pr ->
  exists w',
    resolve (S n) p v w = Blocks w'
    /\ (heap w' !! p
        = Some (set_isRejected false
                  (set_doneCounter (Z.of_nat (length pre))
                     (set_wg (wg pr - Z.of_nat (length pre))
                        (set_result (VPromise (length (heap w)))
                           (set_state fulfilled (set_mutex true pr))))))
        /\ user w' = u).
Proof.
  intros Hp Hm Hs Ht Hpre Hf Hi Hn.
  apply Blocks_ex.
  unfold resolve, resolve_in.
  do 2 step1. rewrite Hs. cbn [is_pending negb].
  do 4 step1. rewrite Ht.
  norm.
  erewrite bind_cong
    by (apply resolve_loop_plain; first [lk2 | exact Hpre | fld; lia]).
  fld. wsimp. cbn [resolve_loop]. norm.
  step1. norm. erewrite step_user_then_New by (fld; wsimp; exact Hf).
  match goal with
  | |- context [set_heap (heap ?W ++ [new_promise ex]) (set_user u ?W)] =>
      destruct (after_New p _ ex u W ltac:(lk2)) as (Hne & Hp0 & Hq0 & Hr0 & Hu0)
  end.
  cbv zeta in Hp0, Hq0, Hr0, Hu0.
  match type of Hq0 with
  | heap ?W0 !! ?q = _ => set (q0 := q) in *; set (w0 := W0) in *
  end.
  clearbody w0.
  do 2 step1. norm.
  match goal with
  | |- context [bind (flatten _ _ _ _) _ (put p ?r ?W)] =>
      destruct (flatten_unsettled n (S n) p q0 r ex (put p r W))
        as (w1 & Hfl & Hp1 & Hu1); [exact Hne | lk2 | lk2 | exact Hi |]
  end.
  rewrite (bind_Blocks _ _ _ _ Hfl).
  split.
  - etransitivity; [exact Hp1 | f_equal].
    subst q0. cbn [heap put set_heap set_user]. rewrite !length_insert.
    apply Promise_ext; fld; first [ reflexivity | lia | congruence ].
  - rewrite Hu1. wsimp. exact Hu0.
Qed.

End Unsettled.

(** X11: a nested promise that never settles blocks resolve for good.
    When a fulfillment handler called by resolve returns a new promise
    whose executor neither calls resolve or reject nor panics, resolve
    waits in Await on that promise under every schedule.  It waits with
    the mutex of the outer promise held: the outer promise is fulfilled
    with the pointer as its result, the handlers after that one are not
    called, and every later Then or Catch on the outer promise blocks. *)
Theorem unsettled_nested_promise_blocks_resolve {U} n p (pr : Promise U)
    pre f post u v ex w :
  heap w !! p = Some pr -> mutex pr = false -> state pr = pending ->
  then_ pr = map plain_then pre ++ user_then f :: post ->
  stays_plain pre v (user w) = true ->
  f (pipeline pre v (user w)).1 (pipeline pre v (user w)).2 = (ret_New ex, u) ->
  idle ex = true ->
  Z.of_nat (length pre) <= wg pr ->
  exists w' pr',
    resolve (S n) p v w = Blocks w'
    /\ heap w' !! p = Some pr'
    /\ mutex pr' = true
    /\ state pr' = fulfilled
    /\ result pr' = VPromise (length (heap w))
    /\ wg pr' = wg pr - Z.of_nat (length pre)
    /\ user w' = u
    /\ (forall h, Then p h w' = Blocks w')
    /\ (forall fuel h, Catch fuel p h w' = Blocks w').
Proof.
  intros Hp Hm Hs Ht Hpre Hf Hi Hn.
  destruct (resolve_unsettled n p pr pre f post u v ex w Hp Hm Hs Ht Hpre Hf Hi Hn)
    as (w' & Hr & Hp' & Hu').
  exists w'. eexists. split; [exact Hr |]. split; [exact Hp' |].
  repeat split; try reflexivity; try assumption.
  - intros h. now apply (Then_locked p _ h w' Hp').
  - intros fuel h. now apply (Catch_locked fuel p _ h w' Hp').
Qed.

Lemma unsettled_nested_promise_blocks_resolve_witness :
  exists w' pr',
    resolve 1 0%nat (VInt 1)
      (example_world
         (example_promise (does (call_resolve (VInt 1)))
            [user_then (returns_New {| calls := []; finish := returns |});
             plain_then passes_on] [])
         [false; true])
    = Blocks w'
    /\ heap w' !! 0%nat = Some pr'
    /\ mutex pr' = true
    /\ state pr' = fulfilled
    /\ result pr' = VPromise 1%nat
    /\ wg pr' = 2 - 0
    /\ user w' = [VInt 1]
    /\ (forall h, Then 0%nat h w' = Blocks w')
    /\ (forall fuel h, Catch fuel 0%nat h w' = Blocks w').
Proof.
  exact (unsettled_nested_promise_blocks_resolve 0 0%nat
           (example_promise (does (call_resolve (VInt 1)))
              [user_then (returns_New {| calls := []; finish := returns |});
               plain_then passes_on] [])
           [] (returns_New {| calls := []; finish := returns |})
           [plain_then passes_on]
           [VInt 1] (VInt 1) {| calls := []; finish := returns |}
           (example_world _ [false; true])
           eq_refl eq_refl eq_refl eq_refl eq_refl eq_refl eq_refl
           ltac:(cbn; lia)).
Defined.

(** X13: the mutex of a promise excludes every call that changes it.
    While the mutex is held, Then, Catch, resolve and reject on the
    promise wait at Lock and change nothing.  Await takes no lock: on a
    locked promise whose counter is zero it returns at once. *)
Theorem held_mutex_blocks_every_call {U} fuel p (pr : Promise U) w :
  heap w !! p = Some pr -> mutex pr = true ->
  (forall h, Then p h w = Blocks w)
  /\ (forall h, Catch fuel p h w = Blocks w)
  /\ (forall v, resolve fuel p v w = Blocks w)
  /\ (forall e, reject fuel p e w = Blocks w)
  /\ (wg pr = 0 -> Await fuel p w = Done tt w).
Proof.
  intros Hp Hm. repeat split.
  - intros h. now apply (Then_locked p pr).
  - intros h. now apply (Catch_locked fuel p pr).
  - intros v. now apply (resolve_locked _ fuel p pr).
  - intros e. now apply (reject_locked fuel p pr).
  - intros Hw. now apply (Await_in_zero _ p pr).
Qed.

Lemma held_mutex_blocks_every_call_witness :
  resolve 1 0%nat (VInt 2)
    (example_world
       (set_mutex true (example_promise (does (call_resolve (VInt 1))) [] [])) [])
  = Blocks
      (example_world
         (set_mutex true (example_promise (does (call_resolve (VInt 1))) [] [])) []).
Proof.
  refine (proj1 (proj2 (proj2 (held_mutex_blocks_every_call 1 0%nat
            (set_mutex true (example_promise (does (call_resolve (VInt 1))) [] []))
            (example_world _ []) _ _))) (VInt 2)).
  - reflexivity.
  - reflexivity.
Defined.

(** X14: resolve does not look at the value it is given.  A pointer to a
    promise passed to resolve is stored as the result and handed to the
    first handler as it is: no closure is registered on that promise, the
    scheduler is not consulted, and no other promise changes.  Only the
    values that handlers return are flattened. *)
Theorem resolution_is_not_flattened {U} fuel p q (pr : Promise U) gs w :
  heap w !! p = Some pr -> mutex pr = false -> state pr = pending ->
  then_ pr = map plain_then gs ->
  stays_plain gs (VPromise q) (user w) = true ->
  Z.of_nat (length gs) + Z.of_nat (length (catch pr)) <= wg pr ->
  exists w' pr',
    resolve fuel p (VPromise q) w = Done tt w'
    /\ heap w' !! p = Some pr'
    /\ state pr' = fulfilled
    /\ result pr' = (pipeline gs (VPromise q) (user w)).1
    /\ user w' = (pipeline gs (VPromise q) (user w)).2
    /\ then_ pr' = then_ pr /\ catch pr' = catch pr
    /\ oracle w' = oracle w /\ ready w' = ready w
    /\ (forall x, x <> p -> heap w' !! x = heap w !! x).
Proof.
  intros Hp Hm Hs Ht Hsp Hn.
  eexists. eexists. split.
  - apply (resolve_in_plain _ fuel p pr gs (VPromise q) w Hp Hm Hs Ht Hsp Hn).
  - split; [eapply lookup_put; exact Hp |]. fld.
    repeat split; try reflexivity.
    intros x Hx. rewrite lookup_put_ne by (now apply not_eq_sym). reflexivity.
Qed.

Lemma resolution_is_not_flattened_witness :
  exists w' pr',
    resolve 0 0%nat (VPromise 7%nat)
      (example_world
         (example_promise (does (call_resolve (VPromise 7%nat)))
            [plain_then (add_int 1)] []) [true])
    = Done tt w'
    /\ heap w' !! 0%nat = Some pr'
    /\ state pr' = fulfilled
    /\ result pr' = VNil
    /\ user w' = [VPromise 7%nat]
    /\ then_ pr' = [plain_then (add_int 1)] /\ catch pr' = []
    /\ oracle w' = [true] /\ ready w' = [0%nat]
    /\ (forall x, x <> 0%nat ->
          heap w' !! x
          = heap (example_world
                    (example_promise (does (call_resolve (VPromise 7%nat)))
                       [plain_then (add_int 1)] []) [true]) !! x).
Proof.
  exact (resolution_is_not_flattened 0 0%nat 7%nat
           (example_promise (does (call_resolve (VPromise 7%nat)))
              [plain_then (add_int 1)] [])
           [add_int 1] (example_world _ [true])
           eq_refl eq_refl eq_refl eq_refl eq_refl ltac:(cbn; lia)).
Defined.
